(** * amalga_doc_parser: a shallow embedding of the markdown report parser

    The development follows the two modules of the package:
    [models.py] (Reference, Table, Section, Document and their dictionary
    codecs) and [parser.py] (the five line patterns, the DocumentParser
    object and its line loop).

    Text is a sequence of code points.  The embedding works over the 256
    code points of Latin-1, one [ascii] each, on which the character
    classes used by the code ([str.isspace], [\s], [\d], [str.lower],
    [str.splitlines]) are the finite tables written out below. *)

From Stdlib Require Import Ascii String DecimalString DecimalNat.
From stdpp Require Import prelude.

Open Scope nat_scope.

(** ** Python text *)

Abbreviation str := (list ascii).

Definition py (s : string) : str := list_ascii_of_string s.

Definition code (a : ascii) : nat := nat_of_ascii a.

Definition ch_eqb (a b : ascii) : bool := Ascii.eqb a b.

(** [str.isspace] for one character, also the class [\s] of [re]. *)
Definition is_space (a : ascii) : bool :=
  let n := code a in
  ((9 <=? n) && (n <=? 13)) || ((28 <=? n) && (n <=? 32))
  || (n =? 133) || (n =? 160).

(** The class [\d] of [re]. *)
Definition is_digit (a : ascii) : bool :=
  let n := code a in (48 <=? n) && (n <=? 57).

(** The line boundaries of [str.splitlines]. *)
Definition is_linebreak (a : ascii) : bool :=
  let n := code a in
  ((10 <=? n) && (n <=? 13)) || ((28 <=? n) && (n <=? 30)) || (n =? 133).

Definition newline : ascii := ascii_of_nat 10.
Definition carriage_return : ascii := ascii_of_nat 13.

Definition is_newline (a : ascii) : bool := ch_eqb a newline.

(** [str.lower] for one character. *)
Definition lower_char (a : ascii) : ascii :=
  let n := code a in
  if ((65 <=? n) && (n <=? 90))
     || ((192 <=? n) && (n <=? 222) && negb (n =? 215))
  then ascii_of_nat (n + 32) else a.

Definition lower (s : str) : str := map lower_char s.

Fixpoint drop_while (p : ascii -> bool) (s : str) : str :=
  match s with
  | [] => []
  | a :: s' => if p a then drop_while p s' else s
  end.

Definition lstrip_by (p : ascii -> bool) (s : str) : str := drop_while p s.
Definition rstrip_by (p : ascii -> bool) (s : str) : str :=
  rev (drop_while p (rev s)).
Definition strip_by (p : ascii -> bool) (s : str) : str :=
  rstrip_by p (lstrip_by p s).

(** [s.rstrip()], [s.strip()] and [s.strip(c)]. *)
Definition rstrip : str -> str := rstrip_by is_space.
Definition strip : str -> str := strip_by is_space.
Definition strip_char (c : ascii) : str -> str := strip_by (ch_eqb c).

(** [s.split(c)] for a one-character separator: never an empty list. *)
Fixpoint split (c : ascii) (s : str) : list str :=
  match s with
  | [] => [[]]
  | a :: s' =>
      if ch_eqb a c then [] :: split c s'
      else match split c s' with
           | piece :: rest => (a :: piece) :: rest
           | [] => [[a]]
           end
  end.

(** [sep.join(parts)]. *)
Fixpoint join (sep : str) (parts : list str) : str :=
  match parts with
  | [] => []
  | [p] => p
  | p :: rest => p ++ sep ++ join sep rest
  end.

(** [s.splitlines()]; [cur] holds the characters of the line being read,
    last one first. *)
Fixpoint splitlines_from (cur : str) (s : str) : list str :=
  match s with
  | [] => match cur with [] => [] | _ => [rev cur] end
  | a :: s' =>
      if is_linebreak a then
        match s' with
        | b :: s'' =>
            if ch_eqb a carriage_return && ch_eqb b newline
            then rev cur :: splitlines_from [] s''
            else rev cur :: splitlines_from [] s'
        | [] => rev cur :: splitlines_from [] s'
        end
      else splitlines_from (a :: cur) s'
  end.

Definition splitlines (s : str) : list str := splitlines_from [] s.

(** [xs[-n:]] for a positive [n]. *)
Definition last_n {A} (n : nat) (xs : list A) : list A :=
  drop (length xs - n) xs.

Fixpoint starts_with (p s : str) : bool :=
  match p, s with
  | [], _ => true
  | _ :: _, [] => false
  | a :: p', b :: s' => ch_eqb a b && starts_with p' s'
  end.

(** [p in s] on strings. *)
Fixpoint contains (p s : str) : bool :=
  starts_with p s
  || match s with
     | [] => false
     | _ :: s' => contains p s'
     end.

(** [str(n)] for a natural number. *)
Definition str_of_nat (n : nat) : str :=
  py (NilEmpty.string_of_uint (Nat.to_uint n)).

(** ** The fragment of [re] used by the parser

    A backtracking matcher in continuation-passing style.  Alternatives are
    tried in the order [re] tries them: a repetition is greedy, and the
    first complete match found is the answer. *)

Inductive regex : Type :=
  | Eps
  | Chr (p : ascii -> bool)
  | Bol
  | Eol
  | Seq (r1 r2 : regex)
  | Alt (r1 r2 : regex)
  | Rep (r : regex) (lo : nat) (hi : option nat)
  | Grp (i : nat) (r : regex).

Definition Star (r : regex) : regex := Rep r 0 None.
Definition Plus (r : regex) : regex := Rep r 1 None.
Definition Opt (r : regex) : regex := Rep r 0 (Some 1).
Definition Lit (c : ascii) : regex := Chr (ch_eqb c).

Fixpoint Word (s : str) : regex :=
  match s with
  | [] => Eps
  | a :: s' => Seq (Lit a) (Word s')
  end.

Definition any_char (a : ascii) : bool := negb (is_newline a).

Definition caps := nat -> option str.
Definition no_caps : caps := fun _ => None.
Definition set_cap (i : nat) (v : str) (c : caps) : caps :=
  fun j => if j =? i then Some v else c j.

Definition cont := str -> caps -> option (str * caps).
Definition matcher := str -> caps -> cont -> option (str * caps).

Definition or_else {A} (x y : option A) : option A :=
  match x with Some _ => x | None => y end.

Fixpoint rep_must (body : matcher) (j : nat) (after : matcher) : matcher :=
  fun s c k =>
    match j with
    | 0 => after s c k
    | S j' => body s c (fun s' c' => rep_must body j' after s' c' k)
    end.

Definition spent (budget : option nat) : bool :=
  match budget with Some 0 => true | _ => false end.

(** The optional iterations of a greedy repetition.  One more iteration is
    tried first; an iteration that consumed nothing is the last one. *)
Fixpoint rep_may (body : matcher) (fuel : nat) (budget : option nat) : matcher :=
  fun s c k =>
    match fuel with
    | 0 => k s c
    | S fuel' =>
        if spent budget then k s c
        else
          or_else
            (body s c (fun s' c' =>
               if length s' <? length s
               then rep_may body fuel' (pred <$> budget) s' c' k
               else k s' c'))
            (k s c)
    end.

Fixpoint exec (n0 : nat) (r : regex) : matcher :=
  fun s c k =>
    match r with
    | Eps => k s c
    | Chr p =>
        match s with
        | a :: s' => if p a then k s' c else None
        | [] => None
        end
    | Bol => if length s =? n0 then k s c else None
    | Eol =>
        match s with
        | [] => k s c
        | [a] => if is_newline a then k s c else None
        | _ => None
        end
    | Seq r1 r2 => exec n0 r1 s c (fun s' c' => exec n0 r2 s' c' k)
    | Alt r1 r2 => or_else (exec n0 r1 s c k) (exec n0 r2 s c k)
    | Rep r' lo hi =>
        rep_must (exec n0 r') lo
          (fun s1 c1 k1 =>
             rep_may (exec n0 r') (S (length s1)) ((fun h => h - lo) <$> hi) s1 c1 k1)
          s c k
    | Grp i r' =>
        exec n0 r' s c
          (fun s' c' => k s' (set_cap i (take (length s - length s') s) c'))
    end.

(** [pattern.match(s)]: the groups of the first match anchored at the start
    of [s], with the text left after it. *)
Definition re_match (r : regex) (s : str) : option (str * caps) :=
  exec (length s) r s no_caps (fun s' c => Some (s', c)).

Definition ch (s : string) : ascii :=
  match s with String a _ => a | EmptyString => zero end.

Definition space_ : regex := Chr is_space.
Definition digit_ : regex := Chr is_digit.

(** SECTION_HEADER_PATTERN: at the start of the line, group 1 is one to six
    marker characters; then white space; then the optional group 2, a
    numbering token (any number of digits-and-dot items, digits, an optional
    dot, white space); then group 3, one or more characters up to the end
    of the line. *)
Definition SECTION_HEADER_PATTERN : regex :=
  Seq Bol
   (Seq (Grp 1 (Rep (Lit (ch "#")) 1 (Some 6)))
    (Seq (Star space_)
     (Seq (Opt (Grp 2
            (Seq (Star (Seq (Plus digit_) (Lit (ch "."))))
             (Seq (Star digit_)
              (Seq (Opt (Lit (ch "."))) (Star space_))))))
      (Seq (Grp 3 (Plus (Chr any_char))) Eol)))).

(** TABLE_ROW_PATTERN = r"^\|(.+)\|$" *)
Definition TABLE_ROW_PATTERN : regex :=
  Seq Bol (Seq (Lit (ch "|"))
   (Seq (Grp 1 (Plus (Chr any_char))) (Seq (Lit (ch "|")) Eol))).

Definition dash_or_colon (a : ascii) : bool :=
  ch_eqb a (ch "-") || ch_eqb a (ch ":").

(** TABLE_SEPARATOR_PATTERN = r"^\|(\s*[-:]+[-:]\s*\|)+$" *)
Definition TABLE_SEPARATOR_PATTERN : regex :=
  Seq Bol (Seq (Lit (ch "|"))
   (Seq (Plus (Grp 1
          (Seq (Star space_)
           (Seq (Plus (Chr dash_or_colon))
            (Seq (Chr dash_or_colon)
             (Seq (Star space_) (Lit (ch "|"))))))))
     Eol)).

Definition digit_or_dot (a : ascii) : bool :=
  is_digit a || ch_eqb a (ch ".").

(** TABLE_CAPTION_PATTERN = r"^(?:Table|TABLE)\s+[\d\.]+:?\s+(.+)$" *)
Definition TABLE_CAPTION_PATTERN : regex :=
  Seq Bol
   (Seq (Alt (Word (py "Table")) (Word (py "TABLE")))
    (Seq (Plus space_)
     (Seq (Plus (Chr digit_or_dot))
      (Seq (Opt (Lit (ch ":")))
       (Seq (Plus space_)
        (Seq (Grp 1 (Plus (Chr any_char))) Eol)))))).

(** REFERENCE_PATTERN = r"^\[(\d+)\]\s+(.+)$" *)
Definition REFERENCE_PATTERN : regex :=
  Seq Bol (Seq (Lit (ch "["))
   (Seq (Grp 1 (Plus digit_))
    (Seq (Lit (ch "]"))
     (Seq (Plus space_)
      (Seq (Grp 2 (Plus (Chr any_char))) Eol))))).

(** The numbering prefix removed by [_clean_section_name]:
    r"^\d+\.(?:\d+\.)*\s*" *)
Definition NUMBER_PREFIX_PATTERN : regex :=
  Seq Bol
   (Seq (Plus digit_)
    (Seq (Lit (ch "."))
     (Seq (Star (Seq (Plus digit_) (Lit (ch ".")))) (Star space_)))).

Definition matches (r : regex) (s : str) : bool :=
  match re_match r s with Some _ => true | None => false end.

Definition group (i : nat) (m : str * caps) : option str := snd m i.


(** * models.py *)

(** ** Dictionaries and the values [to_dict] builds

    A [dict] keeps its keys in insertion order, one entry per key. *)

Fixpoint str_eqb (s t : str) : bool :=
  match s, t with
  | [], [] => true
  | a :: s', b :: t' => ch_eqb a b && str_eqb s' t'
  | _, _ => false
  end.

#[local] Unset Elimination Schemes.
Inductive value : Type :=
  | VNone
  | VBool (b : bool)
  | VInt (z : Z)
  | VStr (s : str)
  | VList (items : list value)
  | VDict (entries : list (str * value)).
#[local] Set Elimination Schemes.

Abbreviation dict := (list (str * value)).

(** [d.get(k)] *)
Fixpoint dict_get (k : str) (d : dict) : option value :=
  match d with
  | [] => None
  | (k', v) :: d' => if str_eqb k k' then Some v else dict_get k d'
  end.

(** [d[k] = v] *)
Fixpoint dict_set (k : str) (v : value) (d : dict) : dict :=
  match d with
  | [] => [(k, v)]
  | (k', v') :: d' =>
      if str_eqb k k' then (k, v) :: d' else (k', v') :: dict_set k v d'
  end.

(** The dictionary left by [d.pop(k, default)]. *)
Fixpoint dict_del (k : str) (d : dict) : dict :=
  match d with
  | [] => []
  | (k', v') :: d' =>
      if str_eqb k k' then d' else (k', v') :: dict_del k d'
  end.

Definition dict_has (k : str) (d : dict) : bool :=
  match dict_get k d with Some _ => true | None => false end.

Definition as_str (v : value) : option str :=
  match v with VStr s => Some s | _ => None end.
Definition as_int (v : value) : option Z :=
  match v with VInt z => Some z | _ => None end.
Definition as_list (v : value) : option (list value) :=
  match v with VList l => Some l | _ => None end.
Definition as_dict (v : value) : option dict :=
  match v with VDict d => Some d | _ => None end.

Definition as_str_list (v : value) : option (list str) :=
  as_list v ≫= mapM as_str.
Definition as_str_table (v : value) : option (list (list str)) :=
  as_list v ≫= mapM as_str_list.

Definition of_str_list (l : list str) : value := VList (VStr <$> l).
Definition of_str_table (l : list (list str)) : value := VList (of_str_list <$> l).

(** [data.get(k, default)] read at a given type; a value of another type
    has no counterpart in the typed records and gives [None]. *)
Definition get_or {A} (k : str) (rd : value -> option A) (default : A)
    (d : dict) : option A :=
  match dict_get k d with
  | Some v => rd v
  | None => Some default
  end.

(** [data[k]] read at a given type: a missing key raises. *)
Definition get_req {A} (k : str) (rd : value -> option A) (d : dict) : option A :=
  dict_get k d ≫= rd.

Module Reference.
Record t : Type := mk { id : str; text : str }.

Definition to_dict (self : t) : value :=
  VDict [(py "id", VStr (id self)); (py "text", VStr (text self))].

Definition from_dict (data : value) : option t :=
  d ← as_dict data;
  i ← get_req (py "id") as_str d;
  x ← get_req (py "text") as_str d;
  Some (mk i x).
End Reference.

Module Table.
Record t : Type :=
  mk { id : str; caption : str; headers : list str; rows : list (list str) }.

Definition to_dict (self : t) : value :=
  VDict [(py "id", VStr (id self));
         (py "caption", VStr (caption self));
         (py "headers", of_str_list (headers self));
         (py "rows", of_str_table (rows self))].

Definition from_dict (data : value) : option t :=
  d ← as_dict data;
  i ← get_req (py "id") as_str d;
  c ← get_req (py "caption") as_str d;
  h ← get_or (py "headers") as_str_list [] d;
  r ← get_or (py "rows") as_str_table [] d;
  Some (mk i c h r).
End Table.

Module Section.
#[local] Unset Elimination Schemes.
Inductive t : Type :=
  mk { name : str; raw_name : str; content : str; level : Z;
       subsections : list t }.
#[local] Set Elimination Schemes.

Fixpoint to_dict (self : t) : value :=
  VDict [(py "name", VStr (name self));
         (py "raw_name", VStr (raw_name self));
         (py "content", VStr (content self));
         (py "level", VInt (level self));
         (py "subsections", VList (to_dict <$> subsections self))].

(** [from_dict] recurses into the nested data; [depth] bounds the
    nesting it can follow. *)
Fixpoint from_dict_upto (depth : nat) (data : value) : option t :=
  match depth with
  | 0 => None
  | S depth' =>
      d ← as_dict data;
      n ← get_req (py "name") as_str d;
      r ← get_or (py "raw_name") as_str [] d;
      c ← get_req (py "content") as_str d;
      l ← get_req (py "level") as_int d;
      subs ← get_or (py "subsections") as_list [] d;
      subsecs ← mapM (from_dict_upto depth') subs;
      Some (mk n r c l subsecs)
  end.

Fixpoint height (v : value) : nat :=
  match v with
  | VList items => S (foldr (fun x acc => max (height x) acc) 0 items)
  | VDict entries => S (foldr (fun e acc => max (height (snd e)) acc) 0 entries)
  | _ => 1
  end.

Definition from_dict (data : value) : option t :=
  from_dict_upto (height data) data.
End Section.

Module Document.
Record t : Type :=
  mk { title : str;
       sections : list Section.t;
       tables : list Table.t;
       references : list Reference.t;
       metadata : dict }.

(** The constructor with [__post_init__]; [now] is the text of
    [datetime.now().isoformat()] read at the call. *)
Definition new (now : str) (title : str) (sections : list Section.t)
    (metadata : dict) : t :=
  mk title sections [] []
     (if dict_has (py "created_at") metadata then metadata
      else dict_set (py "created_at") (VStr now) metadata).

Definition to_dict (self : t) : value :=
  VDict [(py "title", VStr (title self));
         (py "sections", VList (Section.to_dict <$> sections self));
         (py "metadata",
           VDict (dict_set (py "references")
                    (VList (Reference.to_dict <$> references self))
                    (dict_set (py "tables")
                       (VList (Table.to_dict <$> tables self))
                       (metadata self))))].

Definition from_dict (now : str) (data : value) : option t :=
  d ← as_dict data;
  let meta := default (VDict []) (dict_get (py "metadata") d) in
  let tables_data :=
    match meta with
    | VDict m => default (VList []) (dict_get (py "tables") m)
    | _ => VList []
    end in
  let meta1 :=
    match meta with VDict m => VDict (dict_del (py "tables") m) | v => v end in
  let refs_data :=
    match meta1 with
    | VDict m => default (VList []) (dict_get (py "references") m)
    | _ => VList []
    end in
  let meta2 :=
    match meta1 with VDict m => dict_del (py "references") m | _ => [] end in
  ttl ← get_req (py "title") as_str d;
  secs_data ← get_or (py "sections") as_list [] d;
  secs ← mapM Section.from_dict secs_data;
  let document := new now ttl secs meta2 in
  tbls ← as_list tables_data ≫= mapM Table.from_dict;
  refs ← as_list refs_data ≫= mapM Reference.from_dict;
  Some (mk (title document) (sections document) tbls refs (metadata document)).

(** [to_json] and [from_json] go through the [json] module of the standard
    library, which is not part of the package: [dumps] and [loads] stand
    for [json.dumps] and [json.loads]. *)
Definition to_json (dumps : value -> str) (self : t) : str :=
  dumps (to_dict self).

Definition from_json (loads : str -> option value) (now : str) (json_str : str)
    : option t :=
  loads json_str ≫= from_dict now.
End Document.

(** * parser.py *)

(** ** Objects in memory

    The parser keeps references to the Section objects it has created
    ([current_section], [section_stack]) while the same objects hang in the
    document tree, and it updates them in place.  A reference is an address
    into the [heap] of Section objects; an object's [subsections] is a list
    of references. *)

Abbreviation addr := nat.

Module Obj.
Record t : Type :=
  mk { name : str; raw_name : str; content : str; level : Z;
       subsections : list addr }.

Definition add_subsection (sub : addr) (self : t) : t :=
  mk (name self) (raw_name self) (content self) (level self)
     (subsections self ++ [sub]).

Definition add_content (more : str) (self : t) : t :=
  mk (name self) (raw_name self) (content self ++ more) (level self)
     (subsections self).
End Obj.

Abbreviation heap_t := (list Obj.t).

(** The Document object under construction: [sections] are references. *)
Module Doc.
Record t : Type :=
  mk { title : str;
       sections : list addr;
       tables : list Table.t;
       references : list Reference.t;
       metadata : dict }.

Definition new (now : str) (title : str) : t :=
  mk title [] [] [] (dict_set (py "created_at") (VStr now) []).

Definition add_section (s : addr) (self : t) : t :=
  mk (title self) (sections self ++ [s]) (tables self) (references self)
     (metadata self).
Definition add_table (x : Table.t) (self : t) : t :=
  mk (title self) (sections self) (tables self ++ [x]) (references self)
     (metadata self).
Definition add_reference (x : Reference.t) (self : t) : t :=
  mk (title self) (sections self) (tables self) (references self ++ [x])
     (metadata self).
End Doc.

(** The tree value of the Section object at [a], as [to_dict] or any
    reader walks it.  [depth] bounds the walk. *)
Fixpoint snapshot (depth : nat) (h : heap_t) (a : addr) : option Section.t :=
  match depth with
  | 0 => None
  | S depth' =>
      o ← h !! a;
      subs ← mapM (snapshot depth' h) (Obj.subsections o);
      Some (Section.mk (Obj.name o) (Obj.raw_name o) (Obj.content o)
              (Obj.level o) subs)
  end.

(** The Document value a caller sees in memory [h]. *)
Definition export (h : heap_t) (d : Doc.t) : option Document.t :=
  secs ← mapM (snapshot (length h) h) (Doc.sections d);
  Some (Document.mk (Doc.title d) secs (Doc.tables d) (Doc.references d)
          (Doc.metadata d)).

(** ** DocumentParser *)

Record DocumentParser : Type :=
  mkParser {
    document : option Doc.t;
    current_section : option addr;
    section_stack : list addr;
    table_buffer : list str;
    is_in_table : bool;
    table_count : nat;
    seen_document_title : bool;
    heap : heap_t }.

Definition expected_sections : list str :=
  py <$> ["Executive Summary"; "Platform Overview"; "Core Capabilities";
          "Data Management Architecture";
          "User Experience and Interface Design";
          "Technological Foundations"; "Competitive Differentiation";
          "Lessons Learned"]%string.

(** [DocumentParser.__init__] *)
Definition init : DocumentParser :=
  mkParser None None [] [] false 0 false [].

Definition with_document (f : Doc.t -> Doc.t) (p : DocumentParser) : DocumentParser :=
  mkParser (f <$> document p) (current_section p) (section_stack p)
    (table_buffer p) (is_in_table p) (table_count p) (seen_document_title p)
    (heap p).
Definition set_document (d : Doc.t) (p : DocumentParser) : DocumentParser :=
  mkParser (Some d) (current_section p) (section_stack p)
    (table_buffer p) (is_in_table p) (table_count p) (seen_document_title p)
    (heap p).
Definition set_current_section (a : addr) (p : DocumentParser) : DocumentParser :=
  mkParser (document p) (Some a) (section_stack p)
    (table_buffer p) (is_in_table p) (table_count p) (seen_document_title p)
    (heap p).
Definition set_section_stack (st : list addr) (p : DocumentParser) : DocumentParser :=
  mkParser (document p) (current_section p) st
    (table_buffer p) (is_in_table p) (table_count p) (seen_document_title p)
    (heap p).
Definition set_table_state (buf : list str) (flag : bool) (p : DocumentParser)
    : DocumentParser :=
  mkParser (document p) (current_section p) (section_stack p)
    buf flag (table_count p) (seen_document_title p) (heap p).
Definition set_table_count (n : nat) (p : DocumentParser) : DocumentParser :=
  mkParser (document p) (current_section p) (section_stack p)
    (table_buffer p) (is_in_table p) n (seen_document_title p) (heap p).
Definition set_seen_document_title (b : bool) (p : DocumentParser) : DocumentParser :=
  mkParser (document p) (current_section p) (section_stack p)
    (table_buffer p) (is_in_table p) (table_count p) b (heap p).
Definition set_heap (h : heap_t) (p : DocumentParser) : DocumentParser :=
  mkParser (document p) (current_section p) (section_stack p)
    (table_buffer p) (is_in_table p) (table_count p) (seen_document_title p) h.

(** In-place update of the object at [a]. *)
Definition update_obj (a : addr) (f : Obj.t -> Obj.t) (p : DocumentParser)
    : DocumentParser :=
  set_heap (alter f a (heap p)) p.

(** A new Section object; its address is the old size of the heap. *)
Definition alloc (o : Obj.t) (p : DocumentParser) : DocumentParser :=
  set_heap (heap p ++ [o]) p.

(** [re.sub(pattern, "", s)] for a pattern anchored at the start of the
    text: only a match at position 0 is possible, and it is removed. *)
Definition re_sub_anchored (r : regex) (s : str) : str :=
  match re_match r s with
  | Some (rest, _) => rest
  | None => s
  end.

Definition _clean_section_name (section_name : str) : str :=
  strip (re_sub_anchored NUMBER_PREFIX_PATTERN section_name).

Definition level_at (h : heap_t) (a : addr) : Z :=
  match h !! a with Some o => Obj.level o | None => 0%Z end.

(** The loop [for i in range(len(stack) - 1, -1, -1)] looking for the
    closest entry with a lower level; [n] entries are still to inspect. *)
Fixpoint find_parent (h : heap_t) (stack : list addr) (level : Z) (n : nat)
    : option nat :=
  match n with
  | 0 => None
  | S i =>
      match stack !! i with
      | Some a =>
          if (level_at h a <? level)%Z then Some i
          else find_parent h stack level i
      | None => find_parent h stack level i
      end
  end.

Definition truthy (s : option str) : bool :=
  match s with Some (_ :: _) => true | _ => false end.

Definition _process_section_header (title_part : str) (level : Z)
    (number_part : option str) (p : DocumentParser) : DocumentParser :=
  let raw_name :=
    strip (if truthy number_part
           then default [] number_part ++ py " " ++ title_part
           else title_part) in
  if (level =? 1)%Z && negb (seen_document_title p) then
    set_seen_document_title true p
  else
    let cleaned_name := _clean_section_name raw_name in
    let section := length (heap p) in
    let p := alloc (Obj.mk cleaned_name raw_name [] level []) p in
    let p :=
      if (level =? 1)%Z then
        set_section_stack [section] (with_document (Doc.add_section section) p)
      else
        let stack := section_stack p in
        match find_parent (heap p) stack level (length stack) with
        | Some i =>
            match stack !! i with
            | Some potential_parent =>
                set_section_stack (take (S i) stack ++ [section])
                  (update_obj potential_parent (Obj.add_subsection section) p)
            | None => p
            end
        | None =>
            set_section_stack [section]
              (with_document (Doc.add_section section) p)
        end in
    set_current_section section p.

(** The cells of a table line: [line.strip("|").split("|")], each cell
    stripped. *)
Definition cells (line : str) : list str :=
  strip <$> split (ch "|") (strip_char (ch "|") line).

Definition has_bar (line : str) : bool := contains (py "|") line.

Definition nonempty {A} (l : list A) : bool :=
  match l with [] => false | _ :: _ => true end.

(** The caption found in the last lines of a section's content. *)
Definition find_caption (content : str) : option str :=
  strip <$> List.find (matches TABLE_CAPTION_PATTERN) (last_n 5 (splitlines content)).

Definition _process_table_buffer (caption : str) (p : DocumentParser)
    : DocumentParser :=
  match table_buffer p with
  | [] => set_table_state (table_buffer p) false p
  | header_line :: _ =>
      let buf := table_buffer p in
      let headers :=
        if (2 <=? length buf) && has_bar header_line then cells header_line
        else [] in
      let data_rows := if 2 <? length buf then drop 2 buf else [] in
      let rows :=
        if 2 <=? length buf
        then cells <$> List.filter (fun row => nonempty row && has_bar row) data_rows
        else [] in
      let p := set_table_count (S (table_count p)) p in
      let table_id := py "T" ++ str_of_nat (table_count p) in
      let caption :=
        if nonempty caption then caption
        else
          let fallback := py "Table " ++ str_of_nat (table_count p) in
          match current_section p with
          | Some a =>
              match heap p !! a with
              | Some o => default fallback (find_caption (Obj.content o))
              | None => fallback
              end
          | None => fallback
          end in
      let table := Table.mk table_id caption headers rows in
      set_table_state [] false (with_document (Doc.add_table table) p)
  end.

(** [self.current_section.content += "\n".join(current_content) + "\n"],
    under its guard [if current_content and self.current_section]. *)
Definition flush_content (current_content : list str) (p : DocumentParser)
    : DocumentParser :=
  match current_content, current_section p with
  | _ :: _, Some a =>
      update_obj a (Obj.add_content (join [newline] current_content ++ [newline])) p
  | _, _ => p
  end.

Definition is_table_line (line : str) : bool :=
  matches TABLE_ROW_PATTERN line || matches TABLE_SEPARATOR_PATTERN line.

Definition is_blank (line : str) : bool := negb (nonempty (strip line)).

(** The state of the line loop of [parse_file]: the parser object and the
    local [current_content]. *)
Definition scan : Type := DocumentParser * list str.

(** One turn of [for line in f]. *)
Definition step (st : scan) (raw : str) : scan :=
  let '(p, current_content) := st in
  let line := rstrip raw in
  match re_match SECTION_HEADER_PATTERN line with
  | Some header_match =>
      let p := flush_content current_content p in
      let hashes := default [] (group 1 header_match) in
      let number_part := group 2 header_match in
      let title_part := default [] (group 3 header_match) in
      (_process_section_header title_part (Z.of_nat (length hashes)) number_part p,
       [])
  | None =>
      if is_table_line line then
        let '(p, current_content) :=
          if nonempty current_content && negb (is_in_table p)
          then (flush_content current_content p, [])
          else (p, current_content) in
        (set_table_state (table_buffer p ++ [line]) true p, current_content)
      else if is_in_table p && is_blank line then
        (_process_table_buffer [] p, current_content)
      else
        let p :=
          match re_match REFERENCE_PATTERN line with
          | Some ref_match =>
              let ref_id := default [] (group 1 ref_match) in
              let ref_text := default [] (group 2 ref_match) in
              with_document (Doc.add_reference (Reference.mk ref_id ref_text)) p
          | None => p
          end in
        (p, match current_section p with
            | Some _ => current_content ++ [line]
            | None => current_content
            end)
  end.

(** [any(expected.lower() in section.lower() for section in found)] *)
Definition covered (found_sections : list str) (expected : str) : bool :=
  existsb (fun section => contains (lower expected) (lower section)) found_sections.

Definition names_at (h : heap_t) (l : list addr) : list str :=
  omap (fun a => Obj.name <$> h !! a) l.

(** The names [_validate_document] collects. *)
Definition found_sections (h : heap_t) (d : Doc.t) : list str :=
  names_at h (Doc.sections d)
  ++ match Doc.sections d with
     | first :: _ =>
         match h !! first with
         | Some o => names_at h (Obj.subsections o)
         | None => []
         end
     | [] => []
     end.

(** [_validate_document]: the expected names it reports missing in its
    warning; it changes nothing and raises nothing. *)
Definition _validate_document (p : DocumentParser) : list str :=
  match document p with
  | Some d =>
      List.filter (fun expected => negb (covered (found_sections (heap p) d) expected))
        expected_sections
  | None => []
  end.

Definition _finalize_parsing (p : DocumentParser) : DocumentParser * list str :=
  let p :=
    if is_in_table p && nonempty (table_buffer p)
    then _process_table_buffer [] p else p in
  (p, _validate_document p).

(** The title given to the new Document: [title if title else <from the
    file name>]; [stem_title] stands for
    [Path(filepath).stem.replace("_", " ").title()]. *)
Definition choose_title (stem_title : str) (title : option str) : str :=
  if truthy title then default [] title else stem_title.

(** The body of [parse_file] for a readable file with the given lines:
    the parser afterwards and the names reported missing. *)
Definition parse_lines (now stem_title : str) (lines : list str)
    (title : option str) (p : DocumentParser) : DocumentParser * list str :=
  let p := set_document (Doc.new now (choose_title stem_title title)) p in
  let '(p, current_content) := foldl step (p, []) lines in
  let p := flush_content current_content p in
  _finalize_parsing p.

(** [parse_file]: [file] is [None] when the path does not exist, which
    raises ParserError before anything is touched.  The result is the
    parser afterwards and the Document object returned. *)
Definition parse_file (now stem_title : str) (file : option (list str))
    (title : option str) (p : DocumentParser) : DocumentParser * option Doc.t :=
  match file with
  | None => (p, None)
  | Some lines =>
      let p := fst (parse_lines now stem_title lines title p) in
      (p, document p)
  end.

(** [parse_file] when the file exists but reading it raises (it cannot
    be opened, or a line cannot be decoded) after the lines [pre] have been
    read and processed: the [except] clause raises ParserError and resets
    nothing, so the parser stays as the loop left it; the local
    [current_content] is lost, and [_finalize_parsing] is not reached. *)
Definition parse_file_raising (now stem_title : str) (pre : list str)
    (title : option str) (p : DocumentParser) : DocumentParser :=
  fst (foldl step
         (set_document (Doc.new now (choose_title stem_title title)) p, []) pre).

(** [parse_document]: a new parser for every call. *)
Definition parse_document (now stem_title : str) (file : option (list str))
    (title : option str) : DocumentParser * option Doc.t :=
  parse_file now stem_title file title init.

(** The Document value returned by [parse_document], read from memory. *)
Definition parsed (now stem_title : str) (lines : list str) (title : option str)
    : option Document.t :=
  let '(p, d) := parse_document now stem_title (Some lines) title in
  d ≫= export (heap p).

#[global] Arguments re_match : simpl never.
#[global] Arguments matches : simpl never.
#[global] Arguments strip_by : simpl never.
#[global] Arguments rstrip : simpl never.
#[global] Arguments strip : simpl never.
#[global] Arguments strip_char : simpl never.
#[global] Arguments str_of_nat : simpl never.
#[global] Arguments py : simpl never.
#[global] Arguments _clean_section_name : simpl never.
#[global] Arguments find_caption : simpl never.
#[global] Arguments cells : simpl never.
#[global] Arguments has_bar : simpl never.
#[global] Arguments contains : simpl never.
#[global] Arguments lower : simpl never.
#[global] Arguments expected_sections : simpl never.
#[global] Arguments step : simpl never.
#[global] Arguments _process_table_buffer : simpl never.
#[global] Arguments _process_section_header : simpl never.
#[global] Arguments flush_content : simpl never.
#[global] Arguments _validate_document : simpl never.
#[global] Arguments join : simpl never.

(** * Specification vocabulary

    The predicates and projections in which the properties below are
    stated. *)

Definition tables_of (p : DocumentParser) : list Table.t :=
  from_option Doc.tables [] (document p).
Definition sections_of (p : DocumentParser) : list addr :=
  from_option Doc.sections [] (document p).
Definition references_of (p : DocumentParser) : list Reference.t :=
  from_option Doc.references [] (document p).

(** The part of the parser that table extraction reads and writes. *)
Definition table_view (p : DocumentParser)
    : list str * bool * nat * list Table.t :=
  (table_buffer p, is_in_table p, table_count p, tables_of p).

Definition first_is (p : ascii -> bool) (s : str) : bool :=
  match s with a :: _ => p a | [] => false end.

(** The id of the [n]-th table. *)
Definition table_name (n : nat) : str := py "T" ++ str_of_nat n.

(** The tables of the document under construction are numbered
    [k + 1], [k + 2], ... and the counter stands at the last number. *)
Definition numbered_from (k : nat) (p : DocumentParser) : Prop :=
  is_Some (document p)
  /\ table_count p = k + length (tables_of p)
  /\ Table.id <$> tables_of p = table_name <$> seq (S k) (length (tables_of p)).

(** The buffer flag tells whether lines are buffered. *)
Definition buffer_flag_ok (p : DocumentParser) : Prop :=
  is_in_table p = nonempty (table_buffer p).

(** ** Memory invariants *)

(** Every reference held by an object points to an object created after
    it, of a deeper level. *)
Definition heap_ok (h : heap_t) : Prop :=
  forall a o c, h !! a = Some o -> c ∈ Obj.subsections o ->
    a < c < length h /\ (Obj.level o < level_at h c)%Z.

(** The references held by the parser and by its document point into the
    heap. *)
Definition refs_ok (p : DocumentParser) : Prop :=
  Forall (fun a => a < length (heap p)) (section_stack p)
  /\ (forall a, current_section p = Some a -> a < length (heap p))
  /\ Forall (fun a => a < length (heap p)) (sections_of p).

Definition parser_ok (p : DocumentParser) : Prop :=
  heap_ok (heap p) /\ refs_ok p /\ buffer_flag_ok p.

(** The parsers a program can hold: a new one, or one on which
    [parse_file] has been called, whether the call returned, found no file
    or raised while reading. *)
Inductive reachable : DocumentParser -> Prop :=
  | reachable_init : reachable init
  | reachable_parse_file now stem_title file title p :
      reachable p -> reachable (fst (parse_file now stem_title file title p))
  | reachable_parse_file_raising now stem_title pre title p :
      reachable p -> reachable (parse_file_raising now stem_title pre title p).

(** [in_tree x s]: the section [x] is [s] or lies somewhere below it. *)
Inductive in_tree (x : Section.t) : Section.t -> Prop :=
  | in_tree_here : in_tree x x
  | in_tree_below s c :
      c ∈ Section.subsections s -> in_tree x c -> in_tree x s.

(** The Document value returned by a call of [parse_file] on a parser [p],
    read from memory right after the call. *)
Definition parsed_by (p : DocumentParser) (now stem_title : str)
    (lines : list str) (title : option str) : option Document.t :=
  let '(p', d) := parse_file now stem_title (Some lines) title p in
  d ≫= export (heap p').

(** ** Vocabulary for the line patterns *)

(** What a greedy run of one character class does: it takes characters
    while they are in the class and the budget lasts, then offers the rest
    to [k], giving characters back one at a time while [k] refuses. *)
Fixpoint greedy {R} (p : ascii -> bool) (budget : option nat) (s : str)
    (k : str -> option R) : option R :=
  match s with
  | a :: s' =>
      if p a && negb (spent budget)
      then or_else (greedy p (pred <$> budget) s' k) (k s)
      else k s
  | [] => k s
  end.

(** The number of characters such a run takes at most. *)
Fixpoint run (p : ascii -> bool) (budget : option nat) (s : str) : nat :=
  match s with
  | a :: s' =>
      if p a && negb (spent budget) then S (run p (pred <$> budget) s') else 0
  | [] => 0
  end.

(** [backoff k s j]: offer [drop j s], then [drop (j - 1) s], ... down to
    [s] itself, and take the first answer. *)
Fixpoint backoff {R} (k : str -> option R) (s : str) (j : nat) : option R :=
  match j with
  | 0 => k s
  | S j' => or_else (k (drop j s)) (backoff k s j')
  end.

(** The groups a pattern can set, and the characters it can start with. *)
Fixpoint groups (r : regex) : list nat :=
  match r with
  | Seq r1 r2 | Alt r1 r2 => groups r1 ++ groups r2
  | Rep r' _ _ => groups r'
  | Grp i r' => i :: groups r'
  | _ => []
  end.

Fixpoint can_start (r : regex) (a : ascii) : bool :=
  match r with
  | Chr p => p a
  | Seq r1 r2 | Alt r1 r2 => can_start r1 a || can_start r2 a
  | Rep r' _ _ | Grp _ r' => can_start r' a
  | _ => false
  end.

(** The number of leading characters of [s] equal to [c]. *)
Fixpoint leading (c : ascii) (s : str) : nat :=
  match s with
  | a :: s' => if ch_eqb c a then S (leading c s') else 0
  | [] => 0
  end.

(** The level a line gets as a Header: the length of group 1. *)
Definition header_level (line : str) : option nat :=
  m ← re_match SECTION_HEADER_PATTERN line;
  Some (length (default [] (group 1 m))).

(** Text that the end of the header pattern, one or more characters up to
    the end of the line, accepts. *)
Definition one_line (s : str) : Prop :=
  exists x e, s = x ++ e /\ x <> [] /\ forallb any_char x = true
              /\ (e = [] \/ e = [newline]).

(** A matcher answers only through its continuation, changes only the
    groups in [G], and moves only over text that starts with a character
    of [F]. *)
Definition sound_for (G : list nat) (F : ascii -> bool) (m : matcher) : Prop :=
  forall s c k res, m s c k = Some res ->
    exists s' c', k s' c' = Some res
      /\ (forall i, i ∉ G -> c' i = c i)
      /\ (first_is F s = false -> s' = s).

(** The header pattern in three parts: the markers (group 1), then white
    space and the optional numbering (group 2), then the title up to the
    end of the line (group 3). *)
Definition header_markers : regex := Grp 1 (Rep (Lit (ch "#")) 1 (Some 6)).

Definition header_numbering : regex :=
  Seq (Star space_)
    (Opt (Grp 2
       (Seq (Star (Seq (Plus digit_) (Lit (ch "."))))
        (Seq (Star digit_)
         (Seq (Opt (Lit (ch "."))) (Star space_)))))).

Definition to_end_of_line (i : nat) : regex :=
  Seq (Grp i (Plus (Chr any_char))) Eol.

Definition answer : cont := fun s c => Some (s, c).

(** What is run on the text [s1] left after the markers of [line]. *)
Definition after_markers (line : str) (s1 : str) : option (str * caps) :=
  exec (length line) (Seq header_numbering (to_end_of_line 3)) s1
    (set_cap 1 (take (length line - length s1) line) no_caps) answer.

(** No white space at the end, as after [rstrip]. *)
Definition rstripped (s : str) : Prop :=
  forall l a, s = l ++ [a] -> is_space a = false.

(** ** Vocabulary for the coverage check *)

(** [p] occurs in [s]. *)
Definition substring (p s : str) : Prop := exists pre post, s = pre ++ p ++ post.

(** The names the check looks at, in the Document value: those of the
    top-level sections, and those of the direct subsections of the first
    top-level section. *)
Definition checked_names (doc : Document.t) : list str :=
  (Section.name <$> Document.sections doc)
  ++ match Document.sections doc with
     | first :: _ => Section.name <$> Section.subsections first
     | [] => []
     end.

(** The names of all the sections of a tree, at every depth. *)
Fixpoint tree_names (s : Section.t) : list str :=
  Section.name s :: concat (map tree_names (Section.subsections s)).

Definition all_names (doc : Document.t) : list str :=
  concat (map tree_names (Document.sections doc)).

(** ** Vocabulary for the clock *)

(** The parser with the metadata of its document replaced by [m]. *)
Definition with_metadata (m : dict) (p : DocumentParser) : DocumentParser :=
  with_document
    (fun d => Doc.mk (Doc.title d) (Doc.sections d) (Doc.tables d)
                (Doc.references d) m) p.

(** ** Vocabulary for what a parse only adds to *)

(** An object keeps its names and level; its content and its subsections
    are only added to at the end. *)
Definition obj_grows (o o' : Obj.t) : Prop :=
  Obj.name o' = Obj.name o /\ Obj.raw_name o' = Obj.raw_name o
  /\ Obj.level o' = Obj.level o
  /\ Obj.content o `prefix_of` Obj.content o'
  /\ Obj.subsections o `prefix_of` Obj.subsections o'.

Definition heap_grows (h h' : heap_t) : Prop :=
  forall a o, h !! a = Some o -> exists o', h' !! a = Some o' /\ obj_grows o o'.

(** Between two states of one parse: the lists of the document and the
    objects in memory are only added to, and a title once seen stays
    seen. *)
Definition grows (p p' : DocumentParser) : Prop :=
  (is_Some (document p) -> is_Some (document p'))
  /\ sections_of p `prefix_of` sections_of p'
  /\ references_of p `prefix_of` references_of p'
  /\ heap_grows (heap p) (heap p')
  /\ (seen_document_title p = true -> seen_document_title p' = true).

(** The line [l], with its line break, is part of [content]. *)
Definition has_line (l content : str) : Prop :=
  exists pre post, content = pre ++ l ++ [newline] ++ post.

(** [l] is in the content of the object at [a]. *)
Definition stored (a : addr) (l : str) (p : DocumentParser) : Prop :=
  exists o, heap p !! a = Some o /\ has_line l (Obj.content o).

(** [l] waits in [current_content] for the section at [a]. *)
Definition pending (a : addr) (l : str) (st : scan) : Prop :=
  current_section (fst st) = Some a /\ l ∈ snd st.

(** The raw name [_process_section_header] gives to the section of a
    header match. *)
Definition header_raw_name (m : str * caps) : str :=
  strip (if truthy (group 2 m)
         then default [] (group 2 m) ++ py " " ++ default [] (group 3 m)
         else default [] (group 3 m)).

(** A line that is a Header of level 1. *)
Definition is_title_line (raw : str) : bool :=
  match header_level (rstrip raw) with
  | Some 1 => true
  | _ => false
  end.

(** The Reference a line gives when it has the citation shape. *)
Definition citation (line : str) : option Reference.t :=
  m ← re_match REFERENCE_PATTERN line;
  Some (Reference.mk (default [] (group 1 m)) (default [] (group 2 m))).

(** ** Vocabulary for whole parses *)

(** The parser as [parse_file] sets it up before the first line. *)
Definition begin_parse (now stem_title : str) (title : option str)
    (p : DocumentParser) : DocumentParser :=
  set_document (Doc.new now (choose_title stem_title title)) p.

(** The state of the line loop after the lines [pre]. *)
Definition after_lines (now stem_title : str) (title : option str)
    (p : DocumentParser) (pre : list str) : scan :=
  foldl step (begin_parse now stem_title title p, []) pre.

(** The citations among the lines, in order. *)
Definition citations (lines : list str) : list Reference.t :=
  omap (fun raw => citation (rstrip raw)) lines.

Definition title_of (p : DocumentParser) : option str :=
  Doc.title <$> document p.

(** ** Vocabulary for the section tree *)

(** What a heading gives its Section: raw name, level and name. *)
Definition entry (o : Obj.t) : str * Z * str :=
  (Obj.raw_name o, Obj.level o, Obj.name o).

(** The part of an object that text lines leave alone. *)
Definition frame (o : Obj.t) : str * str * Z * list addr :=
  (Obj.name o, Obj.raw_name o, Obj.level o, Obj.subsections o).

(** The entries of the headings among the lines, in order; [seen] tells
    whether a level-1 heading has been met before, and the first level-1
    heading met when none has gives no entry. *)
Fixpoint headings (seen : bool) (lines : list str) : list (str * Z * str) :=
  match lines with
  | [] => []
  | raw :: rest =>
      match re_match SECTION_HEADER_PATTERN (rstrip raw) with
      | Some m =>
          let level := length (default [] (group 1 m)) in
          if (level =? 1) && negb seen then headings true rest
          else (header_raw_name m, Z.of_nat level,
                _clean_section_name (header_raw_name m)) :: headings seen rest
      | None => headings seen rest
      end
  end.

Definition levels_ok (h : heap_t) : Prop :=
  forall a o, h !! a = Some o -> (1 <= Obj.level o <= 6)%Z.

(** The number of sections on the longest way down from [s], [s]
    included. *)
Fixpoint tree_depth (s : Section.t) : nat :=
  S (foldr max 0 (map tree_depth (Section.subsections s))).

(** [a] is the closest section before [c] with a lower level: the place
    of [c] in the outline of the headings. *)
Definition outline_parent (h : heap_t) (a c : addr) : Prop :=
  a < c /\ (level_at h a < level_at h c)%Z
  /\ forall b, a < b < c -> (level_at h c <= level_at h b)%Z.

(** No section after [a] has a level as low as that of [a]: a later
    heading can still go below [a]. *)
Definition visible (h : heap_t) (a : addr) : Prop :=
  a < length h /\ forall b, a < b < length h -> (level_at h a < level_at h b)%Z.

(** The object at [a] lists [c] among its subsections. *)
Definition edge (h : heap_t) (a c : addr) : Prop :=
  exists o, h !! a = Some o /\ c ∈ Obj.subsections o.

(** The stack holds the visible sections, oldest first, and the
    subsection references are the outline. *)
Definition tree_ok (p : DocumentParser) : Prop :=
  levels_ok (heap p)
  /\ (forall i j a b, i < j -> section_stack p !! i = Some a ->
        section_stack p !! j = Some b -> a < b)
  /\ (forall a, a ∈ section_stack p <-> visible (heap p) a)
  /\ (forall a c, c < length (heap p) ->
        (outline_parent (heap p) a c <-> edge (heap p) a c)).

(** During a parse that began when the heap had [n0] objects: the
    sections of the document are the objects made since that have no place
    below another. *)
Definition outline_ok (n0 : nat) (p : DocumentParser) : Prop :=
  is_Some (document p)
  /\ n0 <= length (heap p)
  /\ tree_ok p
  /\ (forall c, c ∈ sections_of p
        <-> n0 <= c < length (heap p)
            /\ forall a, ~ outline_parent (heap p) a c).

(** [a] is a section of the document or lies below one. *)
Inductive reach (h : heap_t) (roots : list addr) : addr -> Prop :=
  | reach_root a : a ∈ roots -> reach h roots a
  | reach_sub a c : reach h roots a -> edge h a c -> reach h roots c.

(** ** Vocabulary for section content *)

(** Lines as they are stored in a content: each with its line break. *)
Definition joined (cc : list str) : str :=
  concat ((fun l => l ++ [newline]) <$> cc).

(** The contents [l] with [t] added to the one at [cur], if any. *)
Definition add_at (cur : option addr) (t : str) (l : list str) : list str :=
  match cur with
  | Some a => alter (fun c => c ++ t) a l
  | None => l
  end.

(** The text of a file, heading by heading: the text that comes before
    the first heading that makes a section, and the text under each such
    heading.  Text is every line that is no heading, no table line and no
    blank line met inside a table; [in_table] tells whether a table is
    open, [seen] whether a level-1 heading has been met. *)
Fixpoint contents_from (seen in_table : bool) (lines : list str)
    : str * list str :=
  match lines with
  | [] => ([], [])
  | raw :: rest =>
      let line := rstrip raw in
      match re_match SECTION_HEADER_PATTERN line with
      | Some m =>
          if (length (default [] (group 1 m)) =? 1) && negb seen
          then contents_from true in_table rest
          else ([], fst (contents_from seen in_table rest)
                    :: snd (contents_from seen in_table rest))
      | None =>
          if is_table_line line then contents_from seen true rest
          else if in_table && is_blank line then contents_from seen false rest
          else (line ++ [newline] ++ fst (contents_from seen in_table rest),
                snd (contents_from seen in_table rest))
      end
  end.

(** ** Vocabulary for tables *)

(** The groups of table lines of a file: a group is closed by a blank
    line, or by the end of the file; [buf] holds the lines of the group
    that is open. *)
Fixpoint table_blocks (buf : list str) (lines : list str) : list (list str) :=
  match lines with
  | [] => if nonempty buf then [buf] else []
  | raw :: rest =>
      let line := rstrip raw in
      if is_table_line line then table_blocks (buf ++ [line]) rest
      else if nonempty buf && is_blank line then buf :: table_blocks [] rest
      else table_blocks buf rest
  end.

(** The table [t] has the headers and rows of the group [b]: the first
    line gives the headers and the lines from the third on the rows, when
    there are two lines or more. *)
Definition table_of_block (t : Table.t) (b : list str) : Prop :=
  Table.headers t = (if 2 <=? length b then cells (hd [] b) else [])
  /\ Table.rows t = cells <$> drop 2 b.

(** The caption of [t] is the default one, made of its number, or a
    whole caption line, stripped. *)
Definition caption_ok (t : Table.t) : Prop :=
  exists n,
    Table.id t = table_name n
    /\ (Table.caption t = py "Table " ++ str_of_nat n
        \/ exists line,
             matches TABLE_CAPTION_PATTERN line = true
             /\ Table.caption t = strip line).

(** ** Vocabulary for what a pattern goes over *)

(** [n] steps of [R] in a row. *)
Fixpoint power {A} (R : A -> A -> Prop) (n : nat) (x z : A) : Prop :=
  match n with
  | 0 => z = x
  | S n' => exists y, R x y /\ power R n' y z
  end.

(** [moves n0 r s s']: the pattern [r] can go from the text [s] to its
    end [s'], in a text of [n0] characters. *)
Fixpoint moves (n0 : nat) (r : regex) (s s' : str) {struct r} : Prop :=
  match r with
  | Eps => s' = s
  | Chr p => exists a, s = a :: s' /\ p a = true
  | Bol => s' = s /\ length s = n0
  | Eol => s' = s /\ (s = [] \/ exists a, s = [a] /\ is_newline a = true)
  | Seq r1 r2 => exists s1, moves n0 r1 s s1 /\ moves n0 r2 s1 s'
  | Alt r1 r2 => moves n0 r1 s s' \/ moves n0 r2 s s'
  | Rep r' lo _ => exists n, lo <= n /\ power (moves n0 r') n s s'
  | Grp _ r' => moves n0 r' s s'
  end.

(** A matcher answers only through its continuation, after going over
    the text as [R] says. *)
Definition goes_by (R : str -> str -> Prop) (m : matcher) : Prop :=
  forall s c k res, m s c k = Some res ->
    exists s' c', R s s' /\ k s' c' = Some res.

(** A section numbering: items of digits, each followed by a dot. *)
Definition numbering (items : list str) : str :=
  concat ((fun ds => ds ++ py ".") <$> items).

(** * Properties *)

(** ** What each operation leaves alone *)

Ltac unfold_parser :=
  unfold _process_section_header, flush_content, update_obj, alloc,
    with_document, set_document, set_current_section, set_section_stack,
    set_table_state, set_table_count, set_seen_document_title, set_heap in *.

Ltac parser_cases :=
  unfold_parser; repeat (case_match; simpl in * ); simplify_eq/=; try done.

Lemma flush_content_table_view cc p :
  table_view (flush_content cc p) = table_view p.
Proof. unfold table_view, tables_of. by parser_cases. Qed.

Lemma _process_section_header_table_view t l n p :
  table_view (_process_section_header t l n p) = table_view p.
Proof.
  unfold table_view, tables_of, _process_section_header.
  destruct (_ && _); [done|].
  destruct (l =? 1)%Z; [by destruct p as [[d|] ? ? ? ? ? ? ?]|].
  destruct (find_parent _ _ _ _) as [i|]; [|by destruct p as [[d|] ? ? ? ? ? ? ?]].
  by destruct (_ !! i).
Qed.

Lemma flush_content_document cc p :
  document (flush_content cc p) = document p.
Proof. by parser_cases. Qed.

Lemma flush_content_current_section cc p :
  current_section (flush_content cc p) = current_section p.
Proof. by parser_cases. Qed.

Lemma flush_content_seen cc p :
  seen_document_title (flush_content cc p) = seen_document_title p.
Proof. by parser_cases. Qed.

(** ** Equations of the matcher *)

Lemma exec_Seq n0 r1 r2 s c k :
  exec n0 (Seq r1 r2) s c k = exec n0 r1 s c (fun s' c' => exec n0 r2 s' c' k).
Proof. reflexivity. Qed.

Lemma exec_Alt n0 r1 r2 s c k :
  exec n0 (Alt r1 r2) s c k = or_else (exec n0 r1 s c k) (exec n0 r2 s c k).
Proof. reflexivity. Qed.

Lemma exec_Grp n0 i r s c k :
  exec n0 (Grp i r) s c k =
  exec n0 r s c (fun s' c' => k s' (set_cap i (take (length s - length s') s) c')).
Proof. reflexivity. Qed.

Lemma exec_Chr n0 p s c k :
  exec n0 (Chr p) s c k =
  match s with a :: s' => if p a then k s' c else None | [] => None end.
Proof. reflexivity. Qed.

Lemma exec_Bol n0 s c k :
  exec n0 Bol s c k = if length s =? n0 then k s c else None.
Proof. reflexivity. Qed.

Lemma exec_Eol n0 s c k :
  exec n0 Eol s c k =
  match s with
  | [] => k s c
  | [a] => if is_newline a then k s c else None
  | _ => None
  end.
Proof. reflexivity. Qed.

Lemma exec_Rep n0 r lo hi s c k :
  exec n0 (Rep r lo hi) s c k =
  rep_must (exec n0 r) lo
    (fun s1 c1 k1 =>
       rep_may (exec n0 r) (S (length s1)) ((fun h => h - lo) <$> hi) s1 c1 k1)
    s c k.
Proof. reflexivity. Qed.

Lemma rep_must_S body j after s c k :
  rep_must body (S j) after s c k =
  body s c (fun s' c' => rep_must body j after s' c' k).
Proof. reflexivity. Qed.

Lemma rep_must_0 body after s c k : rep_must body 0 after s c k = after s c k.
Proof. reflexivity. Qed.

Lemma exec_Chr_fail n0 p s c k :
  first_is p s = false -> exec n0 (Chr p) s c k = None.
Proof. rewrite exec_Chr. destruct s as [|a s]; simpl; [done|]. by intros ->. Qed.

#[global] Arguments exec : simpl never.
#[global] Arguments rep_must : simpl never.
#[global] Arguments rep_may : simpl never.

(** ** The first character of a matching line *)

Lemma re_match_anchored r s :
  re_match (Seq Bol r) s = exec (length s) r s no_caps (fun s' c => Some (s', c)).
Proof. unfold re_match. by rewrite exec_Seq, exec_Bol, Nat.eqb_refl. Qed.

Lemma header_first s :
  first_is (ch_eqb (ch "#")) s = false -> re_match SECTION_HEADER_PATTERN s = None.
Proof.
  intros H. unfold SECTION_HEADER_PATTERN.
  rewrite re_match_anchored, exec_Seq, exec_Grp, exec_Rep, rep_must_S.
  by apply exec_Chr_fail.
Qed.

Lemma table_row_first s :
  first_is (ch_eqb (ch "|")) s = false -> matches TABLE_ROW_PATTERN s = false.
Proof.
  intros H. unfold matches, TABLE_ROW_PATTERN.
  rewrite re_match_anchored, exec_Seq. unfold Lit.
  by rewrite exec_Chr_fail.
Qed.

Lemma table_separator_first s :
  first_is (ch_eqb (ch "|")) s = false -> matches TABLE_SEPARATOR_PATTERN s = false.
Proof.
  intros H. unfold matches, TABLE_SEPARATOR_PATTERN.
  rewrite re_match_anchored, exec_Seq. unfold Lit.
  by rewrite exec_Chr_fail.
Qed.

Lemma reference_first s :
  first_is (ch_eqb (ch "[")) s = false -> re_match REFERENCE_PATTERN s = None.
Proof.
  intros H. unfold REFERENCE_PATTERN.
  rewrite re_match_anchored, exec_Seq.
  by apply exec_Chr_fail.
Qed.

Lemma is_table_line_first s :
  first_is (ch_eqb (ch "|")) s = false -> is_table_line s = false.
Proof.
  intros H. unfold is_table_line.
  by rewrite table_row_first, table_separator_first.
Qed.

(** ** Greedy runs of one character class *)

Lemma or_else_assoc {A} (x y z : option A) :
  or_else (or_else x y) z = or_else x (or_else y z).
Proof. by destruct x. Qed.

Lemma or_else_Some {A} (x y : option A) r :
  or_else x y = Some r -> x = Some r \/ (x = None /\ y = Some r).
Proof. destruct x; simpl; [by left|by right]. Qed.

Lemma or_else_None {A} (x y : option A) : or_else x y = None <-> x = None /\ y = None.
Proof. destruct x; simpl; [by split; [|intros [? ?]]|by split; [|intros [? ?]]]. Qed.

Lemma rep_may_Chr n0 p fuel budget s c k :
  length s < fuel ->
  rep_may (exec n0 (Chr p)) fuel budget s c k
  = greedy p budget s (fun s' => k s' c).
Proof.
  revert budget s. induction fuel as [|fuel IH]; intros budget s Hf; [lia|].
  change (rep_may (exec n0 (Chr p)) (S fuel) budget s c k) with
    (if spent budget then k s c
     else or_else
            (exec n0 (Chr p) s c (fun s' c' =>
               if length s' <? length s
               then rep_may (exec n0 (Chr p)) fuel (pred <$> budget) s' c' k
               else k s' c'))
            (k s c)).
  rewrite exec_Chr. destruct s as [|a s]; simpl.
  - by destruct (spent budget).
  - destruct (p a); simpl; [|by destruct (spent budget)].
    destruct (spent budget); simpl; [done|].
    assert (Hlt : (length s <? S (length s)) = true) by (apply Nat.ltb_lt; lia).
    rewrite Hlt, IH by (simpl in Hf; lia). done.
Qed.

Lemma backoff_cons {R} (k : str -> option R) a s j :
  backoff k (a :: s) (S j) = or_else (backoff k s j) (k (a :: s)).
Proof.
  induction j as [|j IH]; [done|].
  change (backoff k (a :: s) (S (S j))) with
    (or_else (k (drop (S j) s)) (backoff k (a :: s) (S j))).
  rewrite IH, <- or_else_assoc. done.
Qed.

Lemma greedy_backoff {R} p budget s (k : str -> option R) :
  greedy p budget s k = backoff k s (run p budget s).
Proof.
  revert budget. induction s as [|a s IH]; intros budget; simpl; [done|].
  destruct (p a && negb (spent budget)); [|done].
  by rewrite backoff_cons, IH.
Qed.

Lemma backoff_Some {R} (k : str -> option R) s j r :
  backoff k s j = Some r ->
  exists i, i <= j /\ k (drop i s) = Some r
            /\ forall i', i < i' <= j -> k (drop i' s) = None.
Proof.
  induction j as [|j IH]; simpl.
  - intros H. exists 0. split; [lia|]. split; [done|]. intros; lia.
  - intros [H|[Hn H]]%or_else_Some.
    + exists (S j). split; [lia|]. split; [done|]. intros; lia.
    + destruct (IH H) as (i & Hi & Hk & Hnone). exists i.
      split; [lia|]. split; [done|]. intros i' Hi'.
      destruct (decide (i' = S j)) as [->|]; [done|]. apply Hnone. lia.
Qed.

Lemma backoff_None {R} (k : str -> option R) s j :
  backoff k s j = None -> forall i, i <= j -> k (drop i s) = None.
Proof.
  induction j as [|j IH]; simpl.
  - intros H i Hi. by replace i with 0 by lia.
  - intros [H1 H2]%or_else_None i Hi.
    destruct (decide (i = S j)) as [->|]; [done|]. apply IH; [done|lia].
Qed.

Lemma run_take p budget s : forallb p (take (run p budget s) s) = true.
Proof.
  revert budget. induction s as [|a s IH]; intros budget; simpl; [done|].
  destruct (p a) eqn:Ha; simpl; [|done].
  destruct (spent budget); simpl; [done|]. by rewrite Ha, IH.
Qed.

(** ** What any match goes through *)

Lemma sound_for_weaken G G' F F' m :
  G ⊆ G' -> (forall a, F a = true -> F' a = true) ->
  sound_for G F m -> sound_for G' F' m.
Proof.
  intros HG HF Hm s c k res H.
  destruct (Hm s c k res H) as (s' & c' & Hk & Hc & Hs).
  exists s', c'. split; [done|]. split.
  - intros i Hi. apply Hc. intros ?. apply Hi. by apply HG.
  - intros Hf. apply Hs. destruct s as [|a s]; simpl in *; [done|].
    destruct (F a) eqn:E; [|done]. by rewrite (HF a E) in Hf.
Qed.

Lemma sound_rep_must G F body after j :
  sound_for G F body -> sound_for G F after ->
  sound_for G F (rep_must body j after).
Proof.
  intros Hb Ha. induction j as [|j IH]; intros s c k res H; [by apply Ha|].
  rewrite rep_must_S in H.
  destruct (Hb _ _ _ _ H) as (s1 & c1 & H1 & Hc1 & Hs1).
  destruct (IH _ _ _ _ H1) as (s2 & c2 & H2 & Hc2 & Hs2).
  exists s2, c2. split; [done|]. split.
  - intros i Hi. by rewrite Hc2, Hc1.
  - intros Hf. specialize (Hs1 Hf). subst s1. by apply Hs2.
Qed.

Lemma sound_rep_may G F body fuel budget :
  sound_for G F body -> sound_for G F (rep_may body fuel budget).
Proof.
  intros Hb. revert budget. induction fuel as [|fuel IH]; intros budget s c k res H.
  { exists s, c. by repeat split. }
  change (rep_may body (S fuel) budget s c k) with
    (if spent budget then k s c
     else or_else
            (body s c (fun s' c' =>
               if length s' <? length s
               then rep_may body fuel (pred <$> budget) s' c' k
               else k s' c'))
            (k s c)) in H.
  destruct (spent budget); [by exists s, c|].
  apply or_else_Some in H as [H|[_ H]]; [|by exists s, c].
  destruct (Hb _ _ _ _ H) as (s1 & c1 & H1 & Hc1 & Hs1).
  destruct (length s1 <? length s).
  - destruct (IH _ _ _ _ _ H1) as (s2 & c2 & H2 & Hc2 & Hs2).
    exists s2, c2. split; [done|]. split.
    + intros i Hi. by rewrite Hc2, Hc1.
    + intros Hf. specialize (Hs1 Hf). subst s1. by apply Hs2.
  - by exists s1, c1.
Qed.

Lemma exec_sound n0 r : sound_for (groups r) (can_start r) (exec n0 r).
Proof.
  induction r as [|p| | |r1 IH1 r2 IH2|r1 IH1 r2 IH2|r IH lo hi|i r IH];
    intros s c k res H.
  - by exists s, c.
  - rewrite exec_Chr in H. destruct s as [|a s]; [done|].
    destruct (p a) eqn:Hp; [|done]. exists s, c. simpl. by rewrite Hp.
  - rewrite exec_Bol in H. destruct (_ =? _); [|done]. by exists s, c.
  - rewrite exec_Eol in H. destruct s as [|a [|b s]]; [by exists [], c| |done].
    destruct (is_newline a); [|done]. by exists [a], c.
  - rewrite exec_Seq in H.
    destruct (IH1 _ _ _ _ H) as (s1 & c1 & H1 & Hc1 & Hs1).
    destruct (IH2 _ _ _ _ H1) as (s2 & c2 & H2 & Hc2 & Hs2).
    exists s2, c2. split; [done|]. simpl. split.
    + intros i Hi. rewrite not_elem_of_app in Hi. destruct Hi. by rewrite Hc2, Hc1.
    + intros Hf.
      assert (first_is (can_start r1) s = false /\ first_is (can_start r2) s = false)
        as [Hf1 Hf2].
      { destruct s as [|a s]; simpl in *; [done|]. by apply orb_false_iff. }
      specialize (Hs1 Hf1). subst s1. by apply Hs2.
  - rewrite exec_Alt in H. simpl.
    apply or_else_Some in H as [H|[_ H]].
    + eapply (sound_for_weaken (groups r1) _ (can_start r1)); [| |exact IH1|exact H].
      * set_solver.
      * intros a ->. done.
    + eapply (sound_for_weaken (groups r2) _ (can_start r2)); [| |exact IH2|exact H].
      * set_solver.
      * intros a ->. by rewrite orb_true_r.
  - rewrite exec_Rep in H. simpl.
    eapply sound_rep_must; [exact IH| |exact H].
    intros s1 c1 k1 res1. apply sound_rep_may. exact IH.
  - rewrite exec_Grp in H.
    destruct (IH _ _ _ _ H) as (s1 & c1 & H1 & Hc1 & Hs1).
    eexists s1, _. split; [exact H1|]. simpl. split; [|done].
    intros j Hj. rewrite not_elem_of_cons in Hj. destruct Hj as [Hne Hj].
    unfold set_cap. apply Nat.eqb_neq in Hne. rewrite Hne. by apply Hc1.
Qed.

(** A repetition that may match nothing lets through whatever its
    continuation accepts on the spot. *)
Lemma rep_may_skip body fuel budget s c k :
  is_Some (k s c) -> is_Some (rep_may body fuel budget s c k).
Proof.
  intros Hk. destruct fuel as [|fuel]; [done|].
  change (rep_may body (S fuel) budget s c k) with
    (if spent budget then k s c
     else or_else
            (body s c (fun s' c' =>
               if length s' <? length s
               then rep_may body fuel (pred <$> budget) s' c' k
               else k s' c'))
            (k s c)).
  destruct (spent budget); [done|].
  destruct (body _ _ _); simpl; [by eexists|done].
Qed.

Lemma exec_Rep0_skip n0 r hi s c k :
  is_Some (k s c) -> is_Some (exec n0 (Rep r 0 hi) s c k).
Proof. intros Hk. rewrite exec_Rep, rep_must_0. by apply rep_may_skip. Qed.

(** ** Blank lines *)

Lemma drop_while_nil p s : drop_while p s = [] -> forallb p s = true.
Proof.
  induction s as [|a s IH]; simpl; [done|].
  destruct (p a); [done|discriminate].
Qed.

Lemma strip_by_nil p s : strip_by p s = [] -> forallb p s = true.
Proof.
  unfold strip_by, rstrip_by, lstrip_by. intros H.
  assert (Hd : drop_while p (rev (drop_while p s)) = []).
  { apply (f_equal (@rev ascii)) in H. by rewrite rev_involutive in H. }
  apply drop_while_nil in Hd.
  induction s as [|a s IH]; simpl in *; [done|].
  destruct (p a) eqn:Ha; [auto|].
  rewrite forallb_forall in Hd. specialize (Hd a).
  rewrite Ha in Hd. exfalso. apply Bool.diff_false_true, Hd.
  apply in_rev. rewrite rev_involutive. by left.
Qed.

Lemma is_blank_first line c :
  is_blank line = true -> is_space c = false -> first_is (ch_eqb c) line = false.
Proof.
  unfold is_blank, strip. intros Hb Hc.
  destruct (strip_by is_space line) eqn:Hs; [|done].
  apply strip_by_nil in Hs. destruct line as [|a line]; simpl in *; [done|].
  apply andb_true_iff in Hs as [Ha _].
  unfold ch_eqb. destruct (Ascii.eqb_spec c a) as [->|]; [congruence|done].
Qed.

Lemma is_blank_not_header line :
  is_blank line = true -> re_match SECTION_HEADER_PATTERN line = None.
Proof. intros H. apply header_first. by apply is_blank_first. Qed.

Lemma is_blank_not_table_line line :
  is_blank line = true -> is_table_line line = false.
Proof. intros H. apply is_table_line_first. by apply is_blank_first. Qed.

Lemma header_not_table_line line :
  is_Some (re_match SECTION_HEADER_PATTERN line) -> is_table_line line = false.
Proof.
  intros Hm. apply is_table_line_first.
  destruct line as [|a line]; simpl; [done|].
  destruct (ch_eqb (ch "|") a) eqn:Ha; [|done].
  apply Ascii.eqb_eq in Ha as <-.
  rewrite header_first in Hm; [by destruct Hm | done].
Qed.

(** ** One turn of the line loop, by the class of the line *)

Lemma step_header p cc raw m :
  re_match SECTION_HEADER_PATTERN (rstrip raw) = Some m ->
  step (p, cc) raw =
  (_process_section_header (default [] (group 3 m))
     (Z.of_nat (length (default [] (group 1 m)))) (group 2 m)
     (flush_content cc p), []).
Proof. unfold step. by intros ->. Qed.

Lemma step_table_line p cc raw :
  is_table_line (rstrip raw) = true ->
  step (p, cc) raw =
  if nonempty cc && negb (is_in_table p)
  then (set_table_state (table_buffer p ++ [rstrip raw]) true (flush_content cc p), [])
  else (set_table_state (table_buffer p ++ [rstrip raw]) true p, cc).
Proof.
  intros Ht. unfold step.
  destruct (re_match SECTION_HEADER_PATTERN _) eqn:Hm.
  - rewrite header_not_table_line in Ht; [done | by rewrite Hm].
  - rewrite Ht. destruct (nonempty cc && negb (is_in_table p)); [|done].
    f_equal. unfold set_table_state, flush_content, update_obj, set_heap.
    by repeat case_match.
Qed.

Lemma step_blank_in_table p cc raw :
  is_in_table p && is_blank (rstrip raw) = true ->
  step (p, cc) raw = (_process_table_buffer [] p, cc).
Proof.
  intros [Hi Hb]%andb_true_iff. unfold step.
  by rewrite is_blank_not_header, is_blank_not_table_line, Hi, Hb.
Qed.

Lemma step_text p cc raw :
  re_match SECTION_HEADER_PATTERN (rstrip raw) = None ->
  is_table_line (rstrip raw) = false ->
  is_in_table p && is_blank (rstrip raw) = false ->
  step (p, cc) raw =
  let p' :=
    match re_match REFERENCE_PATTERN (rstrip raw) with
    | Some m =>
        with_document
          (Doc.add_reference
             (Reference.mk (default [] (group 1 m)) (default [] (group 2 m)))) p
    | None => p
    end in
  (p', match current_section p' with
       | Some _ => cc ++ [rstrip raw]
       | None => cc
       end).
Proof. unfold step. by intros -> -> ->. Qed.

(** The four classes cover every line. *)
Lemma step_cases p raw :
  (exists m, re_match SECTION_HEADER_PATTERN (rstrip raw) = Some m)
  \/ is_table_line (rstrip raw) = true
  \/ is_in_table p && is_blank (rstrip raw) = true
  \/ (re_match SECTION_HEADER_PATTERN (rstrip raw) = None
      /\ is_table_line (rstrip raw) = false
      /\ is_in_table p && is_blank (rstrip raw) = false).
Proof.
  destruct (re_match SECTION_HEADER_PATTERN _) eqn:?; [eauto|].
  destruct (is_table_line _) eqn:?; [eauto|].
  destruct (is_in_table p && is_blank _) eqn:?; eauto 6.
Qed.

(** ** [_process_table_buffer] *)

Lemma _process_table_buffer_nil caption p :
  table_buffer p = [] ->
  _process_table_buffer caption p = set_table_state [] false p.
Proof. unfold _process_table_buffer. by intros ->. Qed.

(** A buffer that is not empty always gives one more table, whatever its
    length; only the header row and the data rows depend on the length. *)
Lemma _process_table_buffer_cons caption p d l buf :
  table_buffer p = l :: buf -> document p = Some d ->
  exists t,
    table_view (_process_table_buffer caption p)
      = ([], false, S (table_count p), Doc.tables d ++ [t])
    /\ Table.id t = table_name (S (table_count p))
    /\ (buf = [] -> Table.headers t = [] /\ Table.rows t = [])
    /\ heap (_process_table_buffer caption p) = heap p
    /\ current_section (_process_table_buffer caption p) = current_section p
    /\ section_stack (_process_table_buffer caption p) = section_stack p
    /\ seen_document_title (_process_table_buffer caption p) = seen_document_title p
    /\ (Doc.sections <$> document (_process_table_buffer caption p)) = Some (Doc.sections d)
    /\ (Doc.references <$> document (_process_table_buffer caption p)) = Some (Doc.references d)
    /\ (Doc.metadata <$> document (_process_table_buffer caption p)) = Some (Doc.metadata d)
    /\ (Doc.title <$> document (_process_table_buffer caption p)) = Some (Doc.title d).
Proof.
  intros Hb Hd. unfold _process_table_buffer. rewrite Hb.
  destruct p as [doc cs stack tb flag n seen h]. simpl in *. subst doc tb.
  eexists. unfold table_view, tables_of. simpl.
  split; [reflexivity|]. split; [reflexivity|]. split; [|done].
  intros ->. simpl. done.
Qed.

(** ** Table ids *)

Lemma py_inj s t : py s = py t -> s = t.
Proof.
  unfold py. intros H. apply (f_equal string_of_list_ascii) in H.
  by rewrite !string_of_list_ascii_of_string in H.
Qed.

Lemma str_of_nat_inj n m : str_of_nat n = str_of_nat m -> n = m.
Proof.
  unfold str_of_nat. intros H%py_inj.
  apply (f_equal NilEmpty.uint_of_string) in H.
  rewrite !NilEmpty.usu in H. injection H as H.
  apply (f_equal Nat.of_uint) in H. by rewrite !Unsigned.of_to in H.
Qed.

Lemma table_name_inj n m : table_name n = table_name m -> n = m.
Proof. unfold table_name. intros H%app_inv_head. by apply str_of_nat_inj. Qed.

#[global] Instance table_name_Inj : Inj (=) (=) table_name.
Proof. intros n m. apply table_name_inj. Qed.

Lemma numbered_from_process k caption p :
  numbered_from k p -> numbered_from k (_process_table_buffer caption p).
Proof.
  intros ([d Hd] & Hc & Hi).
  destruct (table_buffer p) as [|l buf] eqn:Hb.
  - rewrite _process_table_buffer_nil by done.
    by split; [exists d; destruct p; simpl in *|].
  - destruct (_process_table_buffer_cons caption p d l buf Hb Hd)
      as (t & Hv & Hid & _).
    unfold table_view in Hv. injection Hv as _ _ Hc' Ht'.
    unfold tables_of in Hc, Hi. rewrite Hd in Hc, Hi. simpl in Hc, Hi.
    split; [|split].
    + destruct (document (_process_table_buffer caption p)) eqn:E; [eauto|].
      unfold tables_of in Ht'. rewrite E in Ht'. by destruct (Doc.tables d).
    + rewrite Hc', Ht', length_app, Hc. simpl. lia.
    + rewrite Ht', fmap_app, length_app, Hi. simpl.
      rewrite seq_app, fmap_app. simpl. by rewrite Hid, Hc.
Qed.

Lemma numbered_from_table_view k p q :
  table_view q = table_view p -> is_Some (document q) ->
  numbered_from k p -> numbered_from k q.
Proof.
  unfold table_view, numbered_from. intros [= _ _ Hc Ht] Hq (_ & ? & ?).
  by rewrite Hc, Ht.
Qed.

Lemma numbered_from_same_document k p q :
  document q = document p -> table_count q = table_count p ->
  numbered_from k p -> numbered_from k q.
Proof. unfold numbered_from, tables_of. by intros -> ->. Qed.

Lemma _process_section_header_document t l n p :
  is_Some (document p) -> is_Some (document (_process_section_header t l n p)).
Proof.
  intros [d Hd]. unfold _process_section_header.
  destruct (_ && _); [by exists d|].
  destruct (l =? 1)%Z; [destruct p; simpl in *; subst; by eexists|].
  destruct (find_parent _ _ _ _) as [i|]; [|destruct p; simpl in *; subst; by eexists].
  destruct (_ !! i); destruct p; simpl in *; subst; by eexists.
Qed.

Lemma numbered_from_step k p cc raw :
  numbered_from k p -> numbered_from k (fst (step (p, cc) raw)).
Proof.
  intros Hn. destruct (step_cases p raw) as [[m Hm]|[Ht|[Hb|(Hm & Ht & Hb)]]].
  - rewrite (step_header _ _ _ _ Hm). simpl.
    eapply numbered_from_table_view; [| |exact Hn].
    + by rewrite _process_section_header_table_view, flush_content_table_view.
    + apply _process_section_header_document.
      rewrite flush_content_document. apply Hn.
  - rewrite (step_table_line _ _ _ Ht).
    destruct (nonempty cc && negb (is_in_table p)); simpl; [|done].
    eapply numbered_from_same_document; [| |exact Hn]; simpl.
    + apply flush_content_document.
    + by pose proof (flush_content_table_view cc p) as [= _ _ Hc' Ht'].
  - rewrite (step_blank_in_table _ _ _ Hb). by apply numbered_from_process.
  - rewrite (step_text _ _ _ Hm Ht Hb). simpl.
    destruct (re_match REFERENCE_PATTERN _); [|done].
    destruct Hn as ([d Hd] & Hc & Hi). unfold numbered_from, tables_of in *.
    destruct p; simpl in *; subst. simpl in *. eauto.
Qed.

Lemma numbered_from_foldl k lines p cc :
  numbered_from k p -> numbered_from k (fst (foldl step (p, cc) lines)).
Proof.
  revert p cc. induction lines as [|raw lines IH]; intros p cc Hn; simpl; [done|].
  destruct (step (p, cc) raw) as [p' cc'] eqn:Hs.
  apply IH. change p' with (fst (p', cc')). rewrite <- Hs.
  by apply numbered_from_step.
Qed.

Lemma numbered_from_parse_lines now stem lines title p :
  numbered_from (table_count p) (fst (parse_lines now stem lines title p)).
Proof.
  unfold parse_lines.
  set (p0 := set_document _ p).
  assert (H0 : numbered_from (table_count p) p0).
  { unfold numbered_from, tables_of. simpl. split; [by eexists|]. split; [lia|done]. }
  apply (numbered_from_foldl _ lines _ []) in H0.
  destruct (foldl step (p0, []) lines) as [p1 cc1]. simpl in *.
  unfold _finalize_parsing. simpl.
  assert (H1 : numbered_from (table_count p) (flush_content cc1 p1)).
  { eapply numbered_from_table_view; [apply flush_content_table_view| |done].
    rewrite flush_content_document. apply H0. }
  destruct (_ && _); [by apply numbered_from_process|done].
Qed.

(** ** Claims about table extraction *)

(** C1 (as the code has it).  [_process_table_buffer] discards nothing but
    the empty buffer: with no buffered line the table list is unchanged;
    with exactly one buffered line a Table is appended all the same, with
    the next id and with empty headers and rows; with two or more lines a
    Table is appended. *)
Theorem short_table_buffer caption p d :
  document p = Some d ->
  match table_buffer p with
  | [] => tables_of (_process_table_buffer caption p) = Doc.tables d
  | [_] =>
      exists c,
        tables_of (_process_table_buffer caption p)
        = Doc.tables d ++ [Table.mk (table_name (S (table_count p))) c [] []]
  | _ :: _ :: _ =>
      exists t, tables_of (_process_table_buffer caption p) = Doc.tables d ++ [t]
  end.
Proof.
  intros Hd. destruct (table_buffer p) as [|l buf] eqn:Hb.
  - rewrite _process_table_buffer_nil by done.
    unfold tables_of. simpl. by rewrite Hd.
  - destruct (_process_table_buffer_cons caption p d l buf Hb Hd)
      as (t & Hv & Hid & Hshort & _).
    injection Hv as _ _ _ Ht. destruct buf as [|l2 buf].
    + destruct (Hshort eq_refl) as [Hh Hr]. exists (Table.caption t).
      rewrite Ht. do 2 f_equal. destruct t; simpl in *. by subst.
    + by exists t.
Qed.

Lemma short_table_buffer_witness :
  tables_of
    (_process_table_buffer []
       (mkParser (Some (Doc.new (py "now") (py "Doc"))) None [] [] false 0 false []))
  = [].
Proof.
  exact (short_table_buffer []
           (mkParser (Some (Doc.new (py "now") (py "Doc"))) None [] [] false 0 false [])
           (Doc.new (py "now") (py "Doc")) eq_refl).
Defined.

(** C1 fails as stated: after the single line "|a|" the buffer holds one
    line; the blank line that follows makes a Table of it, and the parsed
    Document has that Table. *)
Lemma short_table_buffer_counterexample :
  length (table_buffer
            (fst (step (set_document (Doc.new (py "now") (py "Doc")) init, [])
                       (py "|a|")))) = 1
  /\ tables_of
       (_process_table_buffer []
          (fst (step (set_document (Doc.new (py "now") (py "Doc")) init, [])
                     (py "|a|"))))
     = [Table.mk (py "T1") (py "Table 1") [] []]
  /\ Document.tables <$> parsed (py "now") (py "Doc") [py "|a|"; py ""] None
     = Some [Table.mk (py "T1") (py "Table 1") [] []].
Proof. by vm_compute. Qed.

(** C2 (as the code has it).  Within the line loop the table buffer is
    turned into a Table by one event only, a blank line met while lines are
    buffered; any other line leaves the tables and the counter alone and
    keeps every buffered line.  A Header line in particular changes nothing
    of the table state: the buffer is not flushed.  At the end of input
    [_finalize_parsing] processes a buffer that is not empty, and
    processing such a buffer empties it and appends one Table. *)
Theorem table_buffer_termination p cc raw :
  (is_Some (re_match SECTION_HEADER_PATTERN (rstrip raw)) ->
   table_view (fst (step (p, cc) raw)) = table_view p)
  /\ (if is_in_table p && is_blank (rstrip raw)
      then fst (step (p, cc) raw) = _process_table_buffer [] p
      else tables_of (fst (step (p, cc) raw)) = tables_of p
           /\ table_count (fst (step (p, cc) raw)) = table_count p
           /\ table_buffer (fst (step (p, cc) raw))
              = table_buffer p ++ (if is_table_line (rstrip raw) then [rstrip raw] else []))
  /\ fst (_finalize_parsing p)
     = (if is_in_table p && nonempty (table_buffer p)
        then _process_table_buffer [] p else p)
  /\ (forall d, document p = Some d -> nonempty (table_buffer p) = true ->
      table_buffer (_process_table_buffer [] p) = []
      /\ is_in_table (_process_table_buffer [] p) = false
      /\ length (tables_of (_process_table_buffer [] p)) = S (length (Doc.tables d))).
Proof.
  split; [|split; [|split]].
  - intros [m Hm]. rewrite (step_header _ _ _ _ Hm). simpl.
    by rewrite _process_section_header_table_view, flush_content_table_view.
  - destruct (is_in_table p && is_blank (rstrip raw)) eqn:Hb.
    { by rewrite (step_blank_in_table _ _ _ Hb). }
    destruct (step_cases p raw) as [[m Hm]|[Ht|[Hb'|(Hm & Ht & _)]]].
    + rewrite (step_header _ _ _ _ Hm). simpl.
      pose proof (_process_section_header_table_view
                    (default [] (group 3 m))
                    (Z.of_nat (length (default [] (group 1 m)))) (group 2 m)
                    (flush_content cc p)) as Hv.
      rewrite flush_content_table_view in Hv. injection Hv as -> _ -> ->.
      rewrite header_not_table_line by (by rewrite Hm).
      by rewrite app_nil_r.
    + rewrite (step_table_line _ _ _ Ht), Ht.
      pose proof (flush_content_table_view cc p) as [= Hbuf _ Hc Htb].
      destruct (nonempty cc && negb (is_in_table p)); simpl; [|done].
      unfold tables_of in *. simpl. by rewrite flush_content_document, Hc.
    + congruence.
    + rewrite (step_text _ _ _ Hm Ht Hb), Ht, app_nil_r. simpl.
      destruct (re_match REFERENCE_PATTERN _); [|done].
      unfold tables_of. by destruct p as [[?|] ? ? ? ? ? ? ?].
  - done.
  - intros d Hd Hne. destruct (table_buffer p) as [|l buf] eqn:Hbuf; [done|].
    destruct (_process_table_buffer_cons [] p d l buf Hbuf Hd) as (t & Hv & _).
    injection Hv as -> -> _ ->. by rewrite length_app, Nat.add_1_r.
Qed.

Lemma table_buffer_termination_witness :
  table_view
    (fst (step (mkParser (Some (Doc.new (py "now") (py "Doc"))) None []
                  [py "|a|b|"] true 0 false [], []) (py "## T")))
  = ([py "|a|b|"], true, 0, []).
Proof.
  refine (proj1 (table_buffer_termination
                   (mkParser (Some (Doc.new (py "now") (py "Doc"))) None []
                      [py "|a|b|"] true 0 false []) [] (py "## T")) _).
  eexists. vm_compute. reflexivity.
Defined.

(** C2 fails as stated: after two table lines the buffer is not empty; the
    Header line "## T" that follows leaves it as it is and makes no Table,
    and the table lines after the header join the same buffer, so that the
    Document has one Table where the claim has two. *)
Lemma table_buffer_termination_counterexample :
  table_buffer
    (fst (foldl step (set_document (Doc.new (py "now") (py "Doc")) init, [])
                [py "|a|b|"; py "|-|-|"]))
  = [py "|a|b|"; py "|-|-|"]
  /\ matches SECTION_HEADER_PATTERN (py "## T") = true
  /\ table_view
       (fst (foldl step (set_document (Doc.new (py "now") (py "Doc")) init, [])
                   [py "|a|b|"; py "|-|-|"; py "## T"]))
     = ([py "|a|b|"; py "|-|-|"], true, 0, [])
  /\ Document.tables <$>
       parsed (py "now") (py "Doc")
         [py "|a|b|"; py "|-|-|"; py "## T"; py "|c|d|"; py "|-|-|"] None
     = Some [Table.mk (py "T1") (py "Table 1") [py "a"; py "b"]
               [[py "c"; py "d"]; [py "-"; py "-"]]].
Proof. by vm_compute. Qed.

(** ** Memory invariants are kept *)

Lemma level_at_app_l h o a : a < length h -> level_at (h ++ [o]) a = level_at h a.
Proof. intros. unfold level_at. by rewrite lookup_app_l. Qed.

Lemma level_at_new h o : level_at (h ++ [o]) (length h) = Obj.level o.
Proof. unfold level_at. by rewrite list_lookup_middle. Qed.

Lemma level_at_alter f a h c :
  (forall o, Obj.level (f o) = Obj.level o) ->
  level_at (alter f a h) c = level_at h c.
Proof.
  intros Hf. unfold level_at. destruct (decide (a = c)) as [->|Hne].
  - rewrite list_lookup_alter_eq. destruct (h !! c); simpl; [apply Hf|done].
  - by rewrite list_lookup_alter_ne.
Qed.

Lemma heap_ok_nil : heap_ok [].
Proof. intros a o c H. by rewrite lookup_nil in H. Qed.

Lemma heap_ok_alloc h o :
  heap_ok h -> Obj.subsections o = [] -> heap_ok (h ++ [o]).
Proof.
  intros Hh Ho a o' c Hl Hc. rewrite length_app. simpl.
  apply lookup_app_Some in Hl as [Hl|[_ Hl]].
  - destruct (Hh a o' c Hl Hc) as [Hlt Hlev].
    rewrite level_at_app_l by lia. split; [lia|done].
  - destruct (a - length h) eqn:E; simpl in Hl; [|done].
    injection Hl as <-. rewrite Ho in Hc. by apply elem_of_nil in Hc.
Qed.

Lemma heap_ok_add_content h a more :
  heap_ok h -> heap_ok (alter (Obj.add_content more) a h).
Proof.
  intros Hh b o c Hl Hc. rewrite length_alter, level_at_alter by done.
  destruct (decide (a = b)) as [->|Hne].
  - rewrite list_lookup_alter_eq in Hl.
    destruct (h !! b) as [o0|] eqn:Hb; simpl in Hl; [|done].
    injection Hl as <-. exact (Hh b o0 c Hb Hc).
  - rewrite list_lookup_alter_ne in Hl by done. exact (Hh b o c Hl Hc).
Qed.

Lemma heap_ok_add_subsection h parent child :
  heap_ok h -> parent < child < length h ->
  (level_at h parent < level_at h child)%Z ->
  heap_ok (alter (Obj.add_subsection child) parent h).
Proof.
  intros Hh Hlt Hlev b o c Hl Hc. rewrite length_alter, level_at_alter by done.
  destruct (decide (parent = b)) as [->|Hne].
  - rewrite list_lookup_alter_eq in Hl.
    destruct (h !! b) as [o0|] eqn:Hb; simpl in Hl; [|done].
    injection Hl as <-. simpl in Hc.
    apply elem_of_app in Hc as [Hc|Hc%list_elem_of_singleton].
    + exact (Hh b o0 c Hb Hc).
    + subst c. split; [done|]. unfold level_at in Hlev at 1. by rewrite Hb in Hlev.
  - rewrite list_lookup_alter_ne in Hl by done. exact (Hh b o c Hl Hc).
Qed.

Lemma find_parent_Some h stack level n i :
  find_parent h stack level n = Some i ->
  i < n /\ exists a, stack !! i = Some a /\ (level_at h a < level)%Z.
Proof.
  induction n as [|n IH]; simpl; [done|].
  destruct (stack !! n) as [a|] eqn:Ha.
  - destruct (level_at h a <? level)%Z eqn:Hlt.
    + intros [= <-]. split; [lia|]. exists a. split; [done|]. by apply Z.ltb_lt.
    + intros H. destruct (IH H) as [? ?]. split; [lia|done].
  - intros H. destruct (IH H) as [? ?]. split; [lia|done].
Qed.

Lemma Forall_lt_weaken (l : list addr) n m :
  n <= m -> Forall (fun a => a < n) l -> Forall (fun a => a < m) l.
Proof. intros Hle H. eapply Forall_impl; [exact H|]. intros a ?. simpl in *. lia. Qed.

Lemma flush_content_heap_length cc p :
  length (heap (flush_content cc p)) = length (heap p).
Proof.
  unfold flush_content, update_obj. repeat case_match; simpl; try done.
  by rewrite length_alter.
Qed.

Lemma flush_content_ok cc p : parser_ok p -> parser_ok (flush_content cc p).
Proof.
  intros Hok. pose proof Hok as (Hh & (Hs & Hc & Hd) & Hb).
  pose proof (flush_content_heap_length cc p) as Hlen.
  unfold flush_content, update_obj in *.
  destruct cc as [|l cc]; [exact Hok|].
  destruct (current_section p) as [a|] eqn:Ha; [|exact Hok].
  split; [|split].
  - simpl. by apply heap_ok_add_content.
  - unfold refs_ok, sections_of in *. simpl in *. rewrite Hlen, Ha.
    split; [done|]. split; [|done]. intros ? [= <-]. by apply Hc.
  - done.
Qed.

Lemma _process_table_buffer_ok caption p :
  parser_ok p -> parser_ok (_process_table_buffer caption p).
Proof.
  intros (Hh & (Hs & Hc & Hd) & Hb).
  unfold _process_table_buffer.
  destruct (table_buffer p) as [|l buf] eqn:Hbuf.
  - unfold parser_ok, refs_ok, buffer_flag_ok, sections_of in *.
    by simpl.
  - unfold parser_ok, refs_ok, buffer_flag_ok, sections_of in *.
    destruct p as [[d|] ? ? ? ? ? ? ?]; simpl in *; done.
Qed.

Lemma _process_section_header_ok t l n p :
  parser_ok p -> parser_ok (_process_section_header t l n p).
Proof.
  intros Hok. pose proof Hok as (Hh & (Hs & Hc & Hd) & Hb).
  unfold _process_section_header.
  destruct (_ && _); [exact Hok|].
  set (o := Obj.mk _ _ _ _ _).
  assert (Hh' : heap_ok (heap p ++ [o])) by (by apply heap_ok_alloc).
  assert (Hs' : Forall (fun a => a < length (heap p ++ [o])) (section_stack p)).
  { eapply Forall_lt_weaken; [|done]. rewrite length_app. lia. }
  assert (Hd' : Forall (fun a => a < length (heap p ++ [o])) (sections_of p)).
  { eapply Forall_lt_weaken; [|done]. rewrite length_app. lia. }
  assert (Hnew : length (heap p) < length (heap p ++ [o])).
  { rewrite length_app. simpl. lia. }
  assert (Htop : parser_ok
    (set_current_section (length (heap p))
       (set_section_stack [length (heap p)]
          (with_document (Doc.add_section (length (heap p))) (alloc o p))))).
  { split; [done|]. split; [|done].
    unfold refs_ok, sections_of in *. simpl.
    split; [by constructor|]. split; [by intros ? [= <-]|].
    destruct (document p); simpl in *; [|done].
    apply Forall_app. split; [done|by constructor]. }
  destruct (l =? 1)%Z; [done|].
  simpl.
  destruct (find_parent _ _ _ _) as [i|] eqn:Hf; [|done].
  apply find_parent_Some in Hf as (Hi & a & Ha & Hlev).
  rewrite Ha.
  assert (Halt : a < length (heap p)).
  { rewrite Forall_forall in Hs. apply Hs. by eapply list_elem_of_lookup_2. }
  split; [|split]; [| |done].
  - simpl. apply heap_ok_add_subsection; [done|lia|].
    rewrite level_at_new. by subst o.
  - unfold refs_ok, sections_of in *. simpl. rewrite length_alter.
    split; [|split]; [|by intros ? [= <-]|done].
    apply Forall_app. split; [|by constructor].
    eapply Forall_lt_weaken; [|eapply Forall_take, Hs]. rewrite length_app. lia.
Qed.

Lemma nonempty_snoc {A} (l : list A) x : nonempty (l ++ [x]) = true.
Proof. by destruct l. Qed.

Lemma step_ok p cc raw : parser_ok p -> parser_ok (fst (step (p, cc) raw)).
Proof.
  intros Hok. destruct (step_cases p raw) as [[m Hm]|[Ht|[Hb|(Hm & Ht & Hb)]]].
  - rewrite (step_header _ _ _ _ Hm). simpl.
    by apply _process_section_header_ok, flush_content_ok.
  - rewrite (step_table_line _ _ _ Ht).
    assert (Hset : forall q, parser_ok q ->
              parser_ok (set_table_state (table_buffer p ++ [rstrip raw]) true q)).
    { intros q (? & ? & ?). split; [done|]. split; [done|].
      unfold buffer_flag_ok. simpl. by rewrite nonempty_snoc. }
    destruct (nonempty cc && negb (is_in_table p)); simpl; apply Hset; [|done].
    by apply flush_content_ok.
  - rewrite (step_blank_in_table _ _ _ Hb). simpl. by apply _process_table_buffer_ok.
  - rewrite (step_text _ _ _ Hm Ht Hb). simpl.
    destruct (re_match REFERENCE_PATTERN _); [|done].
    destruct Hok as (? & (? & ? & ?) & ?).
    unfold parser_ok, refs_ok, buffer_flag_ok, sections_of in *.
    by destruct p as [[d|] ? ? ? ? ? ? ?].
Qed.

Lemma foldl_step_ok lines p cc :
  parser_ok p -> parser_ok (fst (foldl step (p, cc) lines)).
Proof.
  revert p cc. induction lines as [|raw lines IH]; intros p cc Hok; simpl; [done|].
  pose proof (step_ok p cc raw Hok) as Hs.
  destruct (step (p, cc) raw) as [p' cc']. by apply IH.
Qed.

Lemma parser_ok_init : parser_ok init.
Proof.
  split; [apply heap_ok_nil|]. split; [|done].
  unfold refs_ok, sections_of. simpl. by repeat split.
Qed.

Lemma set_document_ok d p :
  Doc.sections d = [] -> parser_ok p -> parser_ok (set_document d p).
Proof.
  intros Hd (? & (? & ? & ?) & ?). split; [done|]. split; [|done].
  unfold refs_ok, sections_of. simpl. rewrite Hd. by repeat split.
Qed.

Lemma _finalize_parsing_ok p : parser_ok p -> parser_ok (fst (_finalize_parsing p)).
Proof.
  intros Hok. unfold _finalize_parsing. simpl.
  destruct (_ && _); [by apply _process_table_buffer_ok|done].
Qed.

Lemma parse_lines_ok now stem lines title p :
  parser_ok p -> parser_ok (fst (parse_lines now stem lines title p)).
Proof.
  intros Hok. unfold parse_lines.
  pose proof (foldl_step_ok lines
                (set_document (Doc.new now (choose_title stem title)) p) []
                (set_document_ok (Doc.new now (choose_title stem title)) p
                   eq_refl Hok)) as H.
  destruct (foldl step _ lines) as [p1 cc1]. simpl in H.
  by apply _finalize_parsing_ok, flush_content_ok.
Qed.

Lemma parse_file_ok now stem file title p :
  parser_ok p -> parser_ok (fst (parse_file now stem file title p)).
Proof.
  intros Hok. destruct file as [lines|]; simpl; [|done].
  by apply parse_lines_ok.
Qed.

Lemma parse_file_raising_ok now stem pre title p :
  parser_ok p -> parser_ok (parse_file_raising now stem pre title p).
Proof.
  intros Hok. unfold parse_file_raising.
  apply foldl_step_ok. by apply set_document_ok.
Qed.

Lemma reachable_ok p : reachable p -> parser_ok p.
Proof.
  induction 1;
    [apply parser_ok_init|by apply parse_file_ok|by apply parse_file_raising_ok].
Qed.

(** ** Reading a Document from memory *)

Lemma snapshot_total h :
  heap_ok h ->
  forall n a, a < length h -> length h - a <= n -> is_Some (snapshot n h a).
Proof.
  intros Hh n. induction n as [|n IH]; intros a Ha Hn; [lia|].
  destruct (lookup_lt_is_Some_2 h a Ha) as [o Ho].
  simpl. rewrite Ho. simpl.
  assert (Hsub : is_Some (mapM (snapshot n h) (Obj.subsections o))).
  { apply mapM_is_Some, Forall_forall. intros c Hc.
    destruct (Hh a o c Ho Hc) as [[? ?] _]. apply IH; lia. }
  destruct Hsub as [subs ->]. by eexists.
Qed.

Lemma snapshot_root n h a t :
  snapshot n h a = Some t ->
  exists o, h !! a = Some o
    /\ Section.name t = Obj.name o /\ Section.raw_name t = Obj.raw_name o
    /\ Section.content t = Obj.content o /\ Section.level t = Obj.level o
    /\ Forall2 (fun c s => snapshot (pred n) h c = Some s)
         (Obj.subsections o) (Section.subsections t).
Proof.
  destruct n as [|n]; simpl; [done|].
  destruct (h !! a) as [o|]; simpl; [|done].
  destruct (mapM (snapshot n h) (Obj.subsections o)) as [subs|] eqn:Hs; simpl; [|done].
  intros [= <-]. exists o. simpl. repeat split; try done. by apply mapM_Some.
Qed.

(** The levels seen in a snapshot increase from a section to its
    subsections, throughout. *)
Lemma snapshot_levels h :
  heap_ok h ->
  forall n a t, snapshot n h a = Some t ->
  forall s c, in_tree s t -> c ∈ Section.subsections s ->
    (Section.level s < Section.level c)%Z.
Proof.
  intros Hh n. induction n as [|n IH]; intros a t Ht s c Hin Hc; [done|].
  destruct (snapshot_root _ _ _ _ Ht) as (o & Ho & _ & _ & _ & Hlev & Hsubs).
  simpl in Hsubs. destruct Hin as [|s0 c0 Hc0 Hin].
  - apply list_elem_of_lookup in Hc as [i Hi].
    destruct (Forall2_lookup_r _ _ _ _ _ Hsubs Hi) as (ca & Hca & Hsnap).
    destruct (snapshot_root _ _ _ _ Hsnap) as (oc & Hoc & _ & _ & _ & Hlevc & _).
    destruct (Hh a o ca Ho) as [_ Hlt]; [by eapply list_elem_of_lookup_2|].
    unfold level_at in Hlt. rewrite Hoc in Hlt. lia.
  - apply list_elem_of_lookup in Hc0 as [i Hi].
    destruct (Forall2_lookup_r _ _ _ _ _ Hsubs Hi) as (ca & Hca & Hsnap).
    by eapply IH.
Qed.

Lemma export_total p d :
  parser_ok p -> document p = Some d ->
  exists doc, export (heap p) d = Some doc
    /\ Document.title doc = Doc.title d
    /\ Document.tables doc = Doc.tables d
    /\ Document.references doc = Doc.references d
    /\ Document.metadata doc = Doc.metadata d
    /\ Forall2 (fun a s => snapshot (length (heap p)) (heap p) a = Some s)
         (Doc.sections d) (Document.sections doc).
Proof.
  intros (Hh & (_ & _ & Hd) & _) Hdoc. unfold export.
  unfold sections_of in Hd. rewrite Hdoc in Hd. simpl in Hd.
  assert (Hs : is_Some (mapM (snapshot (length (heap p)) (heap p)) (Doc.sections d))).
  { apply mapM_is_Some, Forall_forall. intros a Ha.
    rewrite Forall_forall in Hd. apply snapshot_total; [done|by apply Hd|lia]. }
  destruct Hs as [secs Hs]. rewrite Hs. simpl. eexists. split; [done|].
  simpl. repeat split; try done. by apply mapM_Some.
Qed.

(** ** The Document returned by a parse *)

Lemma parsed_by_spec p now stem lines title :
  parser_ok p ->
  exists d doc,
    let p' := fst (parse_lines now stem lines title p) in
    parse_file now stem (Some lines) title p = (p', Some d)
    /\ document p' = Some d
    /\ parser_ok p'
    /\ numbered_from (table_count p) p'
    /\ parsed_by p now stem lines title = Some doc
    /\ export (heap p') d = Some doc
    /\ Document.title doc = Doc.title d
    /\ Document.tables doc = Doc.tables d
    /\ Document.references doc = Doc.references d
    /\ Document.metadata doc = Doc.metadata d
    /\ Forall2 (fun a s => snapshot (length (heap p')) (heap p') a = Some s)
         (Doc.sections d) (Document.sections doc).
Proof.
  intros Hok.
  pose proof (parse_lines_ok now stem lines title p Hok) as Hok'.
  pose proof (numbered_from_parse_lines now stem lines title p) as Hn.
  destruct Hn as ([d Hd] & Hn).
  destruct (export_total _ d Hok' Hd) as (doc & He & Hrest).
  exists d, doc. simpl. unfold parsed_by, parse_file. rewrite Hd. simpl.
  do 3 (split; [done|]). split; [by split; [exists d|]|].
  do 2 (split; [done|]). exact Hrest.
Qed.

Lemma parsed_parsed_by now stem lines title :
  parsed now stem lines title = parsed_by init now stem lines title.
Proof. reflexivity. Qed.

(** C3.  In the Document returned by any call of [parse_file], on a new
    parser or on one used before, every section anywhere in the section
    tree has a level strictly below the level of each of its direct
    subsections. *)
Theorem levels_increase p now stem lines title :
  reachable p ->
  exists doc,
    parsed_by p now stem lines title = Some doc
    /\ forall root s c,
         root ∈ Document.sections doc -> in_tree s root ->
         c ∈ Section.subsections s ->
         (Section.level s < Section.level c)%Z.
Proof.
  intros Hr%reachable_ok.
  destruct (parsed_by_spec p now stem lines title Hr)
    as (d & doc & _ & _ & Hok & _ & Hp & _ & _ & _ & _ & _ & Hsecs).
  exists doc. split; [done|]. intros root s c Hroot Hin Hc.
  apply list_elem_of_lookup in Hroot as [i Hi].
  destruct (Forall2_lookup_r _ _ _ _ _ Hsecs Hi) as (a & _ & Hsnap).
  eapply snapshot_levels; [apply Hok|exact Hsnap|exact Hin|exact Hc].
Qed.

Lemma levels_increase_witness :
  exists doc,
    parsed_by init (py "now") (py "Doc") [py "## A"; py "### B"; py "## C"] None
    = Some doc
    /\ forall root s c,
         root ∈ Document.sections doc -> in_tree s root ->
         c ∈ Section.subsections s ->
         (Section.level s < Section.level c)%Z.
Proof.
  exact (levels_increase init (py "now") (py "Doc")
           [py "## A"; py "### B"; py "## C"] None reachable_init).
Defined.

Lemma parsed_by_table_ids p now stem lines title :
  parser_ok p ->
  exists doc,
    parsed_by p now stem lines title = Some doc
    /\ Table.id <$> Document.tables doc
       = table_name <$> seq (S (table_count p)) (length (Document.tables doc)).
Proof.
  intros Hok.
  destruct (parsed_by_spec p now stem lines title Hok)
    as (d & doc & _ & Hd & _ & (_ & _ & Hids) & Hp & _ & _ & Ht & _).
  exists doc. split; [done|].
  unfold tables_of in Hids. rewrite Hd in Hids. simpl in Hids.
  by rewrite Ht, Hids.
Qed.

(** C7 (as the code has it).  In the Document returned by a call of
    [parse_file] the ids of the tables are sequential and no id occurs
    twice, but they start after the table counter of the parser: on a
    parser whose counter stands at k, the number of tables it has made in
    its earlier calls, the ids are, in list order, T<k+1>, T<k+2>, ... up
    to the number of tables.  They are T1, T2, ... when the counter is 0,
    and so in every Document returned by [parse_document], which parses
    with a new parser. *)
Theorem table_ids_sequential p now stem lines title :
  reachable p ->
  (exists doc,
     parsed_by p now stem lines title = Some doc
     /\ Table.id <$> Document.tables doc
        = table_name <$> seq (S (table_count p)) (length (Document.tables doc))
     /\ NoDup (Table.id <$> Document.tables doc)
     /\ (table_count p = 0 ->
         Table.id <$> Document.tables doc
         = table_name <$> seq 1 (length (Document.tables doc))))
  /\ (exists doc,
        parsed now stem lines title = Some doc
        /\ Table.id <$> Document.tables doc
           = table_name <$> seq 1 (length (Document.tables doc))
        /\ NoDup (Table.id <$> Document.tables doc)).
Proof.
  intros Hr%reachable_ok. split.
  - destruct (parsed_by_table_ids p now stem lines title Hr) as (doc & Hp & Hids).
    exists doc. split; [done|]. split; [done|]. split.
    + rewrite Hids. apply NoDup_fmap; [apply _|]. apply NoDup_seq.
    + intros Hk. by rewrite Hids, Hk.
  - rewrite parsed_parsed_by.
    destruct (parsed_by_table_ids init now stem lines title parser_ok_init)
      as (doc & Hp & Hids).
    exists doc. split; [done|]. split; [done|].
    rewrite Hids. apply NoDup_fmap; [apply _|]. apply NoDup_seq.
Qed.

Lemma table_ids_sequential_witness :
  (exists doc,
     parsed_by
       (fst (parse_file (py "now") (py "One") (Some [py "|a|"; py ""]) None init))
       (py "now") (py "Two") [py "|b|"; py ""; py "|c|"] None = Some doc
     /\ Table.id <$> Document.tables doc
        = table_name <$>
            seq (S (table_count
                      (fst (parse_file (py "now") (py "One")
                              (Some [py "|a|"; py ""]) None init))))
                (length (Document.tables doc))
     /\ NoDup (Table.id <$> Document.tables doc)
     /\ (table_count
           (fst (parse_file (py "now") (py "One") (Some [py "|a|"; py ""]) None init))
         = 0 ->
         Table.id <$> Document.tables doc
         = table_name <$> seq 1 (length (Document.tables doc))))
  /\ (exists doc,
        parsed (py "now") (py "Two") [py "|b|"; py ""; py "|c|"] None = Some doc
        /\ Table.id <$> Document.tables doc
           = table_name <$> seq 1 (length (Document.tables doc))
        /\ NoDup (Table.id <$> Document.tables doc)).
Proof.
  exact (table_ids_sequential
           (fst (parse_file (py "now") (py "One") (Some [py "|a|"; py ""]) None init))
           (py "now") (py "Two") [py "|b|"; py ""; py "|c|"] None
           (reachable_parse_file (py "now") (py "One") (Some [py "|a|"; py ""]) None
              init reachable_init)).
Defined.

(** C7 fails as stated: a parser that has made one table in a first call
    gives the tables of its next Document the ids T2 and T3, where the
    claim has T1 and T2. *)
Lemma table_ids_counterexample :
  (fun doc => Table.id <$> Document.tables doc) <$>
    parsed_by
      (fst (parse_file (py "now") (py "One") (Some [py "|a|"; py ""]) None init))
      (py "now") (py "Two") [py "|b|"; py ""; py "|c|"] None
  = Some [py "T2"; py "T3"]
  /\ table_name <$> seq 1 2 = [py "T1"; py "T2"].
Proof. by vm_compute. Qed.

(** ** Dictionaries *)

Lemma ch_eqb_eq a b : ch_eqb a b = true <-> a = b.
Proof. apply Ascii.eqb_eq. Qed.

Lemma str_eqb_eq s t : str_eqb s t = true <-> s = t.
Proof.
  revert t. induction s as [|a s IH]; intros [|b t]; simpl; try done.
  rewrite andb_true_iff, ch_eqb_eq, IH. split; [by intros [-> ->]|by intros [= -> ->]].
Qed.

Lemma str_eqb_refl s : str_eqb s s = true.
Proof. by apply str_eqb_eq. Qed.

Lemma str_eqb_trans_false k k1 k2 :
  str_eqb k k1 = false -> str_eqb k1 k2 = true -> str_eqb k k2 = false.
Proof. intros H <-%str_eqb_eq. done. Qed.

Lemma dict_get_set_eq k v d : dict_get k (dict_set k v d) = Some v.
Proof.
  induction d as [|[k' v'] d IH]; simpl.
  - by rewrite str_eqb_refl.
  - destruct (str_eqb k k') eqn:E; simpl; by rewrite ?str_eqb_refl, ?E.
Qed.

Lemma dict_get_set_ne k k' v d :
  str_eqb k k' = false -> dict_get k (dict_set k' v d) = dict_get k d.
Proof.
  intros Hne. induction d as [|[k2 v2] d IH]; simpl.
  - by rewrite Hne.
  - destruct (str_eqb k' k2) eqn:E; simpl.
    + by rewrite Hne, (str_eqb_trans_false _ _ _ Hne E).
    + by rewrite IH.
Qed.

Lemma dict_get_del_ne k k' d :
  str_eqb k k' = false -> dict_get k (dict_del k' d) = dict_get k d.
Proof.
  intros Hne. induction d as [|[k2 v2] d IH]; simpl; [done|].
  destruct (str_eqb k' k2) eqn:E; simpl.
  - by rewrite (str_eqb_trans_false _ _ _ Hne E).
  - by rewrite IH.
Qed.

Lemma get_req_here {A} k (rd : value -> option A) v d :
  get_req k rd ((k, v) :: d) = rd v.
Proof. unfold get_req. simpl. by rewrite str_eqb_refl. Qed.

Lemma get_req_next {A} k k' (rd : value -> option A) v d :
  str_eqb k k' = false -> get_req k rd ((k', v) :: d) = get_req k rd d.
Proof. unfold get_req. simpl. by intros ->. Qed.

Lemma get_or_here {A} k (rd : value -> option A) x v d :
  get_or k rd x ((k, v) :: d) = rd v.
Proof. unfold get_or. simpl. by rewrite str_eqb_refl. Qed.

Lemma get_or_next {A} k k' (rd : value -> option A) x v d :
  str_eqb k k' = false -> get_or k rd x ((k', v) :: d) = get_or k rd x d.
Proof. unfold get_or. simpl. by intros ->. Qed.

Ltac read_field :=
  repeat (rewrite get_req_next by reflexivity);
  repeat (rewrite get_or_next by reflexivity);
  rewrite ?get_req_here, ?get_or_here; simpl.

(** ** Codecs of the leaves *)

Lemma as_str_list_of l : as_str_list (of_str_list l) = Some l.
Proof.
  unfold as_str_list, of_str_list. simpl.
  apply mapM_Some. induction l; simpl; by constructor.
Qed.

Lemma as_str_table_of l : as_str_table (of_str_table l) = Some l.
Proof.
  unfold as_str_table, of_str_table. simpl.
  apply mapM_Some. induction l; simpl; constructor; [apply as_str_list_of|done].
Qed.

Lemma mapM_fmap_id {A B} (f : B -> option A) (g : A -> B) (l : list A) :
  (forall x, x ∈ l -> f (g x) = Some x) -> mapM f (g <$> l) = Some l.
Proof.
  intros H. apply mapM_Some. induction l as [|x l IH]; simpl; constructor.
  - apply H. by left.
  - apply IH. intros y Hy. apply H. by right.
Qed.

Lemma Reference_round_trip r : Reference.from_dict (Reference.to_dict r) = Some r.
Proof.
  unfold Reference.from_dict, Reference.to_dict. simpl.
  do 2 (read_field). by destruct r.
Qed.

Lemma Table_round_trip t : Table.from_dict (Table.to_dict t) = Some t.
Proof.
  unfold Table.from_dict, Table.to_dict. simpl.
  do 2 read_field. read_field. rewrite as_str_list_of. simpl.
  read_field. rewrite as_str_table_of. simpl. by destruct t.
Qed.

(** ** Sections *)

Lemma foldr_max_elem {A} (f : A -> nat) (l : list A) x :
  x ∈ l -> f x <= foldr (fun y acc => max (f y) acc) 0 l.
Proof.
  induction l as [|y l IH]; simpl; [by intros ?%elem_of_nil|].
  intros [->|Hx]%elem_of_cons; [lia|]. specialize (IH Hx). lia.
Qed.

Lemma Section_height_sub s c :
  c ∈ Section.subsections s ->
  Section.height (Section.to_dict c) + 2 <= Section.height (Section.to_dict s).
Proof.
  intros Hc. destruct s as [n r ct l subs]. simpl in *.
  pose proof (foldr_max_elem (fun v => Section.height v)
                (Section.to_dict <$> subs) (Section.to_dict c)) as H.
  specialize (H ltac:(by apply list_elem_of_fmap_2)). simpl in H. lia.
Qed.

Lemma Section_from_dict_upto n :
  forall s, Section.height (Section.to_dict s) <= n ->
    Section.from_dict_upto n (Section.to_dict s) = Some s.
Proof.
  induction n as [|n IH]; intros s Hn.
  { destruct s; simpl in Hn. lia. }
  assert (Hsubs : mapM (Section.from_dict_upto n)
                    (Section.to_dict <$> Section.subsections s)
                  = Some (Section.subsections s)).
  { apply mapM_fmap_id. intros c Hc. apply IH.
    pose proof (Section_height_sub s c Hc). lia. }
  destruct s as [nm r ct l subs]. simpl in Hsubs.
  unfold Section.to_dict; fold Section.to_dict.
  unfold Section.from_dict_upto; fold Section.from_dict_upto. simpl.
  do 5 read_field. by rewrite Hsubs.
Qed.

Lemma Section_round_trip s : Section.from_dict (Section.to_dict s) = Some s.
Proof. by apply Section_from_dict_upto. Qed.

(** ** Documents *)

(** What [from_dict] makes of [to_dict]: the same document, with the
    metadata that went over the wire and came back ([tables] and
    [references] taken out again, [created_at] added when absent). *)
Lemma Document_from_dict_to_dict now doc :
  Document.from_dict now (Document.to_dict doc)
  = Some (Document.mk (Document.title doc) (Document.sections doc)
            (Document.tables doc) (Document.references doc)
            (Document.metadata
               (Document.new now (Document.title doc) (Document.sections doc)
                  (dict_del (py "references")
                     (dict_del (py "tables")
                        (dict_set (py "references")
                           (VList (Reference.to_dict <$> Document.references doc))
                           (dict_set (py "tables")
                              (VList (Table.to_dict <$> Document.tables doc))
                              (Document.metadata doc)))))))).
Proof.
  destruct doc as [ttl secs tbls refs meta].
  unfold Document.from_dict, Document.to_dict. simpl.
  rewrite dict_get_set_ne by reflexivity.
  rewrite dict_get_set_eq. simpl.
  rewrite dict_get_del_ne by reflexivity.
  rewrite dict_get_set_eq. simpl.
  read_field. read_field.
  rewrite (mapM_fmap_id Section.from_dict Section.to_dict)
    by (intros; apply Section_round_trip).
  simpl.
  rewrite (mapM_fmap_id Table.from_dict Table.to_dict)
    by (intros; apply Table_round_trip).
  simpl.
  rewrite (mapM_fmap_id Reference.from_dict Reference.to_dict)
    by (intros; apply Reference_round_trip).
  reflexivity.
Qed.

(** The same through text, for any [dumps] and [loads] that give back the
    dictionary of the document. *)
Lemma json_text_round_trip dumps loads now doc :
  loads (dumps (Document.to_dict doc)) = Some (Document.to_dict doc) ->
  Document.from_json loads now (Document.to_json dumps doc)
  = Document.from_dict now (Document.to_dict doc).
Proof.
  intros H. unfold Document.from_json, Document.to_json. by rewrite H.
Qed.

(** C4.  For every Document value, [from_dict] of its [to_dict] gives a
    Document with the same title, the same section tree (name, raw_name,
    content, level and subsections of every section), the same list of
    tables and the same list of references, although the two lists travel
    under the [metadata] key; and so does [from_json] of [to_json] with
    any text codec that gives the dictionary back. *)
Theorem document_round_trip now doc :
  (exists doc',
     Document.from_dict now (Document.to_dict doc) = Some doc'
     /\ Document.title doc' = Document.title doc
     /\ Document.sections doc' = Document.sections doc
     /\ Document.tables doc' = Document.tables doc
     /\ Document.references doc' = Document.references doc)
  /\ (forall dumps loads,
        loads (dumps (Document.to_dict doc)) = Some (Document.to_dict doc) ->
        exists doc',
          Document.from_json loads now (Document.to_json dumps doc) = Some doc'
          /\ Document.title doc' = Document.title doc
          /\ Document.sections doc' = Document.sections doc
          /\ Document.tables doc' = Document.tables doc
          /\ Document.references doc' = Document.references doc).
Proof.
  split.
  - eexists. split; [apply Document_from_dict_to_dict|]. by simpl.
  - intros dumps loads H. eexists. split.
    + rewrite (json_text_round_trip dumps loads now doc H).
      apply Document_from_dict_to_dict.
    + by simpl.
Qed.

Lemma document_round_trip_witness :
  exists doc',
    Document.from_json (fun _ => Some (Document.to_dict (Document.new (py "now") (py "Doc") [] [])))
      (py "later")
      (Document.to_json (fun _ => []) (Document.new (py "now") (py "Doc") [] []))
    = Some doc'
    /\ Document.title doc' = Document.title (Document.new (py "now") (py "Doc") [] [])
    /\ Document.sections doc' = Document.sections (Document.new (py "now") (py "Doc") [] [])
    /\ Document.tables doc' = Document.tables (Document.new (py "now") (py "Doc") [] [])
    /\ Document.references doc'
       = Document.references (Document.new (py "now") (py "Doc") [] []).
Proof.
  exact (proj2 (document_round_trip (py "later")
                  (Document.new (py "now") (py "Doc") [] []))
           (fun _ => [])
           (fun _ => Some (Document.to_dict (Document.new (py "now") (py "Doc") [] [])))
           eq_refl).
Defined.

(** ** The end of the header pattern *)

Lemma forallb_take {A} (p : A -> bool) (l : list A) i j :
  i <= j -> forallb p (take j l) = true -> forallb p (take i l) = true.
Proof.
  intros Hij H. rewrite forallb_forall in *. intros x Hx. apply H.
  apply list_elem_of_In. apply list_elem_of_In in Hx.
  apply list_elem_of_lookup in Hx as [n Hn].
  apply lookup_take_Some in Hn as [Hn ?].
  apply list_elem_of_lookup. exists n. apply lookup_take_Some. split; [done|lia].
Qed.

Lemma to_end_of_line_sound n0 i s c k res :
  exec n0 (to_end_of_line i) s c k = Some res -> one_line s.
Proof.
  unfold to_end_of_line, Plus.
  rewrite exec_Seq, exec_Grp, exec_Rep, rep_must_S, exec_Chr.
  destruct s as [|a s]; [done|]. destruct (any_char a) eqn:Ha; [|done].
  rewrite rep_must_0, rep_may_Chr by lia. rewrite greedy_backoff.
  intros (j & Hj & Hk & _)%backoff_Some.
  rewrite exec_Eol in Hk.
  exists (a :: take j s), (drop j s). rewrite <- app_comm_cons, take_drop.
  split; [done|]. split; [done|]. split.
  - simpl. rewrite Ha. simpl. eapply forallb_take; [exact Hj|apply run_take].
  - destruct (drop j s) as [|b [|b' t]]; [by left| |done].
    right. destruct (is_newline b) eqn:Hb; [|done].
    apply ch_eqb_eq in Hb. by subst.
Qed.

Lemma greedy_all {R} p s e (k : str -> option R) :
  forallb p s = true -> is_Some (k e) -> is_Some (greedy p None (s ++ e) k).
Proof.
  intros Hs Hk. induction s as [|a s IH]; simpl in *.
  - destruct e as [|b e]; simpl; [done|].
    destruct (p b); simpl; [|done].
    destruct (greedy _ _ _ _); simpl; [by eexists|done].
  - apply andb_true_iff in Hs as [-> Hs]. simpl.
    destruct (IH Hs) as [r ->]. by eexists.
Qed.

Lemma to_end_of_line_complete n0 i s c :
  one_line s -> is_Some (exec n0 (to_end_of_line i) s c answer).
Proof.
  intros (x & e & -> & Hx & Hall & He).
  unfold to_end_of_line, Plus.
  rewrite exec_Seq, exec_Grp, exec_Rep, rep_must_S, exec_Chr.
  destruct x as [|a x]; [done|]. simpl in Hall.
  apply andb_true_iff in Hall as [Ha Hall].
  rewrite <- app_comm_cons, Ha, rep_must_0, rep_may_Chr by lia.
  apply greedy_all; [done|]. rewrite exec_Eol.
  destruct He as [->| ->]; [done|]. by eexists.
Qed.

(** ** After the markers *)

Lemma header_numbering_cannot_start_hash :
  can_start header_numbering (ch "#") = false.
Proof. reflexivity. Qed.

Lemma after_markers_sound line s1 m :
  after_markers line s1 = Some m ->
  group 1 m = Some (take (length line - length s1) line)
  /\ (first_is (can_start header_numbering) s1 = false -> one_line s1).
Proof.
  unfold after_markers. rewrite exec_Seq. intros H.
  destruct (exec_sound _ _ _ _ _ _ H) as (s2 & c2 & H2 & Hc2 & Hs2).
  destruct (exec_sound _ _ _ _ _ _ H2) as (s3 & c3 & H3 & Hc3 & _).
  injection H3 as <-. split.
  - unfold group. simpl. rewrite Hc3, Hc2; [done| |].
    + vm_compute. intros Hin. repeat (apply elem_of_cons in Hin as [Hin|Hin]; [done|]).
      by apply elem_of_nil in Hin.
    + vm_compute. intros Hin. repeat (apply elem_of_cons in Hin as [Hin|Hin]; [done|]).
      by apply elem_of_nil in Hin.
  - intros Hf. specialize (Hs2 Hf). subst s2.
    by eapply to_end_of_line_sound.
Qed.

Lemma after_markers_complete line s1 :
  one_line s1 -> is_Some (after_markers line s1).
Proof.
  intros H. unfold after_markers, header_numbering.
  rewrite exec_Seq, exec_Seq. unfold Star at 1.
  apply exec_Rep0_skip. unfold Opt at 1. apply exec_Rep0_skip.
  by apply to_end_of_line_complete.
Qed.

Lemma after_markers_nil line : after_markers line [] = None.
Proof.
  destruct (after_markers line []) as [m|] eqn:H; [|done].
  apply after_markers_sound in H as [_ H].
  destruct (H eq_refl) as (x & e & Hxe & Hx & _).
  symmetry in Hxe. apply app_eq_nil in Hxe as [-> _]. done.
Qed.

(** ** The markers *)

Lemma run_leading c b s : run (ch_eqb c) (Some b) s = min b (leading c s).
Proof.
  revert b. induction s as [|a s IH]; intros b; simpl; [lia|].
  destruct (ch_eqb c a); simpl; [|lia].
  destruct b as [|b]; simpl; [done|]. by rewrite IH.
Qed.

Lemma leading_le c s : leading c s <= length s.
Proof. induction s as [|a s IH]; simpl; [lia|]. destruct (ch_eqb c a); simpl; lia. Qed.

Lemma leading_drop c s j :
  j < leading c s -> first_is (ch_eqb c) (drop j s) = true.
Proof.
  revert j. induction s as [|a s IH]; intros j; simpl; [lia|].
  destruct (ch_eqb c a) eqn:E; [|lia].
  destruct j as [|j]; simpl; [by rewrite E|]. intros. apply IH. lia.
Qed.

Lemma re_match_header a s :
  re_match SECTION_HEADER_PATTERN (a :: s)
  = if ch_eqb (ch "#") a
    then backoff (after_markers (a :: s)) s (min 5 (leading (ch "#") s))
    else None.
Proof.
  unfold SECTION_HEADER_PATTERN.
  rewrite re_match_anchored.
  rewrite exec_Seq, exec_Grp, exec_Rep, rep_must_S. unfold Lit. rewrite exec_Chr.
  destruct (ch_eqb (ch "#") a); [|done].
  rewrite rep_must_0, rep_may_Chr by lia.
  rewrite greedy_backoff. simpl. rewrite run_leading. reflexivity.
Qed.

(** ** Lines without white space at the end *)

Lemma drop_while_head p s a t : drop_while p s = a :: t -> p a = false.
Proof.
  induction s as [|b s IH]; simpl; [done|].
  destruct (p b) eqn:Hb; [done|]. by intros [= <- _].
Qed.

Lemma rstrip_rstripped raw : rstripped (rstrip raw).
Proof.
  intros l a H. unfold rstrip, rstrip_by in H.
  apply (f_equal (@rev ascii)) in H. rewrite rev_involutive, rev_app_distr in H.
  simpl in H. by apply drop_while_head in H.
Qed.

Lemma rstripped_drop s i : rstripped s -> rstripped (drop i s).
Proof.
  intros Hs l a H. apply (Hs (take i s ++ l) a).
  by rewrite <- app_assoc, <- H, take_drop.
Qed.

Lemma one_line_rstripped s :
  one_line s -> rstripped s -> forallb any_char s = true /\ s <> [].
Proof.
  intros (x & e & -> & Hx & Hall & [->| ->]) Hs.
  - rewrite app_nil_r. done.
  - specialize (Hs x newline eq_refl). done.
Qed.

Lemma clean_one_line s : s <> [] -> forallb any_char s = true -> one_line s.
Proof. intros Hs Hall. exists s, []. rewrite app_nil_r. by repeat split; [| |left]. Qed.

Lemma forallb_drop {A} (p : A -> bool) (l : list A) i :
  forallb p l = true -> forallb p (drop i l) = true.
Proof.
  rewrite !forallb_forall. intros H x Hx. apply H.
  apply list_elem_of_In. apply list_elem_of_In in Hx.
  apply list_elem_of_lookup in Hx as [n Hn]. rewrite lookup_drop in Hn.
  by eapply list_elem_of_lookup_2.
Qed.

Lemma first_is_cannot_start r c t :
  first_is (ch_eqb c) t = true -> can_start r c = false ->
  first_is (can_start r) t = false.
Proof.
  destruct t as [|b t]; simpl; [done|]. by intros ->%ch_eqb_eq.
Qed.

(** ** The level of a Header line *)

Lemma header_level_rstripped line l :
  rstripped line -> header_level line = Some l ->
  l = min 6 (if length line =? leading (ch "#") line
             then leading (ch "#") line - 1 else leading (ch "#") line)
  /\ 1 <= l <= 6.
Proof.
  intros Hr. unfold header_level.
  destruct line as [|a s]; [by rewrite header_first|].
  rewrite re_match_header.
  change (leading (ch "#") (a :: s))
    with (if ch_eqb (ch "#") a then S (leading (ch "#") s) else 0).
  destruct (ch_eqb (ch "#") a) eqn:Ea; [|done].
  pose proof (leading_le (ch "#") s) as Hq.
  pose proof (leading_drop (ch "#") s) as Hdrop.
  remember (leading (ch "#") s) as q eqn:Hqdef. clear Hqdef.
  destruct (backoff _ _ _) as [m|] eqn:Hb; [|done].
  intros Hl. simpl in Hl. injection Hl as <-.
  apply backoff_Some in Hb as (j & Hj & Hk & Hnone).
  destruct (after_markers_sound _ _ _ Hk) as [Hg Hone]. rewrite Hg. simpl default.
  assert (Hjs : j < length s).
  { destruct (decide (j < length s)) as [|Hge]; [done|].
    rewrite drop_ge in Hk by lia. by rewrite after_markers_nil in Hk. }
  assert (Hnext : S j <= min 5 q -> S j < length s -> False).
  { intros H1 H2.
    assert (Hone' : one_line (drop j s)).
    { apply Hone. eapply first_is_cannot_start; [|apply header_numbering_cannot_start_hash].
      apply Hdrop. lia. }
    apply one_line_rstripped in Hone' as [Hall _];
      [|apply (rstripped_drop (a :: s) (S j) Hr)].
    assert (Hsome : is_Some (after_markers (a :: s) (drop (S j) s))).
    { apply after_markers_complete, clean_one_line.
      - intros Hnil. apply (f_equal length) in Hnil.
        rewrite length_drop in Hnil. simpl in Hnil. lia.
      - replace (drop (S j) s) with (drop 1 (drop j s)) by (by rewrite drop_drop, Nat.add_1_r).
        by apply forallb_drop. }
    rewrite Hnone in Hsome by lia. by destruct Hsome. }
  rewrite length_take, length_drop.
  change (length (a :: s)) with (S (length s)).
  destruct (Nat.eqb_spec (S (length s)) (S q)); lia.
Qed.

Lemma header_level_complete line :
  rstripped line -> forallb any_char line = true ->
  1 <= leading (ch "#") line -> 2 <= length line ->
  is_Some (header_level line).
Proof.
  intros Hr Hall Hn Hlen. unfold header_level.
  destruct line as [|a s]; [simpl in Hlen; lia|].
  rewrite re_match_header.
  change (leading (ch "#") (a :: s))
    with (if ch_eqb (ch "#") a then S (leading (ch "#") s) else 0) in Hn.
  simpl in Hlen, Hall.
  destruct (ch_eqb (ch "#") a) eqn:Ea; [|lia].
  apply andb_true_iff in Hall as [_ Hall].
  pose proof (leading_le (ch "#") s) as Hq.
  remember (leading (ch "#") s) as q eqn:Hqdef. clear Hqdef.
  destruct (backoff _ _ _) as [m|] eqn:Hb; [by eexists|].
  assert (Hi : min (min 5 q) (length s - 1) <= min 5 q) by lia.
  pose proof (backoff_None _ _ _ Hb _ Hi) as Hnone.
  assert (Hsome : is_Some (after_markers (a :: s)
                             (drop (min (min 5 q) (length s - 1)) s))).
  { apply after_markers_complete, clean_one_line.
    - intros Hnil. apply (f_equal length) in Hnil.
      rewrite length_drop in Hnil. simpl in Hnil. lia.
    - by apply forallb_drop. }
  rewrite Hnone in Hsome. by destruct Hsome.
Qed.

(** C5 (as the code has it).  For a line classified as a Header the level
    lies between 1 and 6 and is never more than the number of leading
    marker characters; it is that number when the markers are at most six
    and other text follows them. *)
Theorem header_level_of_line raw l :
  header_level (rstrip raw) = Some l ->
  1 <= l <= 6
  /\ l <= leading (ch "#") (rstrip raw)
  /\ (leading (ch "#") (rstrip raw) <= 6 ->
      leading (ch "#") (rstrip raw) < length (rstrip raw) ->
      l = leading (ch "#") (rstrip raw)).
Proof.
  intros Hl.
  destruct (header_level_rstripped _ _ (rstrip_rstripped raw) Hl) as [Heq Hrange].
  pose proof (leading_le (ch "#") (rstrip raw)) as Hle.
  destruct (Nat.eqb_spec (length (rstrip raw)) (leading (ch "#") (rstrip raw)));
    repeat split; lia.
Qed.

Lemma header_level_of_line_witness :
  1 <= 2 <= 6
  /\ 2 <= leading (ch "#") (rstrip (py "## 2.1. Scope  "))
  /\ (leading (ch "#") (rstrip (py "## 2.1. Scope  ")) <= 6 ->
      leading (ch "#") (rstrip (py "## 2.1. Scope  "))
      < length (rstrip (py "## 2.1. Scope  ")) ->
      2 = leading (ch "#") (rstrip (py "## 2.1. Scope  "))).
Proof.
  apply (header_level_of_line (py "## 2.1. Scope  ") 2). by vm_compute.
Defined.

(** C5 fails as stated: a line of seven markers and a title is a Header, of
    level 6, and the line "##" is a Header of level 1 although it starts
    with two markers. *)
Lemma header_level_counterexample :
  leading (ch "#") (rstrip (py "####### x")) = 7
  /\ header_level (rstrip (py "####### x")) = Some 6
  /\ leading (ch "#") (rstrip (py "##")) = 2
  /\ header_level (rstrip (py "##")) = Some 1.
Proof. by vm_compute. Qed.

(** ** Groups that always take part in a match

    The loop of [parse_file] reads groups 1 and 3 of a header match and
    groups 1 and 2 of a citation match as text; they are never [None]. *)

Lemma to_end_of_line_group n0 i s c m :
  exec n0 (to_end_of_line i) s c answer = Some m -> is_Some (group i m).
Proof.
  unfold to_end_of_line. rewrite exec_Seq, exec_Grp. intros H.
  destruct (exec_sound _ _ _ _ _ _ H) as (s1 & c1 & H1 & _ & _).
  destruct (exec_sound _ _ _ _ _ _ H1) as (s2 & c2 & H2 & Hc2 & _).
  injection H2 as <-. unfold group. simpl. rewrite Hc2 by apply not_elem_of_nil.
  unfold set_cap. rewrite Nat.eqb_refl. by eexists.
Qed.

Lemma header_groups_present line m :
  re_match SECTION_HEADER_PATTERN line = Some m ->
  is_Some (group 1 m) /\ is_Some (group 3 m).
Proof.
  destruct line as [|a s]; [by rewrite header_first|].
  rewrite re_match_header. destruct (ch_eqb (ch "#") a); [|done].
  intros (j & _ & Hk & _)%backoff_Some. split.
  - destruct (after_markers_sound _ _ _ Hk) as [-> _]. by eexists.
  - unfold after_markers in Hk. rewrite exec_Seq in Hk.
    destruct (exec_sound _ _ _ _ _ _ Hk) as (s2 & c2 & H2 & _ & _).
    by eapply to_end_of_line_group.
Qed.

Lemma citation_groups_present line m :
  re_match REFERENCE_PATTERN line = Some m ->
  is_Some (group 1 m) /\ is_Some (group 2 m).
Proof.
  unfold REFERENCE_PATTERN. rewrite re_match_anchored.
  rewrite exec_Seq. intros H.
  destruct (exec_sound _ _ _ _ _ _ H) as (s1 & c1 & H1 & _ & _).
  rewrite exec_Seq, exec_Grp in H1.
  destruct (exec_sound _ _ _ _ _ _ H1) as (s2 & c2 & H2 & _ & _).
  rewrite exec_Seq in H2.
  destruct (exec_sound _ _ _ _ _ _ H2) as (s3 & c3 & H3 & Hc3 & _).
  rewrite exec_Seq in H3.
  destruct (exec_sound _ _ _ _ _ _ H3) as (s4 & c4 & H4 & Hc4 & _).
  change (exec (length line) (Seq (Grp 2 (Plus (Chr any_char))) Eol) s4 c4
            (fun s' c => Some (s', c)))
    with (exec (length line) (to_end_of_line 2) s4 c4 answer) in H4.
  split; [|by eapply to_end_of_line_group].
  pose proof H4 as H5. unfold to_end_of_line in H5.
  destruct (exec_sound _ _ _ _ _ _ H5) as (s6 & c6 & H6 & Hc6 & _).
  injection H6 as <-. unfold group. simpl.
  rewrite Hc6, Hc4, Hc3.
  - unfold set_cap. by eexists.
  - vm_compute. intros Hin. by apply elem_of_nil in Hin.
  - vm_compute. intros Hin. by apply elem_of_nil in Hin.
  - vm_compute. intros Hin.
    apply elem_of_cons in Hin as [Hin|Hin]; [done|]. by apply elem_of_nil in Hin.
Qed.

(** ** The coverage check *)

Lemma starts_with_spec p s : starts_with p s = true <-> exists post, s = p ++ post.
Proof.
  revert s. induction p as [|a p IH]; intros s; simpl.
  - split; [by exists s|done].
  - destruct s as [|b s].
    + split; [done|]. by intros [post H].
    + rewrite andb_true_iff, ch_eqb_eq, IH. split.
      * intros [-> [post ->]]. by exists post.
      * intros [post [= -> ->]]. split; [done|by exists post].
Qed.

Lemma contains_spec p s : contains p s = true <-> substring p s.
Proof.
  unfold substring. induction s as [|b s IH].
  - change (contains p []) with (starts_with p [] || false).
    rewrite orb_false_r, starts_with_spec. split.
    + intros [post H]. by exists [], post.
    + intros (pre & post & H). destruct pre; [by exists post|done].
  - change (contains p (b :: s)) with (starts_with p (b :: s) || contains p s).
    rewrite orb_true_iff, starts_with_spec, IH. split.
    + intros [[post H]|(pre & post & H)]; [by exists [], post|].
      exists (b :: pre), post. by rewrite H.
    + intros ([|a pre] & post & H); [left; by exists post|].
      right. injection H as _ H. by exists pre, post.
Qed.

Lemma covered_spec found e :
  covered found e = false <->
  forall n, n ∈ found -> ~ substring (lower e) (lower n).
Proof.
  unfold covered. rewrite <- not_true_iff_false, existsb_exists. split.
  - intros H n Hn Hsub. apply H. exists n.
    split; [by apply list_elem_of_In|by apply contains_spec].
  - intros H (n & Hn & Hc). apply (H n); [by apply list_elem_of_In|by apply contains_spec].
Qed.

Lemma names_at_snapshot n h l secs :
  Forall2 (fun a s => snapshot n h a = Some s) l secs ->
  names_at h l = Section.name <$> secs.
Proof.
  unfold names_at. induction 1 as [|a s l secs Hs _ IH]; simpl; [done|].
  destruct (snapshot_root _ _ _ _ Hs) as (o & -> & -> & _). simpl.
  f_equal. exact IH.
Qed.

Lemma found_sections_export h d doc :
  export h d = Some doc -> found_sections h d = checked_names doc.
Proof.
  unfold export, found_sections, checked_names.
  destruct (mapM _ _) as [secs|] eqn:Hs; simpl; [|done].
  intros [= <-]. simpl. apply mapM_Some in Hs.
  rewrite (names_at_snapshot _ _ _ _ Hs). f_equal.
  destruct Hs as [|a s l secs' Hsnap _]; [done|].
  destruct (snapshot_root _ _ _ _ Hsnap) as (o & -> & _ & _ & _ & _ & Hsubs).
  by rewrite (names_at_snapshot _ _ _ _ Hsubs).
Qed.

Lemma parse_lines_missing now stem lines title p :
  snd (parse_lines now stem lines title p)
  = _validate_document (fst (parse_lines now stem lines title p)).
Proof. unfold parse_lines. by destruct (foldl step _ lines). Qed.

(** C6 (as the code has it).  The check made at the end of every parse
    reports an expected name as missing exactly when it occurs, lower
    case in lower case, in none of the names it looks at; these are the
    names of the top-level sections and of the direct subsections of the
    first top-level section, not of all sections.  It only reports: the
    parse returns its Document whatever is missing. *)
Theorem coverage_check p now stem lines title :
  reachable p ->
  exists doc,
    parsed_by p now stem lines title = Some doc
    /\ forall e,
         e ∈ snd (parse_lines now stem lines title p) <->
         e ∈ expected_sections
         /\ forall n, n ∈ checked_names doc -> ~ substring (lower e) (lower n).
Proof.
  intros Hr%reachable_ok.
  destruct (parsed_by_spec p now stem lines title Hr)
    as (d & doc & _ & Hd & _ & _ & Hp & He & _).
  exists doc. split; [done|]. intros e.
  rewrite parse_lines_missing. unfold _validate_document. rewrite Hd.
  rewrite (found_sections_export _ _ _ He).
  rewrite list_elem_of_In, filter_In, <- list_elem_of_In, negb_true_iff, covered_spec.
  done.
Qed.

Lemma coverage_check_witness :
  exists doc,
    parsed_by init (py "now") (py "Doc") [py "## Lessons Learned"] None = Some doc
    /\ forall e,
         e ∈ snd (parse_lines (py "now") (py "Doc") [py "## Lessons Learned"] None init) <->
         e ∈ expected_sections
         /\ forall n, n ∈ checked_names doc -> ~ substring (lower e) (lower n).
Proof.
  exact (coverage_check init (py "now") (py "Doc") [py "## Lessons Learned"] None
           reachable_init).
Defined.

(** C6 fails as stated: with the headings "## A", "### B" and
    "#### Executive Summary" the document has a section named
    Executive Summary, at depth 3, and the check reports Executive Summary
    as missing, with the seven other names. *)
Lemma coverage_check_counterexample :
  all_names <$>
    parsed (py "now") (py "Doc")
      [py "## A"; py "### B"; py "#### Executive Summary"] None
  = Some [py "A"; py "B"; py "Executive Summary"]
  /\ contains (lower (py "Executive Summary")) (lower (py "Executive Summary")) = true
  /\ snd (parse_lines (py "now") (py "Doc")
            [py "## A"; py "### B"; py "#### Executive Summary"] None init)
     = expected_sections.
Proof. by vm_compute. Qed.

(** ** The clock reaches the metadata only *)

Lemma with_metadata_flush m cc p :
  flush_content cc (with_metadata m p) = with_metadata m (flush_content cc p).
Proof.
  unfold flush_content, with_metadata, with_document, update_obj, set_heap.
  destruct p as [doc cs ss tb flag n seen h]. simpl.
  destruct cc; [reflexivity|]. destruct cs; reflexivity.
Qed.

Lemma with_metadata_header m t l n p :
  _process_section_header t l n (with_metadata m p)
  = with_metadata m (_process_section_header t l n p).
Proof.
  unfold _process_section_header, with_metadata. simpl.
  destruct (_ && _); [done|].
  destruct (l =? 1)%Z; [by destruct p as [[d|] ? ? ? ? ? ? ?]|].
  destruct (find_parent _ _ _ _) as [i|]; [|by destruct p as [[d|] ? ? ? ? ? ? ?]].
  destruct (_ !! i); by destruct p as [[d|] ? ? ? ? ? ? ?].
Qed.

Lemma with_metadata_table_buffer m caption p :
  _process_table_buffer caption (with_metadata m p)
  = with_metadata m (_process_table_buffer caption p).
Proof.
  unfold _process_table_buffer, with_metadata. simpl.
  destruct (table_buffer p); [done|]. by destruct p as [[d|] ? ? ? ? ? ? ?].
Qed.

Lemma with_metadata_step m p cc raw :
  step (with_metadata m p, cc) raw
  = (with_metadata m (fst (step (p, cc) raw)), snd (step (p, cc) raw)).
Proof.
  unfold step. destruct (re_match SECTION_HEADER_PATTERN _) as [hm|].
  { simpl. by rewrite with_metadata_flush, with_metadata_header. }
  destruct (is_table_line _).
  { change (is_in_table (with_metadata m p)) with (is_in_table p).
    destruct (nonempty cc && negb (is_in_table p)); simpl; [|done].
    by rewrite with_metadata_flush. }
  change (is_in_table (with_metadata m p)) with (is_in_table p).
  destruct (is_in_table p && is_blank _).
  { simpl. by rewrite with_metadata_table_buffer. }
  destruct (re_match REFERENCE_PATTERN _); simpl; [|done].
  by destruct p as [[d|] ? ? ? ? ? ? ?].
Qed.

Lemma with_metadata_foldl m lines p cc :
  foldl step (with_metadata m p, cc) lines
  = (with_metadata m (fst (foldl step (p, cc) lines)),
     snd (foldl step (p, cc) lines)).
Proof.
  revert p cc. induction lines as [|raw lines IH]; intros p cc; simpl; [done|].
  rewrite with_metadata_step. destruct (step (p, cc) raw) as [p' cc']. apply IH.
Qed.

Lemma with_metadata_finalize m p :
  fst (_finalize_parsing (with_metadata m p))
  = with_metadata m (fst (_finalize_parsing p)).
Proof.
  unfold _finalize_parsing. simpl.
  destruct (_ && _); [apply with_metadata_table_buffer|done].
Qed.

Lemma with_metadata_parse_lines m now stem lines title p :
  with_metadata m (fst (parse_lines now stem lines title p))
  = fst (_finalize_parsing
           (flush_content
              (snd (foldl step
                      (set_document (Doc.mk (choose_title stem title) [] [] [] m) p, [])
                      lines))
              (fst (foldl step
                      (set_document (Doc.mk (choose_title stem title) [] [] [] m) p, [])
                      lines)))).
Proof.
  unfold parse_lines.
  change (set_document (Doc.mk (choose_title stem title) [] [] [] m) p)
    with (with_metadata m (set_document (Doc.new now (choose_title stem title)) p)).
  rewrite with_metadata_foldl.
  destruct (foldl step _ lines) as [p1 cc1]. simpl.
  rewrite with_metadata_flush.
  pose proof (with_metadata_finalize m (flush_content cc1 p1)) as H.
  unfold _finalize_parsing in H. simpl in H. simpl. symmetry. exact H.
Qed.


(** The metadata of the returned document is the one it was created
    with. *)
Lemma parse_lines_metadata now stem lines title p :
  Doc.metadata <$> document (fst (parse_lines now stem lines title p))
  = Some [(py "created_at", VStr now)].
Proof.
  pose proof (with_metadata_parse_lines [(py "created_at", VStr now)]
                now stem lines title p) as H.
  change (set_document (Doc.mk (choose_title stem title) [] [] []
                          [(py "created_at", VStr now)]) p)
    with (set_document (Doc.new now (choose_title stem title)) p) in H.
  assert (H' : with_metadata [(py "created_at", VStr now)]
                 (fst (parse_lines now stem lines title p))
               = fst (parse_lines now stem lines title p)).
  { rewrite H. unfold parse_lines. by destruct (foldl step _ lines). }
  destruct (numbered_from_parse_lines now stem lines title p) as ([d Hd] & _).
  rewrite Hd in *. simpl. f_equal.
  apply (f_equal document) in H'. rewrite Hd in H'.
  unfold with_metadata, with_document in H'. simpl in H'. rewrite Hd in H'.
  simpl in H'. injection H' as H'. by rewrite <- H'.
Qed.




(** ** What a parse only adds to *)

Lemma obj_grows_refl o : obj_grows o o.
Proof. by repeat split. Qed.

Lemma obj_grows_trans o1 o2 o3 : obj_grows o1 o2 -> obj_grows o2 o3 -> obj_grows o1 o3.
Proof.
  intros (? & ? & ? & ? & ?) (? & ? & ? & ? & ?).
  repeat split; try congruence; by etrans.
Qed.

Lemma heap_grows_refl h : heap_grows h h.
Proof. intros a o H. exists o. split; [done|apply obj_grows_refl]. Qed.

Lemma heap_grows_trans h1 h2 h3 :
  heap_grows h1 h2 -> heap_grows h2 h3 -> heap_grows h1 h3.
Proof.
  intros H12 H23 a o H. destruct (H12 a o H) as (o2 & H2 & Hg2).
  destruct (H23 a o2 H2) as (o3 & H3 & Hg3). exists o3.
  split; [done|]. by eapply obj_grows_trans.
Qed.

Lemma heap_grows_alloc h o : heap_grows h (h ++ [o]).
Proof.
  intros a o' H. exists o'. split; [|apply obj_grows_refl].
  by apply lookup_app_l_Some.
Qed.

Lemma heap_grows_alter f a h :
  (forall o, obj_grows o (f o)) -> heap_grows h (alter f a h).
Proof.
  intros Hf b o H. destruct (decide (a = b)) as [->|Hne].
  - exists (f o). rewrite list_lookup_alter_eq, H. done.
  - exists o. rewrite list_lookup_alter_ne by done. split; [done|apply obj_grows_refl].
Qed.

Lemma obj_grows_add_content more o : obj_grows o (Obj.add_content more o).
Proof. repeat split; simpl; try done. by apply prefix_app_r. Qed.

Lemma obj_grows_add_subsection c o : obj_grows o (Obj.add_subsection c o).
Proof. repeat split; simpl; try done. by apply prefix_app_r. Qed.

Lemma grows_refl p : grows p p.
Proof. repeat split; try done. apply heap_grows_refl. Qed.

Lemma grows_trans p1 p2 p3 : grows p1 p2 -> grows p2 p3 -> grows p1 p3.
Proof.
  intros (? & ? & ? & ? & ?) (? & ? & ? & ? & ?).
  split; [auto|]. split; [by etrans|]. split; [by etrans|].
  split; [by eapply heap_grows_trans|auto].
Qed.

Lemma grows_flush_content cc p : grows p (flush_content cc p).
Proof.
  unfold flush_content. destruct cc as [|l cc]; [apply grows_refl|].
  destruct (current_section p) as [a|]; [|apply grows_refl].
  unfold grows, sections_of, references_of. simpl.
  repeat split; try done.
  apply heap_grows_alter, obj_grows_add_content.
Qed.

Lemma grows_set_table_state buf flag p : grows p (set_table_state buf flag p).
Proof.
  unfold grows, sections_of, references_of. simpl.
  repeat split; try done. apply heap_grows_refl.
Qed.

Lemma grows_process_table_buffer caption p :
  grows p (_process_table_buffer caption p).
Proof.
  unfold _process_table_buffer.
  destruct (table_buffer p); [apply grows_set_table_state|].
  unfold grows, sections_of, references_of.
  destruct p as [[d|] ? ? ? ? ? ? ?]; simpl;
    repeat split; try done; try apply heap_grows_refl; try (by eexists).
Qed.

Lemma grows_process_section_header t l n p :
  grows p (_process_section_header t l n p).
Proof.
  unfold _process_section_header.
  destruct (_ && _).
  { unfold grows, sections_of, references_of. simpl.
    repeat split; try done. apply heap_grows_refl. }
  set (o := Obj.mk _ _ _ _ _).
  assert (Htop : grows p
    (set_current_section (length (heap p))
       (set_section_stack [length (heap p)]
          (with_document (Doc.add_section (length (heap p))) (alloc o p))))).
  { unfold grows, sections_of, references_of.
    destruct p as [[d|] ? ? ? ? ? ? ?]; simpl;
      repeat split; try done; try apply heap_grows_alloc;
      try (by eexists); try (by apply prefix_app_r); try (by intros [? ?]). }
  destruct (l =? 1)%Z; [done|]. simpl.
  destruct (find_parent _ _ _ _) as [i|]; [|done].
  destruct (_ !! i) as [parent|].
  - unfold grows, sections_of, references_of. simpl.
    repeat split; try done.
    eapply heap_grows_trans; [apply heap_grows_alloc|].
    apply heap_grows_alter, obj_grows_add_subsection.
  - unfold grows, sections_of, references_of. simpl.
    repeat split; try done. apply heap_grows_alloc.
Qed.

Lemma grows_add_reference r p :
  grows p (with_document (Doc.add_reference r) p).
Proof.
  unfold grows, sections_of, references_of.
  destruct p as [[d|] ? ? ? ? ? ? ?]; simpl;
    repeat split; try done; try apply heap_grows_refl;
    try (by eexists); try (by apply prefix_app_r).
Qed.

Lemma grows_step p cc raw : grows p (fst (step (p, cc) raw)).
Proof.
  destruct (step_cases p raw) as [[m Hm]|[Ht|[Hb|(Hm & Ht & Hb)]]].
  - rewrite (step_header _ _ _ _ Hm). simpl.
    eapply grows_trans; [apply grows_flush_content|apply grows_process_section_header].
  - rewrite (step_table_line _ _ _ Ht).
    destruct (nonempty cc && negb (is_in_table p)); simpl.
    + eapply grows_trans; [apply grows_flush_content|apply grows_set_table_state].
    + apply grows_set_table_state.
  - rewrite (step_blank_in_table _ _ _ Hb). apply grows_process_table_buffer.
  - rewrite (step_text _ _ _ Hm Ht Hb). simpl.
    destruct (re_match REFERENCE_PATTERN _); [apply grows_add_reference|apply grows_refl].
Qed.

Lemma grows_foldl lines p cc : grows p (fst (foldl step (p, cc) lines)).
Proof.
  revert p cc. induction lines as [|raw lines IH]; intros p cc; simpl;
    [apply grows_refl|].
  pose proof (grows_step p cc raw) as Hs.
  destruct (step (p, cc) raw) as [p' cc']. eapply grows_trans; [exact Hs|apply IH].
Qed.

Lemma grows_finalize p : grows p (fst (_finalize_parsing p)).
Proof.
  unfold _finalize_parsing. simpl.
  destruct (_ && _); [apply grows_process_table_buffer|apply grows_refl].
Qed.

(** From any point of the line loop to the end of [parse_lines]. *)
Lemma grows_to_the_end lines p cc :
  grows p
    (fst (_finalize_parsing
            (flush_content (snd (foldl step (p, cc) lines))
               (fst (foldl step (p, cc) lines))))).
Proof.
  eapply grows_trans; [apply grows_foldl|].
  eapply grows_trans; [apply grows_flush_content|apply grows_finalize].
Qed.

Lemma parse_lines_split now stem pre rest title p :
  fst (parse_lines now stem (pre ++ rest) title p)
  = fst (_finalize_parsing
           (flush_content
              (snd (foldl step
                      (foldl step
                         (set_document (Doc.new now (choose_title stem title)) p, [])
                         pre) rest))
              (fst (foldl step
                      (foldl step
                         (set_document (Doc.new now (choose_title stem title)) p, [])
                         pre) rest)))).
Proof.
  unfold parse_lines. rewrite foldl_app.
  by destruct (foldl step (foldl step _ pre) rest).
Qed.

(** ** Citation lines *)

Lemma reference_line_class line :
  is_Some (re_match REFERENCE_PATTERN line) ->
  re_match SECTION_HEADER_PATTERN line = None
  /\ is_table_line line = false
  /\ is_blank line = false.
Proof.
  intros Hm.
  assert (Hf : first_is (ch_eqb (ch "[")) line = true).
  { destruct (first_is _ line) eqn:E; [done|].
    rewrite reference_first in Hm by done. by destruct Hm. }
  destruct line as [|a line]; [done|]. unfold first_is in Hf.
  apply ch_eqb_eq in Hf as <-. split; [|split].
  - by apply header_first.
  - by apply is_table_line_first.
  - destruct (is_blank _) eqn:Hb; [|done].
    by apply (is_blank_first _ (ch "[")) in Hb.
Qed.

Lemma has_line_prefix l c c' : has_line l c -> c `prefix_of` c' -> has_line l c'.
Proof.
  intros (pre & post & ->) [more ->]. exists pre, (post ++ more).
  by rewrite <- !app_assoc.
Qed.

Lemma stored_grows a l p p' : grows p p' -> stored a l p -> stored a l p'.
Proof.
  intros (_ & _ & _ & Hh & _) (o & Ho & Hl).
  destruct (Hh a o Ho) as (o' & Ho' & _ & _ & _ & Hc & _).
  exists o'. split; [done|]. by eapply has_line_prefix.
Qed.

Lemma join_has_line l cc : l ∈ cc -> has_line l (join [newline] cc ++ [newline]).
Proof.
  induction cc as [|x cc IH]; [by intros ?%elem_of_nil|].
  intros [->|Hl]%elem_of_cons.
  - destruct cc as [|y cc].
    + by exists [], [].
    + exists [], (join [newline] (y :: cc) ++ [newline]).
      change (join [newline] (x :: y :: cc))
        with (x ++ [newline] ++ join [newline] (y :: cc)).
      by rewrite <- !app_assoc.
  - destruct cc as [|y cc]; [by apply elem_of_nil in Hl|].
    destruct (IH Hl) as (pre & post & Hj).
    exists (x ++ [newline] ++ pre), post.
    change (join [newline] (x :: y :: cc))
      with (x ++ [newline] ++ join [newline] (y :: cc)).
    rewrite <- !app_assoc. do 2 f_equal. exact Hj.
Qed.

Lemma pending_flush a l cc p :
  parser_ok p -> pending a l (p, cc) -> stored a l (flush_content cc p).
Proof.
  intros (_ & (_ & Hc & _) & _) [Ha Hl]. simpl in *.
  unfold flush_content. rewrite Ha.
  destruct cc as [|x cc]; [by apply elem_of_nil in Hl|].
  destruct (lookup_lt_is_Some_2 (heap p) a (Hc a Ha)) as [o Ho].
  exists (Obj.add_content (join [newline] (x :: cc) ++ [newline]) o).
  simpl. rewrite list_lookup_alter_eq, Ho. split; [done|].
  destruct (join_has_line l (x :: cc) Hl) as (pre & post & Hj).
  exists (Obj.content o ++ pre), post. rewrite Hj. by rewrite <- !app_assoc.
Qed.

Lemma _process_table_buffer_current_section caption p :
  current_section (_process_table_buffer caption p) = current_section p.
Proof.
  unfold _process_table_buffer. destruct (table_buffer p); [done|].
  by destruct p as [[d|] ? ? ? ? ? ? ?].
Qed.

(** A line waiting for its section, or stored in it, is never lost. *)
Lemma kept_step a l p cc raw :
  parser_ok p ->
  pending a l (p, cc) \/ stored a l p ->
  pending a l (step (p, cc) raw) \/ stored a l (fst (step (p, cc) raw)).
Proof.
  intros Hok [Hp|Hs]; [|right; by eapply stored_grows; [apply grows_step|]].
  destruct (step_cases p raw) as [[m Hm]|[Ht|[Hb|(Hm & Ht & Hb)]]].
  - right. rewrite (step_header _ _ _ _ Hm). simpl.
    eapply stored_grows; [apply grows_process_section_header|].
    by apply pending_flush.
  - rewrite (step_table_line _ _ _ Ht).
    destruct (nonempty cc && negb (is_in_table p)); simpl.
    + right. eapply stored_grows; [apply grows_set_table_state|].
      by apply pending_flush.
    + left. exact Hp.
  - left. rewrite (step_blank_in_table _ _ _ Hb).
    destruct Hp as [Ha Hl]. split; simpl in *; [|done].
    by rewrite _process_table_buffer_current_section.
  - left. rewrite (step_text _ _ _ Hm Ht Hb). simpl.
    destruct Hp as [Ha Hl]. simpl in *.
    assert (Hcur : current_section
              match re_match REFERENCE_PATTERN (rstrip raw) with
              | Some m =>
                  with_document
                    (Doc.add_reference
                       (Reference.mk (default [] (group 1 m)) (default [] (group 2 m)))) p
              | None => p
              end = Some a).
    { by destruct (re_match REFERENCE_PATTERN _). }
    split; simpl; [done|]. rewrite Hcur. apply elem_of_app. by left.
Qed.

Lemma kept_foldl a l lines p cc :
  parser_ok p ->
  pending a l (p, cc) \/ stored a l p ->
  pending a l (foldl step (p, cc) lines)
  \/ stored a l (fst (foldl step (p, cc) lines)).
Proof.
  revert p cc. induction lines as [|raw lines IH]; intros p cc Hok H; simpl; [done|].
  pose proof (kept_step a l p cc raw Hok H) as Hs.
  pose proof (step_ok p cc raw Hok) as Hok'.
  destruct (step (p, cc) raw) as [p' cc']. by apply IH.
Qed.

Lemma document_foldl lines p cc :
  is_Some (document p) -> is_Some (document (fst (foldl step (p, cc) lines))).
Proof. intros H. by apply (grows_foldl lines p cc). Qed.

Lemma step_citation p cc raw r a :
  citation (rstrip raw) = Some r -> current_section p = Some a ->
  step (p, cc) raw
  = (with_document (Doc.add_reference r) p, cc ++ [rstrip raw]).
Proof.
  unfold citation. intros Hc Ha.
  destruct (re_match REFERENCE_PATTERN (rstrip raw)) as [m|] eqn:Hm; [|done].
  simpl in Hc. injection Hc as <-.
  destruct (reference_line_class (rstrip raw)) as (Hh & Ht & Hb); [by rewrite Hm|].
  rewrite (step_text _ _ _ Hh Ht) by (by rewrite Hb, andb_false_r).
  rewrite Hm. simpl. by rewrite Ha.
Qed.

(** C9.  A line of the citation shape read while a section is open is
    appended to the reference list of the document and to the pending
    content of that section, in one turn of the loop; at the end of the
    parse the reference is in the returned Document and the line, with its
    line break, is part of the content of the section that was open. *)
Theorem citation_kept p now stem title pre raw post a r :
  reachable p ->
  current_section
    (fst (foldl step (set_document (Doc.new now (choose_title stem title)) p, [])
                pre)) = Some a ->
  citation (rstrip raw) = Some r ->
  step (foldl step (set_document (Doc.new now (choose_title stem title)) p, []) pre)
       raw
  = (with_document (Doc.add_reference r)
       (fst (foldl step (set_document (Doc.new now (choose_title stem title)) p, [])
                   pre)),
     snd (foldl step (set_document (Doc.new now (choose_title stem title)) p, [])
                pre) ++ [rstrip raw])
  /\ exists doc,
       parsed_by p now stem (pre ++ raw :: post) title = Some doc
       /\ r ∈ Document.references doc
       /\ stored a (rstrip raw)
            (fst (parse_lines now stem (pre ++ raw :: post) title p)).
Proof.
  intros Hr%reachable_ok Ha Hc.
  set (p0 := set_document (Doc.new now (choose_title stem title)) p) in *.
  assert (Hok0 : parser_ok p0) by (by apply set_document_ok).
  pose proof (foldl_step_ok pre p0 [] Hok0) as Hok1.
  pose proof (document_foldl pre p0 [] ltac:(by eexists)) as [d1 Hd1].
  destruct (foldl step (p0, []) pre) as [p1 cc1] eqn:Hpre. simpl in *.
  pose proof (step_citation p1 cc1 raw r a Hc Ha) as Hstep.
  split; [exact Hstep|].
  destruct (parsed_by_spec p now stem (pre ++ raw :: post) title Hr)
    as (d & doc & _ & Hd & _ & _ & Hp & _ & _ & _ & Hrefs & _).
  exists doc. split; [exact Hp|].
  rewrite parse_lines_split in Hd |- *. fold p0 in Hd |- *.
  rewrite Hpre in Hd |- *. simpl foldl in Hd |- *. rewrite Hstep in Hd |- *.
  set (p2 := with_document (Doc.add_reference r) p1) in *.
  set (cc2 := cc1 ++ [rstrip raw]) in *.
  assert (Hok2 : parser_ok p2).
  { pose proof (step_ok p1 cc1 raw Hok1) as H. by rewrite Hstep in H. }
  assert (Hin2 : r ∈ references_of p2).
  { unfold references_of, p2. destruct p1 as [doc1 ? ? ? ? ? ? ?]. simpl in *.
    subst doc1. simpl. apply elem_of_app. right. by left. }
  assert (Hpend : pending a (rstrip raw) (p2, cc2)).
  { split; simpl.
    - unfold p2. by destruct p1.
    - unfold cc2. apply elem_of_app. right. by left. }
  pose proof (grows_to_the_end post p2 cc2) as Hg.
  pose proof (kept_foldl a (rstrip raw) post p2 cc2 Hok2 (or_introl Hpend)) as Hkept.
  pose proof (foldl_step_ok post p2 cc2 Hok2) as Hok3.
  destruct (foldl step (p2, cc2) post) as [p3 cc3]. simpl in *.
  split.
  - destruct Hg as (_ & _ & Hpre_refs & _).
    unfold references_of in Hpre_refs at 2. rewrite Hd in Hpre_refs.
    simpl in Hpre_refs. rewrite Hrefs.
    destruct Hpre_refs as [more ->]. apply elem_of_app. by left.
  - eapply stored_grows; [apply grows_finalize|].
    destruct Hkept as [Hpend3|Hst3].
    + by apply pending_flush.
    + eapply stored_grows; [apply grows_flush_content|done].
Qed.

Lemma citation_kept_witness :
  step (foldl step (set_document (Doc.new (py "now") (choose_title (py "Doc") None)) init, [])
              [py "## A"]) (py "[1] cite")
  = (with_document (Doc.add_reference (Reference.mk (py "1") (py "cite")))
       (fst (foldl step
               (set_document (Doc.new (py "now") (choose_title (py "Doc") None)) init, [])
               [py "## A"])),
     snd (foldl step
            (set_document (Doc.new (py "now") (choose_title (py "Doc") None)) init, [])
            [py "## A"]) ++ [rstrip (py "[1] cite")])
  /\ exists doc,
       parsed_by init (py "now") (py "Doc") ([py "## A"] ++ py "[1] cite" :: [py "more"]) None
       = Some doc
       /\ Reference.mk (py "1") (py "cite") ∈ Document.references doc
       /\ stored 0 (rstrip (py "[1] cite"))
            (fst (parse_lines (py "now") (py "Doc")
                    ([py "## A"] ++ py "[1] cite" :: [py "more"]) None init)).
Proof.
  apply (citation_kept init (py "now") (py "Doc") None [py "## A"] (py "[1] cite")
           [py "more"] 0 (Reference.mk (py "1") (py "cite")) reachable_init);
    by vm_compute.
Defined.

(** ** A parser used again *)

Lemma table_line_not_header line :
  is_table_line line = true -> re_match SECTION_HEADER_PATTERN line = None.
Proof.
  intros Ht. destruct (re_match SECTION_HEADER_PATTERN line) eqn:Hm; [|done].
  rewrite header_not_table_line in Ht; [done|by rewrite Hm].
Qed.

Lemma header_level_match line m :
  re_match SECTION_HEADER_PATTERN line = Some m ->
  header_level line = Some (length (default [] (group 1 m))).
Proof. unfold header_level. by intros ->. Qed.

Lemma is_title_line_not_header raw :
  re_match SECTION_HEADER_PATTERN (rstrip raw) = None -> is_title_line raw = false.
Proof. unfold is_title_line, header_level. by intros ->. Qed.

Lemma _process_section_header_seen t l n p :
  seen_document_title (_process_section_header t l n p)
  = seen_document_title p || (l =? 1)%Z.
Proof.
  unfold _process_section_header.
  destruct (l =? 1)%Z; simpl.
  - destruct (seen_document_title p) eqn:E; simpl; [|done]. by rewrite E.
  - rewrite orb_false_r.
    destruct (find_parent _ _ _ _) as [i|]; [|done]. by destruct (_ !! i).
Qed.

Lemma _process_table_buffer_seen caption p :
  seen_document_title (_process_table_buffer caption p) = seen_document_title p.
Proof.
  unfold _process_table_buffer. destruct (table_buffer p); [done|].
  by destruct p as [[d|] ? ? ? ? ? ? ?].
Qed.

Lemma seen_step p cc raw :
  seen_document_title (fst (step (p, cc) raw))
  = seen_document_title p || is_title_line raw.
Proof.
  destruct (step_cases p raw) as [[m Hm]|[Ht|[Hb|(Hm & Ht & Hb)]]].
  - rewrite (step_header _ _ _ _ Hm). simpl.
    rewrite _process_section_header_seen, flush_content_seen. f_equal.
    unfold is_title_line. rewrite (header_level_match _ _ Hm).
    destruct (length _) as [|[|k]]; [done|done|]. apply Z.eqb_neq. lia.
  - rewrite (step_table_line _ _ _ Ht).
    rewrite is_title_line_not_header by (by apply table_line_not_header).
    rewrite orb_false_r.
    destruct (nonempty cc && negb (is_in_table p)); simpl; [|done].
    apply flush_content_seen.
  - rewrite (step_blank_in_table _ _ _ Hb). simpl.
    apply andb_true_iff in Hb as [_ Hb].
    rewrite is_title_line_not_header by (by apply is_blank_not_header).
    by rewrite orb_false_r, _process_table_buffer_seen.
  - rewrite (step_text _ _ _ Hm Ht Hb). simpl.
    rewrite is_title_line_not_header, orb_false_r by done.
    destruct (re_match REFERENCE_PATTERN _); [|done]. by destruct p.
Qed.

Lemma seen_foldl lines p cc :
  seen_document_title (fst (foldl step (p, cc) lines))
  = seen_document_title p || existsb is_title_line lines.
Proof.
  revert p cc. induction lines as [|raw lines IH]; intros p cc; simpl.
  - by rewrite orb_false_r.
  - pose proof (seen_step p cc raw) as Hs.
    destruct (step (p, cc) raw) as [p' cc']. simpl in Hs.
    by rewrite IH, Hs, orb_assoc.
Qed.

Lemma seen_parse_lines now stem lines title p :
  seen_document_title (fst (parse_lines now stem lines title p))
  = seen_document_title p || existsb is_title_line lines.
Proof.
  unfold parse_lines.
  pose proof (seen_foldl lines
                (set_document (Doc.new now (choose_title stem title)) p) []) as H.
  destruct (foldl step _ lines) as [p1 cc1]. simpl in *.
  unfold _finalize_parsing. simpl.
  destruct (_ && _); by rewrite ?_process_table_buffer_seen, flush_content_seen.
Qed.

(** A level-1 heading met after the title has been seen makes a top-level
    section. *)
Lemma step_title_line_seen p cc raw m d :
  seen_document_title p = true -> document p = Some d ->
  re_match SECTION_HEADER_PATTERN (rstrip raw) = Some m ->
  length (default [] (group 1 m)) = 1 ->
  length (heap p) ∈ sections_of (fst (step (p, cc) raw))
  /\ heap (fst (step (p, cc) raw)) !! length (heap p)
     = Some (Obj.mk (_clean_section_name (header_raw_name m)) (header_raw_name m)
               [] 1 []).
Proof.
  intros Hseen Hd Hm Hl. rewrite (step_header _ _ _ _ Hm). simpl.
  rewrite Hl. unfold _process_section_header.
  rewrite flush_content_seen, Hseen. simpl.
  rewrite flush_content_heap_length.
  unfold sections_of. simpl. rewrite flush_content_document, Hd. simpl.
  split.
  - apply elem_of_app. right. by left.
  - rewrite <- (flush_content_heap_length cc p). by rewrite list_lookup_middle.
Qed.

(** A level-1 heading met before any other is the title marker: it only
    sets the flag. *)
Lemma step_title_line_unseen p cc raw :
  seen_document_title p = false -> is_title_line raw = true ->
  fst (step (p, cc) raw) = set_seen_document_title true (flush_content cc p).
Proof.
  intros Hseen Ht. unfold is_title_line in Ht.
  destruct (re_match SECTION_HEADER_PATTERN (rstrip raw)) as [m|] eqn:Hm.
  - rewrite (header_level_match _ _ Hm) in Ht.
    rewrite (step_header _ _ _ _ Hm). simpl.
    destruct (length _) as [|[|k]]; try done.
    unfold _process_section_header. by rewrite flush_content_seen, Hseen.
  - unfold header_level in Ht. by rewrite Hm in Ht.
Qed.

(** C10 (as the code has it).  [parse_file] resets neither the table
    counter nor the title flag.  After a first call on a new parser that
    returned a Document with k tables, a second call on the same parser
    returns a Document whose table ids are T(k+1), T(k+2), ... so that its
    first table is T(k+1).  If the first file had a level-1 heading, no
    level-1 heading of the second file is taken as the title marker: each
    becomes a top-level Section of level 1.  If the first file had none,
    the first level-1 heading of the second file is still the title
    marker, and only sets the flag. *)
Theorem parser_state_persists now1 stem1 lines1 title1 now2 stem2 lines2 title2 :
  exists doc1 doc2,
    parsed_by init now1 stem1 lines1 title1 = Some doc1
    /\ parsed_by (fst (parse_file now1 stem1 (Some lines1) title1 init))
         now2 stem2 lines2 title2 = Some doc2
    /\ Table.id <$> Document.tables doc2
       = table_name <$> seq (S (length (Document.tables doc1)))
                            (length (Document.tables doc2))
    /\ (existsb is_title_line lines1 = true ->
        forall pre raw post m,
          lines2 = pre ++ raw :: post ->
          re_match SECTION_HEADER_PATTERN (rstrip raw) = Some m ->
          is_title_line raw = true ->
          exists s,
            s ∈ Document.sections doc2
            /\ Section.level s = 1%Z
            /\ Section.raw_name s = header_raw_name m
            /\ Section.name s = _clean_section_name (header_raw_name m))
    /\ (existsb is_title_line lines1 = false ->
        forall pre raw post,
          lines2 = pre ++ raw :: post ->
          existsb is_title_line pre = false ->
          is_title_line raw = true ->
          fst (step
                 (foldl step
                    (set_document (Doc.new now2 (choose_title stem2 title2))
                       (fst (parse_file now1 stem1 (Some lines1) title1 init)), [])
                    pre) raw)
          = set_seen_document_title true
              (flush_content
                 (snd (foldl step
                         (set_document (Doc.new now2 (choose_title stem2 title2))
                            (fst (parse_file now1 stem1 (Some lines1) title1 init)), [])
                         pre))
                 (fst (foldl step
                         (set_document (Doc.new now2 (choose_title stem2 title2))
                            (fst (parse_file now1 stem1 (Some lines1) title1 init)), [])
                         pre)))).
Proof.
  change (fst (parse_file now1 stem1 (Some lines1) title1 init))
    with (fst (parse_lines now1 stem1 lines1 title1 init)).
  set (p1 := fst (parse_lines now1 stem1 lines1 title1 init)).
  destruct (parsed_by_spec init now1 stem1 lines1 title1 parser_ok_init)
    as (d1 & doc1 & _ & Hd1 & Hok1 & (_ & Hc1 & _) & Hp1 & _ & _ & Ht1 & _).
  fold p1 in Hd1, Hok1, Hc1.
  destruct (parsed_by_spec p1 now2 stem2 lines2 title2 Hok1)
    as (d2 & doc2 & _ & Hd2 & Hok2 & (_ & _ & Hids) & Hp2 & _ & _ & Ht2 & _ & _ & Hsecs).
  pose proof (seen_parse_lines now1 stem1 lines1 title1 init) as Hseen1.
  fold p1 in Hseen1. simpl in Hseen1.
  exists doc1, doc2. do 2 (split; [done|]). split; [|split].
  - unfold tables_of in Hc1, Hids. rewrite Hd1 in Hc1. rewrite Hd2 in Hids.
    simpl in Hc1, Hids. by rewrite Ht1, Ht2, Hids, Hc1.
  - intros Hsome pre raw post m -> Hm Htitle.
    rewrite Hsome in Hseen1.
    rewrite parse_lines_split in Hd2, Hsecs.
    set (q0 := set_document (Doc.new now2 (choose_title stem2 title2)) p1) in *.
    pose proof (seen_foldl pre q0 []) as Hseenq. simpl in Hseenq.
    rewrite Hseen1 in Hseenq. simpl in Hseenq.
    pose proof (document_foldl pre q0 [] ltac:(by eexists)) as [dq Hdq].
    destruct (foldl step (q0, []) pre) as [q1 cc1]. simpl in Hseenq, Hdq.
    assert (Hl : length (default [] (group 1 m)) = 1).
    { unfold is_title_line in Htitle. rewrite (header_level_match _ _ Hm) in Htitle.
      revert Htitle. by destruct (length (default [] (group 1 m))) as [|[|k]]. }
    destruct (step_title_line_seen q1 cc1 raw m dq Hseenq Hdq Hm Hl) as [Hin Hobj].
    simpl foldl in Hd2, Hsecs.
    pose proof (grows_to_the_end post (fst (step (q1, cc1) raw))
                  (snd (step (q1, cc1) raw))) as Hg.
    destruct (step (q1, cc1) raw) as [q2 cc2]. cbn [fst snd] in Hin, Hobj, Hg.
    destruct Hg as (_ & Hpre & _ & Hheap & _).
    destruct (Hheap _ _ Hobj) as (o' & Ho' & Hname & Hraw & Hlev & _).
    unfold sections_of in Hpre at 2. rewrite Hd2 in Hpre. simpl in Hpre.
    assert (Hin' : length (heap q1) ∈ Doc.sections d2).
    { destruct Hpre as [more ->]. apply elem_of_app. by left. }
    apply list_elem_of_lookup in Hin' as [i Hi].
    destruct (Forall2_lookup_l _ _ _ _ _ Hsecs Hi) as (s & Hs & Hsnap).
    destruct (snapshot_root _ _ _ _ Hsnap) as (o2 & Ho2 & Hn2 & Hr2 & _ & Hl2 & _).
    rewrite Ho' in Ho2. injection Ho2 as <-.
    exists s. split; [by eapply list_elem_of_lookup_2|].
    split; [by rewrite Hl2, Hlev|]. split; [by rewrite Hr2, Hraw|by rewrite Hn2, Hname].
  - intros Hnone pre raw post -> Hpre Htitle.
    rewrite Hnone in Hseen1.
    set (q0 := set_document (Doc.new now2 (choose_title stem2 title2)) p1) in *.
    pose proof (seen_foldl pre q0 []) as Hseenq. simpl in Hseenq.
    rewrite Hseen1, Hpre in Hseenq. simpl in Hseenq.
    destruct (foldl step (q0, []) pre) as [q1 cc1]. simpl in *.
    by apply step_title_line_unseen.
Qed.

Lemma parser_state_persists_witness :
  exists doc1 doc2,
    parsed_by init (py "now") (py "One") [py "# One"; py "|a|"; py ""] None = Some doc1
    /\ parsed_by
         (fst (parse_file (py "now") (py "One")
                 (Some [py "# One"; py "|a|"; py ""]) None init))
         (py "now") (py "Two") [py "# Two"; py "|b|"; py ""] None = Some doc2
    /\ Table.id <$> Document.tables doc2
       = table_name <$> seq (S (length (Document.tables doc1)))
                            (length (Document.tables doc2))
    /\ (exists s,
          s ∈ Document.sections doc2
          /\ Section.level s = 1%Z
          /\ Section.raw_name s = py "Two"
          /\ Section.name s = _clean_section_name (py "Two")).
Proof.
  destruct (parser_state_persists (py "now") (py "One")
              [py "# One"; py "|a|"; py ""] None
              (py "now") (py "Two") [py "# Two"; py "|b|"; py ""] None)
    as (doc1 & doc2 & H1 & H2 & H3 & H4 & _).
  exists doc1, doc2. do 3 (split; [assumption|]).
  destruct (re_match SECTION_HEADER_PATTERN (rstrip (py "# Two"))) as [m|] eqn:Hm;
    [|vm_compute in Hm; discriminate Hm].
  destruct (H4 ltac:(by vm_compute) [] (py "# Two") [py "|b|"; py ""] m
              eq_refl Hm ltac:(by vm_compute))
    as (s & Hs & Hlev & Hraw & Hname).
  exists s. split; [assumption|]. split; [assumption|].
  assert (Hr : header_raw_name m = py "Two").
  { vm_compute in Hm. injection Hm as <-. by vm_compute. }
  rewrite Hr in Hraw, Hname. split; assumption.
Defined.

(** C10 fails as stated: the first file has no level-1 heading, so the
    level-1 heading of the second file is taken as the title marker and
    the second Document has no Section for it. *)
Lemma parser_state_persists_counterexample :
  existsb is_title_line [py "## A"] = false
  /\ is_title_line (py "# Title") = true
  /\ (fun doc => (fun s => (Section.raw_name s, Section.level s))
                   <$> Document.sections doc) <$>
       parsed_by
         (fst (parse_file (py "now") (py "One") (Some [py "## A"]) None init))
         (py "now") (py "Two") [py "# Title"; py "## B"] None
     = Some [(py "B", 2%Z)].
Proof. by vm_compute. Qed.

(** * More of models.py *)

(** ** The codecs of Reference, Table and Section *)

(** X1.  Reference, Table and Section come back unchanged from their own
    dictionaries: the whole record, and for a Section the whole tree below
    it. *)
Theorem leaf_codecs_round_trip :
  (forall r, Reference.from_dict (Reference.to_dict r) = Some r)
  /\ (forall t, Table.from_dict (Table.to_dict t) = Some t)
  /\ (forall s, Section.from_dict (Section.to_dict s) = Some s).
Proof.
  split; [|split].
  - intros r. apply Reference_round_trip.
  - intros t. apply Table_round_trip.
  - intros s. apply Section_from_dict_upto. lia.
Qed.

(** ** Metadata on the wire *)

Lemma dict_has_set_ne k k' v d :
  str_eqb k k' = false -> dict_has k (dict_set k' v d) = dict_has k d.
Proof. intros H. unfold dict_has. by rewrite dict_get_set_ne. Qed.

Lemma dict_del_set_absent k v d :
  dict_has k d = false -> dict_del k (dict_set k v d) = d.
Proof.
  unfold dict_has. induction d as [|[k' v'] d IH]; simpl.
  - by rewrite str_eqb_refl.
  - destruct (str_eqb k k') eqn:E; simpl; [done|]. rewrite E. intros H.
    by rewrite IH.
Qed.

Lemma dict_del_set_ne k k' v d :
  str_eqb k k' = false -> dict_has k d = true ->
  dict_del k (dict_set k' v d) = dict_set k' v (dict_del k d).
Proof.
  intros Hne. unfold dict_has. induction d as [|[k2 v2] d IH]; simpl; [done|].
  destruct (str_eqb k k2) eqn:E2.
  - intros _. destruct (str_eqb k' k2) eqn:E'.
    + apply str_eqb_eq in E2, E'. subst. by rewrite str_eqb_refl in Hne.
    + simpl. by rewrite E2.
  - intros H. destruct (str_eqb k' k2) eqn:E'; simpl.
    + by rewrite Hne, E'.
    + by rewrite E2, E', IH.
Qed.

(** What is left of the wire metadata once [from_dict] has taken the two
    lists out, when the document's own metadata had no such keys. *)
Lemma wire_metadata_back T R m :
  dict_has (py "tables") m = false -> dict_has (py "references") m = false ->
  dict_del (py "references")
    (dict_del (py "tables") (dict_set (py "references") R (dict_set (py "tables") T m)))
  = m.
Proof.
  intros Ht Hr.
  rewrite dict_del_set_ne; [|reflexivity|].
  - rewrite (dict_del_set_absent (py "tables")) by done.
    by apply dict_del_set_absent.
  - unfold dict_has. by rewrite dict_get_set_eq.
Qed.

(** X2.  A Document whose metadata has a creation time and no entry named
    tables or references comes back from its dictionary exactly as it
    was, metadata included, whatever the clock says. *)
Theorem document_comes_back_exactly now doc :
  dict_has (py "created_at") (Document.metadata doc) = true ->
  dict_has (py "tables") (Document.metadata doc) = false ->
  dict_has (py "references") (Document.metadata doc) = false ->
  Document.from_dict now (Document.to_dict doc) = Some doc.
Proof.
  intros Hc Ht Hr. rewrite Document_from_dict_to_dict.
  rewrite wire_metadata_back by done.
  unfold Document.new. simpl. rewrite Hc. by destruct doc.
Qed.

Lemma document_comes_back_exactly_witness :
  Document.from_dict (py "later")
    (Document.to_dict
       (Document.mk (py "Doc") [Section.mk (py "A") (py "1. A") (py "text") 1 []]
          [Table.mk (py "T1") (py "Table 1") [py "h"] [[py "x"]]]
          [Reference.mk (py "1") (py "cite")]
          [(py "created_at", VStr (py "now")); (py "author", VStr (py "me"))]))
  = Some (Document.mk (py "Doc") [Section.mk (py "A") (py "1. A") (py "text") 1 []]
            [Table.mk (py "T1") (py "Table 1") [py "h"] [[py "x"]]]
            [Reference.mk (py "1") (py "cite")]
            [(py "created_at", VStr (py "now")); (py "author", VStr (py "me"))]).
Proof.
  apply (document_comes_back_exactly (py "later")
           (Document.mk (py "Doc") [Section.mk (py "A") (py "1. A") (py "text") 1 []]
              [Table.mk (py "T1") (py "Table 1") [py "h"] [[py "x"]]]
              [Reference.mk (py "1") (py "cite")]
              [(py "created_at", VStr (py "now")); (py "author", VStr (py "me"))]));
    reflexivity.
Defined.

(** X3.  The Document returned by a parse, sent through [to_dict] and
    [from_dict] at any later time, is the same Document. *)
Theorem parsed_document_comes_back p now stem lines title later :
  reachable p ->
  exists doc,
    parsed_by p now stem lines title = Some doc
    /\ Document.from_dict later (Document.to_dict doc) = Some doc.
Proof.
  intros Hr%reachable_ok.
  destruct (parsed_by_spec p now stem lines title Hr)
    as (d & doc & _ & Hd & _ & _ & Hp & _ & _ & _ & _ & Hm & _).
  exists doc. split; [done|].
  pose proof (parse_lines_metadata now stem lines title p) as Hmeta.
  rewrite Hd in Hmeta. injection Hmeta as Hmeta. rewrite Hmeta in Hm.
  rewrite Document_from_dict_to_dict, Hm.
  destruct doc as [t s tb r m]. simpl in *. by subst m.
Qed.

Lemma parsed_document_comes_back_witness :
  exists doc,
    parsed_by init (py "now") (py "Doc")
      [py "## A"; py "|a|b|"; py "|-|-|"; py "[1] cite"] None = Some doc
    /\ Document.from_dict (py "later") (Document.to_dict doc) = Some doc.
Proof.
  exact (parsed_document_comes_back init (py "now") (py "Doc")
           [py "## A"; py "|a|b|"; py "|-|-|"; py "[1] cite"] None (py "later")
           reachable_init).
Defined.

(** X4.  In the dictionary of a Document the metadata entry holds the tables
    under [tables] and the references under [references], whatever the
    document's own metadata had under these names, and every other entry
    of the metadata unchanged. *)
Theorem to_dict_metadata doc :
  exists wire,
    Document.to_dict doc
    = VDict [(py "title", VStr (Document.title doc));
             (py "sections", VList (Section.to_dict <$> Document.sections doc));
             (py "metadata", VDict wire)]
    /\ dict_get (py "tables") wire
       = Some (VList (Table.to_dict <$> Document.tables doc))
    /\ dict_get (py "references") wire
       = Some (VList (Reference.to_dict <$> Document.references doc))
    /\ forall k,
         str_eqb k (py "tables") = false -> str_eqb k (py "references") = false ->
         dict_get k wire = dict_get k (Document.metadata doc).
Proof.
  eexists. split; [reflexivity|]. split; [|split].
  - rewrite dict_get_set_ne by reflexivity. apply dict_get_set_eq.
  - apply dict_get_set_eq.
  - intros k Ht Hr. by rewrite !dict_get_set_ne.
Qed.

(** ** The creation time *)

Lemma Document_new_created_at now t s m :
  dict_has (py "created_at") (Document.metadata (Document.new now t s m)) = true.
Proof.
  unfold Document.new. simpl.
  destruct (dict_has (py "created_at") m) eqn:E; [done|].
  unfold dict_has. by rewrite dict_get_set_eq.
Qed.

(** X5.  Every Document that [from_dict] builds has a creation time in its
    metadata; a creation time that came with the data is kept, and the
    clock is read only when there is none. *)
Theorem from_dict_created_at now :
  (forall data doc,
     Document.from_dict now data = Some doc ->
     dict_has (py "created_at") (Document.metadata doc) = true)
  /\ (forall doc v,
        dict_get (py "created_at") (Document.metadata doc) = Some v ->
        exists doc',
          Document.from_dict now (Document.to_dict doc) = Some doc'
          /\ dict_get (py "created_at") (Document.metadata doc') = Some v)
  /\ (forall doc,
        dict_get (py "created_at") (Document.metadata doc) = None ->
        exists doc',
          Document.from_dict now (Document.to_dict doc) = Some doc'
          /\ dict_get (py "created_at") (Document.metadata doc') = Some (VStr now)).
Proof.
  split; [|split].
  - intros data doc. unfold Document.from_dict.
    destruct (as_dict data) as [d|]; simpl; [|done].
    destruct (get_req _ _ d) as [ttl|]; simpl; [|done].
    destruct (get_or _ _ _ d) as [sd|]; simpl; [|done].
    destruct (mapM Section.from_dict sd) as [secs|]; simpl; [|done].
    destruct (_ ≫= mapM Table.from_dict) as [tbls|]; simpl; [|done].
    destruct (_ ≫= mapM Reference.from_dict) as [refs|]; simpl; [|done].
    intros [= <-]. simpl.
    match goal with
    | |- context [if dict_has ?k ?m then _ else _] =>
        apply (Document_new_created_at now ttl secs m)
    end.
  - intros doc v Hv. eexists. split; [apply Document_from_dict_to_dict|].
    simpl.
    assert (Hin : dict_get (py "created_at")
              (dict_del (py "references")
                 (dict_del (py "tables")
                    (dict_set (py "references")
                       (VList (Reference.to_dict <$> Document.references doc))
                       (dict_set (py "tables")
                          (VList (Table.to_dict <$> Document.tables doc))
                          (Document.metadata doc))))) = Some v).
    { by rewrite !dict_get_del_ne, !dict_get_set_ne. }
    unfold dict_has. by rewrite Hin.
  - intros doc Hv. eexists. split; [apply Document_from_dict_to_dict|].
    simpl.
    assert (Hin : dict_get (py "created_at")
              (dict_del (py "references")
                 (dict_del (py "tables")
                    (dict_set (py "references")
                       (VList (Reference.to_dict <$> Document.references doc))
                       (dict_set (py "tables")
                          (VList (Table.to_dict <$> Document.tables doc))
                          (Document.metadata doc))))) = None).
    { by rewrite !dict_get_del_ne, !dict_get_set_ne. }
    unfold dict_has. rewrite Hin. apply dict_get_set_eq.
Qed.

Lemma from_dict_created_at_witness :
  dict_has (py "created_at")
    (Document.metadata
       (Document.mk (py "T") [] [] [] [(py "created_at", VStr (py "later"))]))
  = true.
Proof.
  apply (proj1 (from_dict_created_at (py "later")) (VDict [(py "title", VStr (py "T"))])).
  reflexivity.
Defined.

(** ** Missing entries *)

(** X6.  [Document.from_dict] needs the title and nothing else: without a
    title it fails; with a title and neither sections nor metadata it gives
    an empty Document whose only metadata is the creation time. *)
Theorem from_dict_missing_entries now d :
  (dict_get (py "title") d = None -> Document.from_dict now (VDict d) = None)
  /\ (forall t,
        dict_get (py "title") d = Some (VStr t) ->
        dict_get (py "sections") d = None ->
        dict_get (py "metadata") d = None ->
        Document.from_dict now (VDict d)
        = Some (Document.mk t [] [] [] [(py "created_at", VStr now)])).
Proof.
  split.
  - intros H. unfold Document.from_dict, get_req. simpl. by rewrite H.
  - intros t Ht Hs Hm. unfold Document.from_dict, get_req, get_or. simpl.
    by rewrite Ht, Hs, Hm.
Qed.

Lemma from_dict_missing_entries_witness :
  Document.from_dict (py "now") (VDict [(py "sections", VList [])]) = None
  /\ Document.from_dict (py "now") (VDict [(py "title", VStr (py "T"))])
     = Some (Document.mk (py "T") [] [] [] [(py "created_at", VStr (py "now"))]).
Proof.
  split.
  - apply (proj1 (from_dict_missing_entries (py "now") [(py "sections", VList [])])).
    reflexivity.
  - apply (proj2 (from_dict_missing_entries (py "now") [(py "title", VStr (py "T"))]));
      reflexivity.
Defined.

(** * More of parser.py *)

(** ** The shape of a parse *)

Lemma parse_lines_after now stem lines title p :
  fst (parse_lines now stem lines title p)
  = fst (_finalize_parsing
           (flush_content (snd (after_lines now stem title p lines))
              (fst (after_lines now stem title p lines)))).
Proof.
  unfold parse_lines, after_lines, begin_parse.
  by destruct (foldl step _ lines).
Qed.

Lemma after_lines_snoc now stem title p pre raw :
  after_lines now stem title p (pre ++ [raw])
  = step (after_lines now stem title p pre) raw.
Proof. unfold after_lines. by rewrite foldl_app. Qed.

(** ** Title and references of the document under construction *)

Lemma _process_section_header_front t l n p :
  title_of (_process_section_header t l n p) = title_of p
  /\ references_of (_process_section_header t l n p) = references_of p.
Proof.
  unfold title_of, references_of, _process_section_header.
  destruct (_ && _); [done|].
  destruct (l =? 1)%Z; [by destruct p as [[d|] ? ? ? ? ? ? ?]|].
  destruct (find_parent _ _ _ _) as [i|]; [|by destruct p as [[d|] ? ? ? ? ? ? ?]].
  by destruct (_ !! i).
Qed.

Lemma _process_table_buffer_front caption p :
  title_of (_process_table_buffer caption p) = title_of p
  /\ references_of (_process_table_buffer caption p) = references_of p.
Proof.
  unfold title_of, references_of, _process_table_buffer.
  destruct (table_buffer p); [done|]. simpl. by destruct (document p).
Qed.

Lemma flush_content_front cc p :
  title_of (flush_content cc p) = title_of p
  /\ references_of (flush_content cc p) = references_of p.
Proof. unfold title_of, references_of. by rewrite flush_content_document. Qed.

Lemma _finalize_parsing_front p :
  title_of (fst (_finalize_parsing p)) = title_of p
  /\ references_of (fst (_finalize_parsing p)) = references_of p.
Proof.
  unfold _finalize_parsing. simpl.
  destruct (_ && _); [apply _process_table_buffer_front|done].
Qed.

Lemma citation_not_header line :
  is_Some (re_match SECTION_HEADER_PATTERN line) -> citation line = None.
Proof.
  intros [m Hm]. unfold citation.
  destruct (re_match REFERENCE_PATTERN line) as [r|] eqn:E; [|done].
  destruct (reference_line_class line) as (H & _); [by eexists|]. congruence.
Qed.

Lemma citation_not_table_line line :
  is_table_line line = true -> citation line = None.
Proof.
  intros Ht. unfold citation.
  destruct (re_match REFERENCE_PATTERN line) as [r|] eqn:E; [|done].
  destruct (reference_line_class line) as (_ & H & _); [by eexists|]. congruence.
Qed.

Lemma citation_not_blank line : is_blank line = true -> citation line = None.
Proof.
  intros Ht. unfold citation.
  destruct (re_match REFERENCE_PATTERN line) as [r|] eqn:E; [|done].
  destruct (reference_line_class line) as (_ & _ & H); [by eexists|]. congruence.
Qed.

Lemma step_front p cc raw :
  is_Some (document p) ->
  title_of (fst (step (p, cc) raw)) = title_of p
  /\ references_of (fst (step (p, cc) raw))
     = references_of p ++ option_list (citation (rstrip raw)).
Proof.
  intros [d Hd].
  destruct (step_cases p raw) as [[m Hm]|[Ht|[Hb|(Hm & Ht & Hb)]]].
  - rewrite (step_header _ _ _ _ Hm). simpl.
    rewrite citation_not_header by by eexists. simpl. rewrite app_nil_r.
    destruct (_process_section_header_front (default [] (group 3 m))
                (Z.of_nat (length (default [] (group 1 m)))) (group 2 m)
                (flush_content cc p)) as [-> ->].
    apply flush_content_front.
  - rewrite (step_table_line _ _ _ Ht), (citation_not_table_line _ Ht).
    simpl. rewrite app_nil_r.
    destruct (nonempty cc && negb (is_in_table p)); simpl; [|done].
    unfold title_of, references_of. simpl. by rewrite flush_content_document.
  - rewrite (step_blank_in_table _ _ _ Hb). simpl.
    apply andb_true_iff in Hb as [_ Hb].
    rewrite (citation_not_blank _ Hb). simpl. rewrite app_nil_r.
    apply _process_table_buffer_front.
  - rewrite (step_text _ _ _ Hm Ht Hb). simpl. unfold citation.
    destruct (re_match REFERENCE_PATTERN (rstrip raw)) as [r|]; simpl.
    + unfold title_of, references_of. simpl. by rewrite Hd.
    + by rewrite app_nil_r.
Qed.

Lemma foldl_front lines p cc :
  is_Some (document p) ->
  title_of (fst (foldl step (p, cc) lines)) = title_of p
  /\ references_of (fst (foldl step (p, cc) lines))
     = references_of p ++ citations lines.
Proof.
  revert p cc. induction lines as [|raw lines IH]; intros p cc Hd; simpl.
  - by rewrite app_nil_r.
  - destruct (step_front p cc raw Hd) as [Ht Hr].
    destruct (step (p, cc) raw) as [p1 cc1] eqn:E. simpl in *.
    destruct (IH p1 cc1) as [-> ->].
    + destruct (grows_step p cc raw) as [H _]. rewrite E in H. by apply H.
    + rewrite Ht, Hr, <- app_assoc. split; [done|]. f_equal.
      unfold citations. simpl. by destruct (citation (rstrip raw)).
Qed.

Lemma parse_lines_front now stem lines title p :
  title_of (fst (parse_lines now stem lines title p)) = Some (choose_title stem title)
  /\ references_of (fst (parse_lines now stem lines title p)) = citations lines.
Proof.
  rewrite parse_lines_after.
  destruct (_finalize_parsing_front
              (flush_content (snd (after_lines now stem title p lines))
                 (fst (after_lines now stem title p lines)))) as [-> ->].
  destruct (flush_content_front (snd (after_lines now stem title p lines))
              (fst (after_lines now stem title p lines))) as [-> ->].
  unfold after_lines.
  destruct (foldl_front lines (begin_parse now stem title p) []) as [-> ->];
    [by eexists|done].
Qed.

(** X7.  The references of the Document a parse returns are exactly the
    citations among the lines of the file, one for each line of that shape,
    in the order of the lines; no other line gives a reference, and a
    citation inside a table, before the first heading or repeated is
    recorded like any other. *)
Theorem references_are_the_citations p now stem lines title :
  reachable p ->
  exists doc,
    parsed_by p now stem lines title = Some doc
    /\ Document.references doc = citations lines.
Proof.
  intros Hr%reachable_ok.
  destruct (parsed_by_spec p now stem lines title Hr)
    as (d & doc & _ & Hd & _ & _ & Hp & _ & _ & _ & Href & _).
  exists doc. split; [done|]. rewrite Href.
  destruct (parse_lines_front now stem lines title p) as [_ H].
  unfold references_of in H. by rewrite Hd in H.
Qed.

Lemma references_are_the_citations_witness :
  exists doc,
    parsed_by init (py "now") (py "Doc")
      [py "[1] first"; py "## A"; py "text"; py "[2] second"; py "[1] first"] None
    = Some doc
    /\ Document.references doc
       = citations [py "[1] first"; py "## A"; py "text"; py "[2] second";
                    py "[1] first"].
Proof.
  exact (references_are_the_citations init (py "now") (py "Doc")
           [py "[1] first"; py "## A"; py "text"; py "[2] second"; py "[1] first"]
           None reachable_init).
Defined.

(** X8.  The title of the Document a parse returns is the title argument when
    it is a non-empty string and the title made of the file name
    otherwise; no line of the file, not even a level-1 heading, changes
    it. *)
Theorem title_from_the_call p now stem lines title :
  reachable p ->
  exists doc,
    parsed_by p now stem lines title = Some doc
    /\ Document.title doc
       = match title with
         | Some (a :: t) => a :: t
         | _ => stem
         end.
Proof.
  intros Hr%reachable_ok.
  destruct (parsed_by_spec p now stem lines title Hr)
    as (d & doc & _ & Hd & _ & _ & Hp & _ & Ht & _).
  exists doc. split; [done|]. rewrite Ht.
  destruct (parse_lines_front now stem lines title p) as [H _].
  unfold title_of in H. rewrite Hd in H. injection H as ->.
  by destruct title as [[|a t]|].
Qed.

Lemma title_from_the_call_witness :
  exists doc,
    parsed_by init (py "now") (py "My File") [py "# Another Title"; py "## A"]
      (Some []) = Some doc
    /\ Document.title doc = py "My File".
Proof.
  exact (title_from_the_call init (py "now") (py "My File")
           [py "# Another Title"; py "## A"] (Some []) reachable_init).
Defined.

(** ** The table buffer at the end of a parse *)

Lemma _finalize_parsing_buffer p :
  buffer_flag_ok p ->
  table_buffer (fst (_finalize_parsing p)) = []
  /\ is_in_table (fst (_finalize_parsing p)) = false.
Proof.
  unfold buffer_flag_ok, _finalize_parsing. simpl. intros H.
  destruct (table_buffer p) as [|l buf] eqn:E; simpl in H; rewrite H; simpl.
  - by rewrite E, H.
  - unfold _process_table_buffer. by rewrite E.
Qed.

(** X9.  When [parse_file] returns, no table line is left in the buffer and
    the parser is not inside a table: a table that runs to the last line of
    the file has been closed, and the next parse starts with an empty
    buffer. *)
Theorem no_table_left_open p now stem lines title :
  reachable p ->
  table_buffer (fst (parse_file now stem (Some lines) title p)) = []
  /\ is_in_table (fst (parse_file now stem (Some lines) title p)) = false.
Proof.
  intros Hr%reachable_ok. simpl. rewrite parse_lines_after.
  apply _finalize_parsing_buffer, flush_content_ok.
  apply (foldl_step_ok lines (begin_parse now stem title p) []).
  by apply set_document_ok.
Qed.

Lemma no_table_left_open_witness :
  table_buffer (fst (parse_file (py "now") (py "Doc")
                       (Some [py "## A"; py "|a|b|"; py "|-|-|"; py "|1|2|"])
                       None init)) = []
  /\ is_in_table (fst (parse_file (py "now") (py "Doc")
                         (Some [py "## A"; py "|a|b|"; py "|-|-|"; py "|1|2|"])
                         None init)) = false.
Proof.
  exact (no_table_left_open init (py "now") (py "Doc")
           [py "## A"; py "|a|b|"; py "|-|-|"; py "|1|2|"] None reachable_init).
Defined.

(** ** What a later parse does to earlier sections *)

(** X10.  A call of [parse_file], on any parser, leaves every Section object
    that existed before it in place, with its name, raw name and level; the
    content and the list of subsections of such an object are at most added
    to at the end. *)
Theorem earlier_sections_only_grow now stem file title p a o :
  heap p !! a = Some o ->
  exists o',
    heap (fst (parse_file now stem file title p)) !! a = Some o'
    /\ Obj.name o' = Obj.name o
    /\ Obj.raw_name o' = Obj.raw_name o
    /\ Obj.level o' = Obj.level o
    /\ Obj.content o `prefix_of` Obj.content o'
    /\ Obj.subsections o `prefix_of` Obj.subsections o'.
Proof.
  intros Ho. destruct file as [lines|]; simpl.
  - rewrite parse_lines_after.
    pose proof (grows_to_the_end lines (begin_parse now stem title p) [])
      as (_ & _ & _ & Hg & _).
    exact (Hg a o Ho).
  - exists o. split; [done|]. by repeat split.
Qed.

Lemma earlier_sections_only_grow_witness :
  exists o',
    heap (fst (parse_file (py "now") (py "Two") (Some [py "more"; py "### B"]) None
                 (fst (parse_file (py "now") (py "One") (Some [py "## A"]) None init))))
      !! 0 = Some o'
    /\ Obj.name o' = py "A"
    /\ Obj.raw_name o' = py "A"
    /\ Obj.level o' = 2%Z
    /\ [] `prefix_of` Obj.content o'
    /\ [] `prefix_of` Obj.subsections o'.
Proof.
  apply (earlier_sections_only_grow (py "now") (py "Two")
           (Some [py "more"; py "### B"]) None
           (fst (parse_file (py "now") (py "One") (Some [py "## A"]) None init))
           0 (Obj.mk (py "A") (py "A") [] 2 [])).
  by vm_compute.
Defined.

(** ** The classes of lines *)

(** X11.  A line falls in at most one of the four classes the loop of
    [parse_file] tests for: heading, table line, citation, blank line.  So
    the order of the tests decides nothing. *)
Theorem line_classes_exclusive line :
  (is_Some (re_match SECTION_HEADER_PATTERN line) ->
   is_table_line line = false /\ citation line = None /\ is_blank line = false)
  /\ (is_table_line line = true ->
      citation line = None /\ is_blank line = false)
  /\ (is_Some (citation line) -> is_blank line = false).
Proof.
  split; [|split].
  - intros Hh. split; [by apply header_not_table_line|].
    split; [by apply citation_not_header|].
    destruct (is_blank line) eqn:E; [|done].
    apply is_blank_not_header in E. rewrite E in Hh. by destruct Hh.
  - intros Ht. split; [by apply citation_not_table_line|].
    destruct (is_blank line) eqn:E; [|done].
    apply is_blank_not_table_line in E. congruence.
  - intros [r Hr]. destruct (is_blank line) eqn:E; [|done].
    apply citation_not_blank in E. congruence.
Qed.

Lemma line_classes_exclusive_witness :
  (is_table_line (py "## A") = false /\ citation (py "## A") = None
   /\ is_blank (py "## A") = false)
  /\ (citation (py "|a|b|") = None /\ is_blank (py "|a|b|") = false)
  /\ is_blank (py "[1] cite") = false.
Proof.
  split; [|split].
  - apply (proj1 (line_classes_exclusive (py "## A"))).
    eexists. vm_compute. reflexivity.
  - apply (proj1 (proj2 (line_classes_exclusive (py "|a|b|")))). by vm_compute.
  - apply (proj2 (proj2 (line_classes_exclusive (py "[1] cite")))).
    eexists. vm_compute. reflexivity.
Defined.

(** ** Invariants of a parse *)

Lemma _process_table_buffer_heap caption p :
  heap (_process_table_buffer caption p) = heap p.
Proof. unfold _process_table_buffer. by destruct (table_buffer p). Qed.

Lemma _process_table_buffer_stack caption p :
  section_stack (_process_table_buffer caption p) = section_stack p.
Proof. unfold _process_table_buffer. by destruct (table_buffer p). Qed.

Lemma _process_table_buffer_sections caption p :
  sections_of (_process_table_buffer caption p) = sections_of p.
Proof.
  unfold _process_table_buffer, sections_of.
  destruct (table_buffer p); [done|]. simpl. by destruct (document p).
Qed.

Lemma header_level_range raw m :
  re_match SECTION_HEADER_PATTERN (rstrip raw) = Some m ->
  1 <= length (default [] (group 1 m)) <= 6.
Proof.
  intros Hm. apply header_level_match in Hm.
  by destruct (header_level_rstripped _ _ (rstrip_rstripped raw) Hm).
Qed.

(** A property of the parser that each operation of the line loop keeps
    is kept by a whole parse. *)
Section invariants.
Variable I : DocumentParser -> Prop.
Hypothesis I_flush : forall q cc, parser_ok q -> I q -> I (flush_content cc q).
Hypothesis I_header : forall q t l n,
  parser_ok q -> (1 <= l <= 6)%Z -> I q -> I (_process_section_header t l n q).
Hypothesis I_table : forall q c,
  parser_ok q -> I q -> I (_process_table_buffer c q).
Hypothesis I_buffer : forall q buf flag, I q -> I (set_table_state buf flag q).
Hypothesis I_reference : forall q r,
  I q -> I (with_document (Doc.add_reference r) q).

Lemma invariant_step p cc raw :
  parser_ok p -> I p -> I (fst (step (p, cc) raw)).
Proof.
  intros Hok Hi.
  destruct (step_cases p raw) as [[m Hm]|[Ht|[Hb|(Hm & Ht & Hb)]]].
  - rewrite (step_header _ _ _ _ Hm). simpl.
    apply I_header; [by apply flush_content_ok| |by apply I_flush].
    pose proof (header_level_range _ _ Hm). lia.
  - rewrite (step_table_line _ _ _ Ht).
    destruct (nonempty cc && negb (is_in_table p)); simpl; apply I_buffer; [|done].
    by apply I_flush.
  - rewrite (step_blank_in_table _ _ _ Hb). simpl. by apply I_table.
  - rewrite (step_text _ _ _ Hm Ht Hb). simpl.
    destruct (re_match REFERENCE_PATTERN _); [|done]. by apply I_reference.
Qed.

Lemma invariant_foldl lines p cc :
  parser_ok p -> I p -> I (fst (foldl step (p, cc) lines)).
Proof.
  revert p cc. induction lines as [|raw lines IH]; intros p cc Hok Hi; [done|].
  simpl. pose proof (step_ok p cc raw Hok) as Hok'.
  pose proof (invariant_step p cc raw Hok Hi) as Hi'.
  destruct (step (p, cc) raw) as [p1 cc1]. by apply IH.
Qed.

Lemma invariant_parse_lines now stem lines title p :
  parser_ok p -> I (begin_parse now stem title p) ->
  I (fst (parse_lines now stem lines title p)).
Proof.
  intros Hok Hi. rewrite parse_lines_after. unfold after_lines.
  assert (Hok0 : parser_ok (begin_parse now stem title p))
    by (by apply set_document_ok).
  pose proof (foldl_step_ok lines _ [] Hok0) as Hok1.
  pose proof (invariant_foldl lines _ [] Hok0 Hi) as Hi1.
  set (st := foldl step _ lines) in *.
  pose proof (flush_content_ok (snd st) _ Hok1) as Hok2.
  pose proof (I_flush _ (snd st) Hok1 Hi1) as Hi2.
  unfold _finalize_parsing. simpl.
  destruct (_ && _); [by apply I_table|done].
Qed.
End invariants.

(** ** Levels *)

Lemma levels_ok_alter f a h :
  (forall o, Obj.level (f o) = Obj.level o) ->
  levels_ok h -> levels_ok (alter f a h).
Proof.
  intros Hf Hl b o Ho.
  destruct (decide (a = b)) as [->|Hne].
  - rewrite list_lookup_alter_eq in Ho.
    destruct (h !! b) as [o0|] eqn:E; simplify_eq/=.
    rewrite Hf. by eapply Hl.
  - rewrite list_lookup_alter_ne in Ho by done. by eapply Hl.
Qed.

Lemma levels_ok_alloc o h :
  (1 <= Obj.level o <= 6)%Z -> levels_ok h -> levels_ok (h ++ [o]).
Proof.
  intros Ho Hl b o' Hb.
  apply lookup_app_Some in Hb as [Hb|[_ Hb]]; [by eapply Hl|].
  apply list_lookup_singleton_Some in Hb as [_ <-]. done.
Qed.

Lemma levels_ok_flush cc p :
  levels_ok (heap p) -> levels_ok (heap (flush_content cc p)).
Proof.
  intros H. unfold flush_content.
  destruct cc; [done|]. destruct (current_section p); [|done].
  simpl. by apply levels_ok_alter.
Qed.

Lemma levels_ok_header t l n p :
  (1 <= l <= 6)%Z -> levels_ok (heap p) ->
  levels_ok (heap (_process_section_header t l n p)).
Proof.
  intros Hl H. unfold _process_section_header.
  destruct (_ && _); [done|].
  set (o := Obj.mk _ _ _ _ _).
  assert (H' : levels_ok (heap p ++ [o])) by (by apply levels_ok_alloc).
  destruct (l =? 1)%Z; [done|]. simpl.
  destruct (find_parent _ _ _ _) as [i|]; [|done].
  destruct (_ !! i); [|done]. simpl. by apply levels_ok_alter.
Qed.

Lemma levels_ok_parse_lines now stem lines title p :
  parser_ok p -> levels_ok (heap p) ->
  levels_ok (heap (fst (parse_lines now stem lines title p))).
Proof.
  intros Hok Hl.
  apply (invariant_parse_lines (fun q => levels_ok (heap q))); try done.
  - intros q cc _. apply levels_ok_flush.
  - intros q t l n _. apply levels_ok_header.
  - intros q c _. by rewrite _process_table_buffer_heap.
Qed.

Lemma levels_ok_raising now stem pre title p :
  parser_ok p -> levels_ok (heap p) ->
  levels_ok (heap (parse_file_raising now stem pre title p)).
Proof.
  intros Hok Hl. unfold parse_file_raising.
  apply (invariant_foldl (fun q => levels_ok (heap q))); try done.
  - intros q cc _. apply levels_ok_flush.
  - intros q t l n _. apply levels_ok_header.
  - intros q c _. by rewrite _process_table_buffer_heap.
  - by apply set_document_ok.
Qed.

Lemma reachable_levels p : reachable p -> levels_ok (heap p).
Proof.
  induction 1 as [|now stem file title p Hr IH|now stem pre title p Hr IH];
    [by intros a o| |].
  - destruct file as [lines|]; simpl; [|done].
    apply levels_ok_parse_lines; [by apply reachable_ok|done].
  - apply levels_ok_raising; [by apply reachable_ok|done].
Qed.

(** Every section of a tree read from memory is the image of an
    object. *)
Lemma snapshot_in_tree h n a t s :
  snapshot n h a = Some t -> in_tree s t ->
  exists m b, snapshot m h b = Some s.
Proof.
  revert a t. induction n as [|n IH]; intros a t Ht Hin; [done|].
  destruct Hin as [|s0 c0 Hc0 Hin]; [by eauto|].
  destruct (snapshot_root _ _ _ _ Ht) as (o & Ho & _ & _ & _ & _ & Hsubs).
  simpl in Hsubs. apply list_elem_of_lookup in Hc0 as [i Hi].
  destruct (Forall2_lookup_r _ _ _ _ _ Hsubs Hi) as (ca & Hca & Hsnap).
  by eapply IH.
Qed.

Lemma foldr_max_le (l : list nat) n :
  Forall (fun x => x <= n) l -> foldr max 0 l <= n.
Proof. induction 1; simpl; lia. Qed.

Lemma snapshot_depth h :
  heap_ok h -> levels_ok h ->
  forall n a t, snapshot n h a = Some t ->
    (Z.of_nat (tree_depth t) + Section.level t <= 7)%Z.
Proof.
  intros Hh Hl n. induction n as [|n IH]; intros a t Ht; [done|].
  destruct (snapshot_root _ _ _ _ Ht) as (o & Ho & _ & _ & _ & Hlev & Hsubs).
  simpl in Hsubs. destruct t as [nm rn ct lv subs]. simpl in *. subst lv.
  assert (Hb : Forall (fun x => x <= 6 - Z.to_nat (Obj.level o))
                 (map tree_depth subs)).
  { apply Forall_forall. intros x Hx.
    apply list_elem_of_fmap in Hx as (c & -> & Hc).
    apply list_elem_of_lookup in Hc as [i Hi].
    destruct (Forall2_lookup_r _ _ _ _ _ Hsubs Hi) as (ca & Hca & Hsnap).
    pose proof (IH _ _ Hsnap) as Hd.
    destruct (snapshot_root _ _ _ _ Hsnap) as (oc & Hoc & _ & _ & _ & Hlevc & _).
    destruct (Hh a o ca Ho) as [_ Hlt]; [by eapply list_elem_of_lookup_2|].
    unfold level_at in Hlt. rewrite Hoc in Hlt.
    pose proof (Hl _ _ Ho). lia. }
  apply foldr_max_le in Hb. pose proof (Hl _ _ Ho). lia.
Qed.

(** X12.  In the Document a parse returns every section, at any depth, has a
    level from 1 to 6, and below a section of level l the tree is at most
    6 - l sections deep: no tree is deeper than six sections. *)
Theorem levels_and_depth p now stem lines title :
  reachable p ->
  exists doc,
    parsed_by p now stem lines title = Some doc
    /\ forall root s,
         root ∈ Document.sections doc -> in_tree s root ->
         (1 <= Section.level s <= 6)%Z
         /\ (Z.of_nat (tree_depth s) <= 7 - Section.level s)%Z.
Proof.
  intros Hr. pose proof (reachable_levels p Hr) as Hl.
  apply reachable_ok in Hr.
  destruct (parsed_by_spec p now stem lines title Hr)
    as (d & doc & _ & Hd & Hok & _ & Hp & _ & _ & _ & _ & _ & Hsecs).
  exists doc. split; [done|]. intros root s Hroot Hin.
  apply (levels_ok_parse_lines now stem lines title) in Hl; [|done].
  apply list_elem_of_lookup in Hroot as [i Hi].
  destruct (Forall2_lookup_r _ _ _ _ _ Hsecs Hi) as (a & Ha & Hsnap).
  destruct (snapshot_in_tree _ _ _ _ _ Hsnap Hin) as (m & b & Hs).
  destruct (snapshot_root _ _ _ _ Hs) as (o & Ho & _ & _ & _ & Hlev & _).
  split; [rewrite Hlev; by eapply Hl|].
  pose proof (snapshot_depth _ (proj1 Hok) Hl _ _ _ Hs). lia.
Qed.

Lemma levels_and_depth_witness :
  exists doc,
    parsed_by init (py "now") (py "Doc")
      [py "####### Deep"; py "## A"; py "### B"] None = Some doc
    /\ forall root s,
         root ∈ Document.sections doc -> in_tree s root ->
         (1 <= Section.level s <= 6)%Z
         /\ (Z.of_nat (tree_depth s) <= 7 - Section.level s)%Z.
Proof.
  exact (levels_and_depth init (py "now") (py "Doc")
           [py "####### Deep"; py "## A"; py "### B"] None reachable_init).
Defined.

(** ** Sections and headings *)

Lemma fmap_alter_same {A B} (f : A -> B) (g : A -> A) i (l : list A) :
  (forall x, f (g x) = f x) -> f <$> alter g i l = f <$> l.
Proof.
  intros H. revert i. induction l as [|x l IH]; intros [|i]; simpl; try done.
  - by rewrite H.
  - f_equal. apply IH.
Qed.

Lemma flush_content_frames cc p :
  frame <$> heap (flush_content cc p) = frame <$> heap p.
Proof.
  unfold flush_content. destruct cc; [done|].
  destruct (current_section p); [|done]. simpl. by apply fmap_alter_same.
Qed.

Lemma entry_frames (h h' : heap_t) : frame <$> h = frame <$> h' -> entry <$> h = entry <$> h'.
Proof.
  intros H.
  assert (E : forall k : heap_t,
            entry <$> k = (fun f : str * str * Z * list addr =>
                            (f.1.1.2, f.1.2, f.1.1.1)) <$> (frame <$> k)).
  { intros k. rewrite <- list_fmap_compose. done. }
  by rewrite !E, H.
Qed.

Lemma _process_section_header_entries t l n p :
  entry <$> heap (_process_section_header t l n p)
  = (entry <$> heap p)
    ++ (if (l =? 1)%Z && negb (seen_document_title p) then []
        else
          let raw := strip (if truthy n then default [] n ++ py " " ++ t else t) in
          [(raw, l, _clean_section_name raw)]).
Proof.
  unfold _process_section_header.
  destruct (_ && _); [by rewrite app_nil_r|].
  set (o := Obj.mk _ _ _ _ _).
  assert (H : entry <$> (heap p ++ [o]) = (entry <$> heap p) ++ [entry o])
    by (by rewrite fmap_app).
  destruct (l =? 1)%Z; [done|]. simpl.
  destruct (find_parent _ _ _ _) as [i|]; [|done].
  destruct (_ !! i); [|done]. simpl. by rewrite fmap_alter_same.
Qed.

Lemma step_entries p cc raw :
  entry <$> heap (fst (step (p, cc) raw))
  = (entry <$> heap p)
    ++ match re_match SECTION_HEADER_PATTERN (rstrip raw) with
       | Some m =>
           if (length (default [] (group 1 m)) =? 1) && negb (seen_document_title p)
           then []
           else [(header_raw_name m, Z.of_nat (length (default [] (group 1 m))),
                  _clean_section_name (header_raw_name m))]
       | None => []
       end.
Proof.
  destruct (step_cases p raw) as [[m Hm]|[Ht|[Hb|(Hm & Ht & Hb)]]].
  - rewrite (step_header _ _ _ _ Hm), Hm. simpl.
    rewrite _process_section_header_entries, flush_content_seen.
    rewrite (entry_frames _ _ (flush_content_frames cc p)).
    f_equal.
    replace (Z.of_nat (length (default [] (group 1 m))) =? 1)%Z
      with (length (default [] (group 1 m)) =? 1); [done|].
    destruct (Z.eqb_spec (Z.of_nat (length (default [] (group 1 m)))) 1),
      (Nat.eqb_spec (length (default [] (group 1 m))) 1); try done; lia.
  - rewrite (step_table_line _ _ _ Ht), (table_line_not_header _ Ht), app_nil_r.
    destruct (nonempty cc && negb (is_in_table p)); simpl; [|done].
    apply entry_frames, flush_content_frames.
  - rewrite (step_blank_in_table _ _ _ Hb). simpl.
    apply andb_true_iff in Hb as [_ Hb].
    by rewrite (is_blank_not_header _ Hb), app_nil_r, _process_table_buffer_heap.
  - rewrite (step_text _ _ _ Hm Ht Hb), Hm, app_nil_r. simpl.
    by destruct (re_match REFERENCE_PATTERN _).
Qed.

Lemma foldl_entries lines p cc :
  entry <$> heap (fst (foldl step (p, cc) lines))
  = (entry <$> heap p) ++ headings (seen_document_title p) lines.
Proof.
  revert p cc. induction lines as [|raw lines IH]; intros p cc; simpl.
  - by rewrite app_nil_r.
  - pose proof (step_entries p cc raw) as Hs.
    pose proof (seen_step p cc raw) as Hseen.
    destruct (step (p, cc) raw) as [p1 cc1]. simpl in *.
    rewrite IH, Hs, Hseen, <- app_assoc. f_equal.
    unfold is_title_line.
    destruct (re_match SECTION_HEADER_PATTERN (rstrip raw)) as [m|] eqn:Hm.
    + rewrite (header_level_match _ _ Hm).
      destruct (length (default [] (group 1 m))) as [|[|k]] eqn:El; simpl.
      * by rewrite orb_false_r.
      * destruct (seen_document_title p); simpl; done.
      * by rewrite orb_false_r.
    + unfold header_level. rewrite Hm. simpl. by rewrite orb_false_r.
Qed.

Lemma parse_lines_entries now stem lines title p :
  entry <$> heap (fst (parse_lines now stem lines title p))
  = (entry <$> heap p) ++ headings (seen_document_title p) lines.
Proof.
  rewrite parse_lines_after. unfold _finalize_parsing. simpl.
  assert (H : forall q, entry <$> heap (if is_in_table q && nonempty (table_buffer q)
                                       then _process_table_buffer [] q else q)
                        = entry <$> heap q).
  { intros q. destruct (_ && _); [by rewrite _process_table_buffer_heap|done]. }
  rewrite H, (entry_frames _ _ (flush_content_frames _ _)).
  unfold after_lines. by rewrite foldl_entries.
Qed.

(** X13.  The Section objects a parse creates are, in order, those of the
    headings of the file, each with the level, the raw name and the cleaned
    name of its heading; only the first level-1 heading met by a parser
    that has met none before gives no Section.  Objects that existed before
    keep their place.  A file that does not exist creates none. *)
Theorem sections_are_the_headings now stem file title p :
  entry <$> heap (fst (parse_file now stem file title p))
  = (entry <$> heap p)
    ++ match file with
       | Some lines => headings (seen_document_title p) lines
       | None => []
       end.
Proof.
  destruct file as [lines|]; simpl; [apply parse_lines_entries|].
  by rewrite app_nil_r.
Qed.

(** ** The outline *)

Lemma outline_parent_ext h h' a c :
  (forall x, level_at h' x = level_at h x) ->
  outline_parent h' a c <-> outline_parent h a c.
Proof.
  intros E. unfold outline_parent.
  split; intros (H1 & H2 & H3); (split; [done|]);
    (split; [by rewrite ?E in *|]); intros b Hb; specialize (H3 b Hb);
    by rewrite ?E in *.
Qed.

Lemma visible_ext h h' a :
  length h' = length h -> (forall x, level_at h' x = level_at h x) ->
  visible h' a <-> visible h a.
Proof.
  intros El E. unfold visible. rewrite El.
  split; intros (H1 & H2); (split; [done|]); intros b Hb;
    specialize (H2 b Hb); by rewrite ?E in *.
Qed.

Lemma outline_parent_old h o a c :
  c < length h -> outline_parent (h ++ [o]) a c <-> outline_parent h a c.
Proof.
  intros Hc. unfold outline_parent.
  split; intros (H1 & H2 & H3); (split; [done|]).
  - rewrite !level_at_app_l in H2 by lia. split; [done|].
    intros b Hb. specialize (H3 b Hb). by rewrite !level_at_app_l in H3 by lia.
  - rewrite !level_at_app_l by lia. split; [done|].
    intros b Hb. specialize (H3 b Hb). by rewrite !level_at_app_l by lia.
Qed.

Lemma visible_app h o a :
  a < length h ->
  visible (h ++ [o]) a <-> visible h a /\ (level_at h a < Obj.level o)%Z.
Proof.
  intros Ha. unfold visible. rewrite length_app. simpl. split.
  - intros (_ & H). split; [split; [done|]|].
    + intros b Hb. specialize (H b). rewrite !level_at_app_l in H by lia.
      apply H. lia.
    + specialize (H (length h)).
      rewrite level_at_app_l, level_at_new in H by lia. apply H. lia.
  - intros ((_ & H) & Hl). split; [lia|]. intros b Hb.
    rewrite level_at_app_l by lia.
    destruct (decide (b = length h)) as [->|Hne].
    + by rewrite level_at_new.
    + rewrite level_at_app_l by lia. apply H. lia.
Qed.

Lemma visible_new h o : visible (h ++ [o]) (length h).
Proof. split; [rewrite length_app; simpl; lia|]. rewrite length_app. simpl. lia. Qed.

Lemma parent_of_new_visible h o a :
  outline_parent (h ++ [o]) a (length h) ->
  visible h a /\ (level_at h a < Obj.level o)%Z.
Proof.
  intros (H1 & H2 & H3). rewrite level_at_new in H2, H3.
  rewrite level_at_app_l in H2 by lia. split; [|done].
  split; [lia|]. intros b Hb. specialize (H3 b Hb).
  rewrite level_at_app_l in H3 by lia. lia.
Qed.

Lemma outline_parent_unique h a a' c :
  outline_parent h a c -> outline_parent h a' c -> a = a'.
Proof.
  intros (H1 & H2 & H3) (H1' & H2' & H3').
  destruct (lt_eq_lt_dec a a') as [[Hlt|]|Hlt]; [|done|].
  - specialize (H3 a'). lia.
  - specialize (H3' a). lia.
Qed.

Lemma edge_alloc h o a x :
  Obj.subsections o = [] -> edge (h ++ [o]) a x <-> edge h a x.
Proof.
  intros Ho. split; intros (o' & Hl & Hx).
  - apply lookup_app_Some in Hl as [Hl|[_ Hl]]; [by exists o'|].
    apply list_lookup_singleton_Some in Hl as [_ <-].
    rewrite Ho in Hx. by apply elem_of_nil in Hx.
  - exists o'. split; [|done]. by apply lookup_app_l_Some.
Qed.

Lemma edge_add_subsection h q c a x :
  q < length h ->
  edge (alter (Obj.add_subsection c) q h) a x <-> edge h a x \/ (a = q /\ x = c).
Proof.
  intros Hq. destruct (lookup_lt_is_Some_2 h q Hq) as [oq Hoq].
  unfold edge. destruct (decide (a = q)) as [->|Hne].
  - rewrite list_lookup_alter_eq, Hoq. simpl. split.
    + intros (o' & [= <-] & Hx). simpl in Hx.
      apply elem_of_app in Hx as [Hx|Hx]; [left; by exists oq|].
      right. apply list_elem_of_singleton in Hx. done.
    + intros [(o' & [= <-] & Hx)|[_ ->]]; eexists; (split; [done|]); simpl;
        apply elem_of_app; [by left|right; by apply list_elem_of_singleton].
  - rewrite list_lookup_alter_ne by done. split; [by left|].
    intros [H|[? _]]; done.
Qed.

Lemma edge_alter_same f q h a x :
  (forall o, Obj.subsections (f o) = Obj.subsections o) ->
  edge (alter f q h) a x <-> edge h a x.
Proof.
  intros Hf. unfold edge. destruct (decide (a = q)) as [->|Hne].
  - rewrite list_lookup_alter_eq. destruct (h !! q) as [oq|]; simpl.
    + split; intros (o' & [= <-] & Hx); eexists; (split; [done|]);
        by rewrite ?Hf in *.
    + split; intros (o' & ? & _); done.
  - by rewrite list_lookup_alter_ne by done.
Qed.

Lemma find_parent_None h stack level n :
  find_parent h stack level n = None ->
  forall i a, i < n -> stack !! i = Some a -> ~ (level_at h a < level)%Z.
Proof.
  induction n as [|n IH]; simpl; intros Hf i a Hi Ha; [lia|].
  destruct (stack !! n) as [b|] eqn:Hb.
  - destruct (level_at h b <? level)%Z eqn:E; [done|].
    destruct (decide (i = n)) as [->|Hne].
    + simplify_eq. apply Z.ltb_ge in E. lia.
    + apply (IH Hf i a); [lia|done].
  - destruct (decide (i = n)) as [->|Hne]; [congruence|].
    apply (IH Hf i a); [lia|done].
Qed.

Lemma find_parent_last h stack level n i :
  find_parent h stack level n = Some i ->
  forall j b, i < j < n -> stack !! j = Some b -> ~ (level_at h b < level)%Z.
Proof.
  induction n as [|n IH]; simpl; intros Hf j b Hj Hb; [lia|].
  destruct (stack !! n) as [b'|] eqn:Hb'.
  - destruct (level_at h b' <? level)%Z eqn:E.
    + injection Hf as <-. lia.
    + destruct (decide (j = n)) as [->|Hne].
      * simplify_eq. apply Z.ltb_ge in E. lia.
      * apply (IH Hf j b); [lia|done].
  - destruct (decide (j = n)) as [->|Hne]; [congruence|].
    apply (IH Hf j b); [lia|done].
Qed.

(** Changes that keep levels, subsection lists, stack and sections keep
    the outline. *)
Lemma outline_ok_ext n0 p q :
  length (heap q) = length (heap p) ->
  (forall a, level_at (heap q) a = level_at (heap p) a) ->
  (forall a x, edge (heap q) a x <-> edge (heap p) a x) ->
  levels_ok (heap q) ->
  section_stack q = section_stack p -> sections_of q = sections_of p ->
  is_Some (document q) ->
  outline_ok n0 p -> outline_ok n0 q.
Proof.
  intros El Elev Eedge Hl Es Ed Hdoc (_ & Hn & (_ & Hsort & Hvis & Hpar) & Hroot).
  split; [done|]. split; [lia|]. split; [split; [done|split; [|split]]|].
  - by rewrite Es.
  - intros a. by rewrite Es, Hvis, (visible_ext (heap p) (heap q)).
  - intros a c Hc. rewrite El in Hc.
    by rewrite (outline_parent_ext (heap p) (heap q)), Eedge, Hpar.
  - intros c. rewrite Ed, Hroot, El. split; intros [? H]; (split; [done|]);
      intros a; specialize (H a);
      by rewrite (outline_parent_ext (heap p) (heap q)) in *.
Qed.

Lemma outline_ok_flush n0 cc p :
  outline_ok n0 p -> outline_ok n0 (flush_content cc p).
Proof.
  intros H. unfold flush_content. destruct cc; [done|].
  destruct (current_section p) as [a|]; [|done].
  apply (outline_ok_ext n0 p); simpl; try done.
  - apply length_alter.
  - intros x. by apply level_at_alter.
  - intros x y. by apply edge_alter_same.
  - apply levels_ok_alter; [done|]. apply H.
  - apply H.
Qed.

Lemma outline_ok_table n0 c p :
  outline_ok n0 p -> outline_ok n0 (_process_table_buffer c p).
Proof.
  intros H. apply (outline_ok_ext n0 p); try done.
  - by rewrite _process_table_buffer_heap.
  - by rewrite _process_table_buffer_heap.
  - by rewrite _process_table_buffer_heap.
  - rewrite _process_table_buffer_heap. apply H.
  - apply _process_table_buffer_stack.
  - apply _process_table_buffer_sections.
  - destruct (grows_process_table_buffer c p) as [Hd _]. apply Hd, H.
Qed.

Lemma outline_ok_reference n0 r p :
  outline_ok n0 p -> outline_ok n0 (with_document (Doc.add_reference r) p).
Proof.
  intros H. apply (outline_ok_ext n0 p); simpl; try done.
  - apply H.
  - unfold sections_of. simpl. by destruct (document p).
  - destruct H as [[d ->] _]. by eexists.
Qed.

(** A new section that goes to the top level. *)
Lemma outline_ok_root n0 p o :
  parser_ok p -> outline_ok n0 p ->
  (1 <= Obj.level o <= 6)%Z -> Obj.subsections o = [] ->
  (forall a, a ∈ section_stack p -> ~ (level_at (heap p) a < Obj.level o)%Z) ->
  outline_ok n0
    (set_current_section (length (heap p))
       (set_section_stack [length (heap p)]
          (with_document (Doc.add_section (length (heap p))) (alloc o p)))).
Proof.
  intros (Hh & (Hst & _ & Hsec) & _) ([d Hd] & Hn & (Hl & Hsort & Hvis & Hpar) & Hroot)
    Hlev Hsub Hnone.
  assert (Hnopar : forall a, ~ outline_parent (heap p ++ [o]) a (length (heap p))).
  { intros a Ha. apply parent_of_new_visible in Ha as [Hv Hlt].
    apply Hvis in Hv. by apply (Hnone a). }
  split; [|split; [|split; [split; [|split; [|split]]|]]]; simpl.
  - rewrite Hd. by eexists.
  - rewrite length_app. lia.
  - by apply levels_ok_alloc.
  - intros [|i] [|j] a b Hij Ha Hb; simplify_eq/=; lia.
  - intros a. rewrite list_elem_of_singleton. split.
    + intros ->. apply visible_new.
    + intros Hv. destruct (decide (a < length (heap p))) as [Ha|Ha].
      * apply visible_app in Hv as [Hv Hlt]; [|done].
        apply Hvis in Hv. by destruct (Hnone a).
      * destruct Hv as [Hv _]. rewrite length_app in Hv. simpl in Hv. lia.
  - intros a c. rewrite length_app. simpl. intros Hc.
    destruct (decide (c = length (heap p))) as [->|Hne].
    + split; [by intros ?%Hnopar|].
      intros He. apply edge_alloc in He as (oa & Hoa & Hx); [|done].
      destruct (Hh _ _ _ Hoa Hx). lia.
    + rewrite outline_parent_old, edge_alloc by (done || lia).
      apply Hpar. lia.
  - intros c. unfold sections_of in *. simpl. rewrite Hd in *. simpl in *.
    rewrite elem_of_app, list_elem_of_singleton, length_app. simpl. split.
    + intros [Hc| ->].
      * apply Hroot in Hc as [Hc Hno]. split; [lia|]. intros a.
        rewrite outline_parent_old by lia. apply Hno.
      * split; [lia|]. apply Hnopar.
    + intros [Hc Hno]. destruct (decide (c = length (heap p))) as [->|Hne];
        [by right|].
      left. apply Hroot. split; [lia|]. intros a Ha.
      apply (Hno a). apply outline_parent_old; [lia|done].
Qed.

(** A new section that goes below the entry [i] of the stack. *)
Lemma outline_ok_child n0 p o i q :
  parser_ok p -> outline_ok n0 p ->
  (1 <= Obj.level o <= 6)%Z -> Obj.subsections o = [] ->
  section_stack p !! i = Some q ->
  (level_at (heap p) q < Obj.level o)%Z ->
  (forall j b, i < j -> section_stack p !! j = Some b ->
     ~ (level_at (heap p) b < Obj.level o)%Z) ->
  outline_ok n0
    (set_current_section (length (heap p))
       (set_section_stack (take (S i) (section_stack p) ++ [length (heap p)])
          (update_obj q (Obj.add_subsection (length (heap p))) (alloc o p)))).
Proof.
  intros (Hh & (Hst & _ & Hsec) & _) ([d Hd] & Hn & (Hl & Hsort & Hvis & Hpar) & Hroot)
    Hlev Hsub Hq Hqlev Hlast.
  set (c := length (heap p)).
  assert (Hqc : q < c).
  { rewrite Forall_forall in Hst. apply Hst. by eapply list_elem_of_lookup_2. }
  assert (Hqv : visible (heap p) q).
  { apply Hvis. by eapply list_elem_of_lookup_2. }
  assert (Hi : i < length (section_stack p)) by (by eapply lookup_lt_Some).
  assert (Hbetween : forall k b, c - b <= k -> q < b < c ->
            (Obj.level o <= level_at (heap p) b)%Z).
  { induction k as [|k IH]; intros b Hk Hb; [lia|].
    destruct (Z_lt_le_dec (level_at (heap p) b) (Obj.level o)) as [Hlt|]; [|done].
    assert (Hbv : visible (heap p) b).
    { split; [lia|]. intros x Hx.
      assert (Obj.level o <= level_at (heap p) x)%Z by (apply IH; lia). lia. }
    apply Hvis, list_elem_of_lookup in Hbv as [j Hj].
    destruct (decide (i < j)) as [Hij|Hij]; [by destruct (Hlast j b)|].
    destruct (decide (j = i)) as [->|Hne]; [simplify_eq; lia|].
    assert (b < q) by (apply (Hsort j i); [lia|done|done]). lia. }
  assert (Hparent : outline_parent (heap p ++ [o]) q c).
  { split; [done|]. rewrite level_at_new, level_at_app_l by done.
    split; [done|]. intros b Hb. rewrite level_at_app_l by lia.
    apply (Hbetween (c - b)); [lia|done]. }
  assert (Elev : forall x,
            level_at (alter (Obj.add_subsection c) q (heap p ++ [o])) x
            = level_at (heap p ++ [o]) x).
  { intros x. by apply level_at_alter. }
  assert (Hq1 : q < length (heap p ++ [o])) by (rewrite length_app; lia).
  split; [|split; [|split; [split; [|split; [|split]]|]]]; simpl.
  - rewrite Hd. by eexists.
  - rewrite length_alter, length_app. lia.
  - apply levels_ok_alter; [done|]. by apply levels_ok_alloc.
  - intros i1 j1 a b Hij Ha Hb.
    apply lookup_app_Some in Ha as [Ha|[Hlen Ha]].
    + apply lookup_take_Some in Ha as [Ha Hi1].
      apply lookup_app_Some in Hb as [Hb|[_ Hb]].
      * apply lookup_take_Some in Hb as [Hb _]. by apply (Hsort i1 j1).
      * apply list_lookup_singleton_Some in Hb as [_ <-].
        rewrite Forall_forall in Hst. apply Hst. by eapply list_elem_of_lookup_2.
    + apply list_lookup_singleton_Some in Ha as [Ha _].
      apply lookup_app_Some in Hb as [Hb|[Hlen' Hb]].
      * apply lookup_lt_Some in Hb. lia.
      * apply list_lookup_singleton_Some in Hb as [Hb _]. lia.
  - intros a.
    rewrite (visible_ext (heap p ++ [o])) by (by rewrite ?length_alter).
    rewrite elem_of_app, list_elem_of_singleton. split.
    + intros [Ha| ->]; [|apply visible_new].
      apply list_elem_of_lookup in Ha as [j Hj].
      apply lookup_take_Some in Hj as [Hj Hji].
      assert (Hav : visible (heap p) a).
      { apply Hvis. by eapply list_elem_of_lookup_2. }
      apply visible_app; [apply Hav|]. split; [done|].
      destruct (decide (j = i)) as [->|Hne]; [by simplify_eq|].
      assert (a < q) by (apply (Hsort j i); [lia|done|done]).
      destruct Hav as [_ Hav]. specialize (Hav q). lia.
    + intros Hv. destruct (decide (a < c)) as [Ha|Ha].
      * left. apply visible_app in Hv as [Hv Hlt]; [|done].
        apply Hvis, list_elem_of_lookup in Hv as [j Hj].
        destruct (decide (i < j)) as [Hij|Hij]; [by destruct (Hlast j a)|].
        apply (list_elem_of_lookup_2 _ j). apply lookup_take_Some. split; [done|lia].
      * right. destruct Hv as [Hv _]. rewrite length_app in Hv. simpl in Hv.
        unfold c. lia.
  - intros a x. rewrite length_alter, length_app. simpl. intros Hx.
    rewrite (outline_parent_ext (heap p ++ [o])) by done.
    rewrite edge_add_subsection, edge_alloc by done.
    destruct (decide (x = c)) as [->|Hne].
    + split.
      * intros Ha. right. split; [|done].
        by apply (outline_parent_unique _ _ _ _ Ha Hparent).
      * intros [(oa & Hoa & Hxa)|[-> _]]; [|done].
        destruct (Hh _ _ _ Hoa Hxa). unfold c in *. lia.
    + rewrite outline_parent_old by (unfold c in *; lia).
      rewrite Hpar by (unfold c in *; lia).
      split; [by left|]. intros [H|[_ ?]]; done.
  - intros x. unfold sections_of in *. simpl. rewrite Hd in *. simpl in *.
    rewrite length_alter, length_app. simpl. rewrite Hroot. split.
    + intros [Hx Hno]. split; [lia|]. intros a.
      rewrite (outline_parent_ext (heap p ++ [o])) by done.
      rewrite outline_parent_old by lia. apply Hno.
    + intros [Hx Hno]. destruct (decide (x = c)) as [->|Hne].
      * destruct (Hno q). by rewrite (outline_parent_ext (heap p ++ [o])).
      * split; [unfold c in *; lia|]. intros a Ha. apply (Hno a).
        rewrite (outline_parent_ext (heap p ++ [o])) by done.
        apply outline_parent_old; [unfold c in *; lia|done].
Qed.

Lemma outline_ok_header n0 t l n p :
  parser_ok p -> (1 <= l <= 6)%Z -> outline_ok n0 p ->
  outline_ok n0 (_process_section_header t l n p).
Proof.
  intros Hok Hl Hinv. pose proof Hok as (Hh & (Hst & _ & _) & _).
  unfold _process_section_header.
  destruct (_ && _); [exact Hinv|].
  set (o := Obj.mk _ _ _ _ _).
  assert (Hlift : forall a, a ∈ section_stack p ->
            level_at (heap p ++ [o]) a = level_at (heap p) a).
  { intros a Ha. apply level_at_app_l.
    rewrite Forall_forall in Hst. by apply Hst. }
  destruct (l =? 1)%Z eqn:El.
  - apply Z.eqb_eq in El. apply outline_ok_root; try done.
    intros a Ha. simpl. destruct Hinv as (_ & _ & (Hlv & _) & _).
    rewrite Forall_forall in Hst. specialize (Hst a Ha).
    destruct (lookup_lt_is_Some_2 _ _ Hst) as [oa Hoa].
    unfold level_at. rewrite Hoa. pose proof (Hlv _ _ Hoa). lia.
  - simpl. destruct (find_parent _ _ _ _) as [i|] eqn:Hf.
    + pose proof (find_parent_last _ _ _ _ _ Hf) as Hlast.
      apply find_parent_Some in Hf as (Hi & q & Hq & Hlev).
      rewrite Hq. apply outline_ok_child; try done.
      * rewrite <- Hlift; [done|]. by eapply list_elem_of_lookup_2.
      * intros j b Hij Hb. simpl. rewrite <- Hlift by (by eapply list_elem_of_lookup_2).
        apply (Hlast j b); [|done]. split; [done|]. by eapply lookup_lt_Some.
    + apply outline_ok_root; try done.
      intros a Ha. simpl. rewrite <- Hlift by done.
      apply list_elem_of_lookup in Ha as [j Hj].
      apply (find_parent_None _ _ _ _ Hf j a); [|done]. by eapply lookup_lt_Some.
Qed.

Lemma outline_ok_parse_lines now stem lines title p :
  parser_ok p -> tree_ok p ->
  outline_ok (length (heap p)) (fst (parse_lines now stem lines title p)).
Proof.
  intros Hok Ht.
  apply (invariant_parse_lines (outline_ok (length (heap p)))).
  - intros q cc _. apply outline_ok_flush.
  - intros q t l n. apply outline_ok_header.
  - intros q c _. apply outline_ok_table.
  - by intros q buf flag H.
  - intros q r. apply outline_ok_reference.
  - done.
  - split; [by eexists|]. split; [done|]. split; [done|].
    intros c. unfold sections_of. simpl. rewrite elem_of_nil. split; [done|].
    intros [? _]. lia.
Qed.

Lemma outline_ok_raising now stem pre title p :
  parser_ok p -> tree_ok p ->
  outline_ok (length (heap p)) (parse_file_raising now stem pre title p).
Proof.
  intros Hok Ht. unfold parse_file_raising.
  apply (invariant_foldl (outline_ok (length (heap p)))).
  - intros q cc _. apply outline_ok_flush.
  - intros q t l n. apply outline_ok_header.
  - intros q c _. apply outline_ok_table.
  - by intros q buf flag H.
  - intros q r. apply outline_ok_reference.
  - by apply set_document_ok.
  - split; [by eexists|]. split; [done|]. split; [done|].
    intros c. unfold sections_of. simpl. rewrite elem_of_nil. split; [done|].
    intros [? _]. lia.
Qed.

Lemma reachable_tree_ok p : reachable p -> tree_ok p.
Proof.
  induction 1 as [|now stem file title p Hr IH|now stem pre title p Hr IH].
  - split; [by intros a o|]. split; [by intros i j a b|]. split.
    + intros a. split; [by intros ?%elem_of_nil|]. intros [H _]. simpl in H. lia.
    + intros a c Hc. simpl in Hc. lia.
  - destruct file as [lines|]; simpl; [|done].
    apply (outline_ok_parse_lines now stem lines title p); [|done].
    by apply reachable_ok.
  - apply (outline_ok_raising now stem pre title p); [|done].
    by apply reachable_ok.
Qed.

(** X14.  After a parse the Section objects form the outline of the headings:
    a Section is listed as a subsection by the closest earlier Section
    with a lower level, and by no other; the sections of the returned
    Document are the Sections made by this parse that have no earlier
    Section with a lower level before them. *)
Theorem sections_form_the_outline p now stem lines title c :
  reachable p ->
  c < length (heap (fst (parse_file now stem (Some lines) title p))) ->
  (forall a,
     edge (heap (fst (parse_file now stem (Some lines) title p))) a c
     <-> outline_parent (heap (fst (parse_file now stem (Some lines) title p))) a c)
  /\ (c ∈ sections_of (fst (parse_file now stem (Some lines) title p))
      <-> length (heap p) <= c
          /\ forall a,
               ~ outline_parent
                   (heap (fst (parse_file now stem (Some lines) title p))) a c).
Proof.
  intros Hr Hc. simpl in *.
  destruct (outline_ok_parse_lines now stem lines title p
              (reachable_ok p Hr) (reachable_tree_ok p Hr))
    as (_ & _ & (_ & _ & _ & Hpar) & Hroot).
  split.
  - intros a. symmetry. by apply Hpar.
  - rewrite Hroot. split; [intros [? ?]; split; [lia|done]|].
    intros [? ?]. split; [lia|done].
Qed.

Lemma sections_form_the_outline_witness :
  (forall a,
     edge (heap (fst (parse_file (py "now") (py "Doc")
                        (Some [py "## A"; py "#### B"; py "### C"; py "## D"])
                        None init))) a 2
     <-> outline_parent
           (heap (fst (parse_file (py "now") (py "Doc")
                         (Some [py "## A"; py "#### B"; py "### C"; py "## D"])
                         None init))) a 2)
  /\ (2 ∈ sections_of
            (fst (parse_file (py "now") (py "Doc")
                    (Some [py "## A"; py "#### B"; py "### C"; py "## D"])
                    None init))
      <-> length (heap init) <= 2
          /\ forall a,
               ~ outline_parent
                   (heap (fst (parse_file (py "now") (py "Doc")
                                 (Some [py "## A"; py "#### B"; py "### C"; py "## D"])
                                 None init))) a 2).
Proof.
  apply (sections_form_the_outline init (py "now") (py "Doc")
           [py "## A"; py "#### B"; py "### C"; py "## D"] None 2 reachable_init).
  vm_compute. lia.
Defined.

(** ** From memory to the returned tree *)

Lemma in_tree_trans x y z : in_tree x y -> in_tree y z -> in_tree x z.
Proof.
  intros Hxy Hyz. induction Hyz as [|z c Hc Hyc IH]; [done|].
  by eapply in_tree_below.
Qed.

Lemma reach_in_tree h roots secs N a :
  Forall2 (fun a s => snapshot N h a = Some s) roots secs ->
  reach h roots a ->
  exists root s n, root ∈ secs /\ in_tree s root /\ snapshot n h a = Some s.
Proof.
  intros Hsecs. induction 1 as [a Ha|a c Hr IH (o & Ho & Hc)].
  - apply list_elem_of_lookup in Ha as [i Hi].
    destruct (Forall2_lookup_l _ _ _ _ _ Hsecs Hi) as (s & Hs & Hsnap).
    exists s, s, N. split; [by eapply list_elem_of_lookup_2|].
    split; [apply in_tree_here|done].
  - destruct IH as (root & s & n & Hroot & Hin & Hsnap).
    destruct (snapshot_root _ _ _ _ Hsnap) as (o' & Ho' & _ & _ & _ & _ & Hsubs).
    simplify_eq. apply list_elem_of_lookup in Hc as [i Hi].
    destruct (Forall2_lookup_l _ _ _ _ _ Hsubs Hi) as (sc & Hsc & Hsnapc).
    exists root, sc, (pred n). split; [done|]. split; [|done].
    apply (in_tree_trans _ s); [|done].
    eapply in_tree_below; [by eapply list_elem_of_lookup_2|apply in_tree_here].
Qed.

(** The closest earlier section with a lower level can be looked for. *)
Lemma outline_parent_search h c k :
  k <= c ->
  (exists q, outline_parent h q c)
  \/ (forall b, c - k <= b < c -> (level_at h c <= level_at h b)%Z).
Proof.
  induction k as [|k IH]; intros Hk; [right; intros b Hb; lia|].
  destruct IH as [Hq|Hall]; [lia|by left|].
  destruct (Z_lt_le_dec (level_at h (c - S k)) (level_at h c)) as [Hlt|Hge].
  - left. exists (c - S k). split; [lia|]. split; [done|].
    intros b Hb. apply Hall. lia.
  - right. intros b Hb. destruct (decide (b = c - S k)) as [->|Hne]; [done|].
    apply Hall. lia.
Qed.

Lemma reach_all p :
  outline_ok 0 p ->
  forall a, a < length (heap p) -> reach (heap p) (sections_of p) a.
Proof.
  intros (_ & _ & (_ & _ & _ & Hpar) & Hroot) a.
  induction (lt_wf a) as [a _ IH]. intros Ha.
  destruct (outline_parent_search (heap p) a a) as [[q Hq]|Hno]; [done|..].
  - apply (reach_sub _ _ q).
    + apply IH; destruct Hq; lia.
    + by apply Hpar.
  - apply reach_root, Hroot. split; [lia|].
    intros q (Hqa & Hlt & _). specialize (Hno q). lia.
Qed.

(** X15.  The sections of the Document that [parse_document] returns, taken at
    every depth, are those of the headings of the file: each heading but
    the first of level 1 has a section with its raw name, level and cleaned
    name somewhere in the tree, and the tree has no other section. *)
Theorem tree_holds_the_headings now stem lines title :
  exists doc,
    parsed now stem lines title = Some doc
    /\ forall e,
         e ∈ headings false lines
         <-> exists root s,
               root ∈ Document.sections doc /\ in_tree s root
               /\ (Section.raw_name s, Section.level s, Section.name s) = e.
Proof.
  rewrite parsed_parsed_by.
  destruct (parsed_by_spec init now stem lines title parser_ok_init)
    as (d & doc & _ & Hd & Hok & _ & Hp & _ & _ & _ & _ & _ & Hsecs).
  exists doc. split; [done|].
  pose proof (parse_lines_entries now stem lines title init) as He.
  simpl in He.
  pose proof (outline_ok_parse_lines now stem lines title init parser_ok_init
                (reachable_tree_ok init reachable_init)) as Hout.
  simpl in Hout. set (p' := fst (parse_lines now stem lines title init)) in *.
  intros e. rewrite <- He. split.
  - intros Hin. apply list_elem_of_fmap in Hin as (o & -> & Ho).
    apply list_elem_of_lookup in Ho as [a Ha].
    pose proof (reach_all p' Hout a (lookup_lt_Some _ _ _ Ha)) as Hr.
    unfold sections_of in Hr. rewrite Hd in Hr. simpl in Hr.
    destruct (reach_in_tree _ _ _ _ _ Hsecs Hr) as (root & s & n & Hroot & Hin & Hs).
    exists root, s. split; [done|]. split; [done|].
    destruct (snapshot_root _ _ _ _ Hs) as (o' & Ho' & Hn & Hrn & _ & Hl & _).
    simplify_eq. unfold entry. by rewrite Hn, Hrn, Hl.
  - intros (root & s & Hroot & Hin & <-).
    apply list_elem_of_lookup in Hroot as [i Hi].
    destruct (Forall2_lookup_r _ _ _ _ _ Hsecs Hi) as (a & Ha & Hsnap).
    destruct (snapshot_in_tree _ _ _ _ _ Hsnap Hin) as (m & b & Hs).
    destruct (snapshot_root _ _ _ _ Hs) as (o & Ho & Hn & Hrn & _ & Hl & _).
    apply list_elem_of_fmap. exists o. split.
    + unfold entry. by rewrite Hn, Hrn, Hl.
    + by eapply list_elem_of_lookup_2.
Qed.

(** ** The content of the sections *)

Lemma join_joined cc : cc <> [] -> join [newline] cc ++ [newline] = joined cc.
Proof.
  induction cc as [|l cc IH]; [done|]. intros _.
  destruct cc as [|l' cc].
  - unfold joined. simpl. by rewrite app_nil_r.
  - change (join [newline] (l :: l' :: cc))
      with (l ++ [newline] ++ join [newline] (l' :: cc)).
    unfold joined in *. simpl in *. rewrite <- IH by done.
    by rewrite <- !app_assoc.
Qed.

Lemma joined_snoc cc l : joined (cc ++ [l]) = joined cc ++ l ++ [newline].
Proof. unfold joined. rewrite fmap_app, concat_app. simpl. by rewrite app_nil_r. Qed.

Lemma fmap_alter_comm {A B} (f : A -> B) (g : A -> A) (g' : B -> B) i (l : list A) :
  (forall x, f (g x) = g' (f x)) -> f <$> alter g i l = alter g' i (f <$> l).
Proof.
  intros H. revert i. induction l as [|x l IH]; intros [|i]; simpl; try done.
  - by rewrite H.
  - f_equal. apply IH.
Qed.

Lemma alter_app_nil (l : list str) a : alter (fun c => c ++ []) a l = l.
Proof.
  revert a. induction l as [|x l IH]; intros [|a]; simpl; try done.
  - by rewrite app_nil_r.
  - f_equal. apply IH.
Qed.

Lemma add_at_nil cur l : add_at cur [] l = l.
Proof. destruct cur; [apply alter_app_nil|done]. Qed.

Lemma add_at_add_at cur t1 t2 l :
  add_at cur t2 (add_at cur t1 l) = add_at cur (t1 ++ t2) l.
Proof.
  destruct cur as [a|]; [|done]. simpl. revert a.
  induction l as [|x l IH]; intros [|a]; simpl; try done.
  - by rewrite app_assoc.
  - f_equal. apply IH.
Qed.

Lemma add_at_new (l : list str) t : add_at (Some (length l)) t (l ++ [[]]) = l ++ [t].
Proof. simpl. induction l as [|x l IH]; simpl; [done|]. f_equal. apply IH. Qed.

Lemma flush_content_contents cc p :
  Obj.content <$> heap (flush_content cc p)
  = add_at (current_section p) (joined cc) (Obj.content <$> heap p).
Proof.
  unfold flush_content. destruct cc as [|l cc].
  - by rewrite add_at_nil.
  - destruct (current_section p) as [a|]; [|done]. simpl.
    rewrite <- join_joined by done. by apply fmap_alter_comm.
Qed.

Lemma _process_section_header_contents t l n q :
  if (l =? 1)%Z && negb (seen_document_title q)
  then _process_section_header t l n q = set_seen_document_title true q
  else Obj.content <$> heap (_process_section_header t l n q)
       = (Obj.content <$> heap q) ++ [[]]
       /\ current_section (_process_section_header t l n q) = Some (length (heap q))
       /\ seen_document_title (_process_section_header t l n q)
          = seen_document_title q.
Proof.
  pose proof (_process_section_header_seen t l n q) as Hseen.
  unfold _process_section_header in *.
  destruct ((l =? 1)%Z && negb (seen_document_title q)) eqn:E; [done|].
  set (o := Obj.mk _ _ _ _ _) in *.
  assert (H : Obj.content <$> (heap q ++ [o]) = (Obj.content <$> heap q) ++ [[]])
    by (by rewrite fmap_app).
  split; [|split].
  - destruct (l =? 1)%Z; [done|]. simpl.
    destruct (find_parent _ _ _ _) as [i|]; [|done].
    destruct (_ !! i); [|done]. simpl. by rewrite fmap_alter_same.
  - destruct (l =? 1)%Z; [done|]. simpl.
    destruct (find_parent _ _ _ _) as [i|]; [|done]. by destruct (_ !! i).
  - rewrite Hseen. destruct (l =? 1)%Z, (seen_document_title q); done.
Qed.

Lemma level_one_test (n : nat) : (Z.of_nat n =? 1)%Z = (n =? 1).
Proof. destruct (Z.eqb_spec (Z.of_nat n) 1), (Nat.eqb_spec n 1); try done; lia. Qed.

Lemma foldl_contents lines p cc :
  Obj.content <$> heap (flush_content (snd (foldl step (p, cc) lines))
                          (fst (foldl step (p, cc) lines)))
  = add_at (current_section p)
      (joined cc
       ++ fst (contents_from (seen_document_title p) (is_in_table p) lines))
      (Obj.content <$> heap p)
    ++ snd (contents_from (seen_document_title p) (is_in_table p) lines).
Proof.
  revert p cc. induction lines as [|raw lines IH]; intros p cc.
  - simpl. by rewrite !app_nil_r, flush_content_contents.
  - change (foldl step (p, cc) (raw :: lines))
      with (foldl step (step (p, cc) raw) lines).
    change (contents_from (seen_document_title p) (is_in_table p) (raw :: lines))
      with (match re_match SECTION_HEADER_PATTERN (rstrip raw) with
            | Some m =>
                if (length (default [] (group 1 m)) =? 1)
                   && negb (seen_document_title p)
                then contents_from true (is_in_table p) lines
                else ([], fst (contents_from (seen_document_title p) (is_in_table p) lines)
                          :: snd (contents_from (seen_document_title p) (is_in_table p) lines))
            | None =>
                if is_table_line (rstrip raw)
                then contents_from (seen_document_title p) true lines
                else if is_in_table p && is_blank (rstrip raw)
                then contents_from (seen_document_title p) false lines
                else (rstrip raw ++ [newline]
                        ++ fst (contents_from (seen_document_title p) (is_in_table p) lines),
                      snd (contents_from (seen_document_title p) (is_in_table p) lines))
            end).
    destruct (step_cases p raw) as [[m Hm]|[Ht|[Hb|(Hm & Ht & Hb)]]].
    + rewrite (step_header _ _ _ _ Hm), Hm, IH. clear IH.
      pose proof (_process_section_header_contents (default [] (group 3 m))
                    (Z.of_nat (length (default [] (group 1 m)))) (group 2 m)
                    (flush_content cc p)) as H.
      pose proof (_process_section_header_table_view (default [] (group 3 m))
                    (Z.of_nat (length (default [] (group 1 m)))) (group 2 m)
                    (flush_content cc p)) as [= _ Hflag _ _].
      pose proof (flush_content_table_view cc p) as [= _ Hflag' _ _].
      rewrite Hflag, Hflag'. clear Hflag Hflag'.
      rewrite level_one_test, flush_content_seen in H.
      destruct (_ && _).
      * rewrite H. simpl.
        by rewrite flush_content_current_section, flush_content_contents,
             add_at_add_at.
      * destruct H as (-> & -> & ->).
        rewrite <- (length_fmap Obj.content), add_at_new, flush_content_contents.
        cbn [fst snd]. change (joined [] ++ ?x) with x.
        by rewrite app_nil_r, <- app_assoc.
    + rewrite (step_table_line _ _ _ Ht), (table_line_not_header _ Ht), Ht.
      destruct (nonempty cc && negb (is_in_table p)).
      * rewrite IH. simpl.
        by rewrite flush_content_seen, flush_content_current_section,
             flush_content_contents, add_at_add_at.
      * by rewrite IH.
    + rewrite (step_blank_in_table _ _ _ Hb), Hb.
      pose proof Hb as [_ Hblank]%andb_true_iff.
      rewrite (is_blank_not_header _ Hblank), (is_blank_not_table_line _ Hblank).
      rewrite IH, _process_table_buffer_heap, _process_table_buffer_seen,
        _process_table_buffer_current_section.
      do 4 f_equal; unfold _process_table_buffer; by destruct (table_buffer p).
    + rewrite (step_text _ _ _ Hm Ht Hb), Hm, Ht, Hb. cbn zeta.
      set (p1 := match re_match REFERENCE_PATTERN (rstrip raw) with
                 | Some m => with_document _ p
                 | None => p
                 end).
      assert (E : heap p1 = heap p /\ current_section p1 = current_section p
                  /\ seen_document_title p1 = seen_document_title p
                  /\ is_in_table p1 = is_in_table p).
      { unfold p1. by destruct (re_match REFERENCE_PATTERN _). }
      destruct E as (Eh & Ec & Es & Ei). rewrite IH, Eh, Ec, Es, Ei. simpl.
      destruct (current_section p) as [a|]; simpl; [|done].
      by rewrite joined_snoc, <- !app_assoc.
Qed.

(** X16.  The content of the sections after a parse is the text of the file
    cut at the headings that make a section: the content of each new
    Section is the text between its heading and the next such heading,
    line by line in order, each line stripped on the right and followed by
    a line break; headings, table lines and the blank line that closes a
    table are no text.  The text before the first such heading is added to
    the section that was current before the parse, and is dropped when
    there was none. *)
Theorem contents_are_the_text now stem lines title p :
  Obj.content <$> heap (fst (parse_file now stem (Some lines) title p))
  = add_at (current_section p)
      (fst (contents_from (seen_document_title p) (is_in_table p) lines))
      (Obj.content <$> heap p)
    ++ snd (contents_from (seen_document_title p) (is_in_table p) lines).
Proof.
  simpl. rewrite parse_lines_after. unfold _finalize_parsing. simpl.
  assert (H : forall q, heap (if is_in_table q && nonempty (table_buffer q)
                              then _process_table_buffer [] q else q) = heap q).
  { intros q. destruct (_ && _); [by rewrite _process_table_buffer_heap|done]. }
  rewrite H. unfold after_lines. by rewrite foldl_contents.
Qed.

(** ** Tables and the groups of table lines *)

Lemma is_table_line_bar l :
  is_table_line l = true -> has_bar l = true /\ nonempty l = true.
Proof.
  intros H. destruct (first_is (ch_eqb (ch "|")) l) eqn:E.
  - destruct l as [|a l]; [done|].
    change (ch_eqb (ch "|") a = true) in E. split; [|done].
    change (has_bar (a :: l))
      with (ch_eqb (ch "|") a && true || contains (py "|") l).
    by rewrite E.
  - rewrite is_table_line_first in H by done. done.
Qed.

Lemma filter_all {A} (f : A -> bool) (l : list A) :
  Forall (fun x => f x = true) l -> List.filter f l = l.
Proof. induction 1 as [|x l Hx _ IH]; simpl; [done|]. by rewrite Hx, IH. Qed.

Lemma _process_table_buffer_block p d l buf :
  table_buffer p = l :: buf -> document p = Some d ->
  Forall (fun x => is_table_line x = true) (l :: buf) ->
  exists t,
    tables_of (_process_table_buffer [] p) = Doc.tables d ++ [t]
    /\ table_of_block t (l :: buf) /\ caption_ok t
    /\ table_buffer (_process_table_buffer [] p) = []
    /\ is_in_table (_process_table_buffer [] p) = false.
Proof.
  intros Hb Hd Hall. unfold _process_table_buffer. rewrite Hb.
  eexists. split; [|split; [|split; [|done]]].
  - unfold tables_of. simpl. rewrite Hd. reflexivity.
  - split; cbn [Table.headers Table.rows].
    + apply Forall_cons in Hall as [Hl _].
      apply is_table_line_bar in Hl as [-> _]. by rewrite andb_true_r.
    + destruct buf as [|x [|y r]]; [done|done|].
      change (2 <=? length (l :: x :: y :: r)) with true.
      change (2 <? length (l :: x :: y :: r)) with true.
      cbn [drop]. f_equal. apply filter_all.
      do 2 apply Forall_cons in Hall as [_ Hall].
      eapply Forall_impl; [exact Hall|]. intros z Hz. simpl in Hz.
      apply is_table_line_bar in Hz as [-> ->]. done.
  - exists (S (table_count p)). cbn [Table.id Table.caption].
    split; [done|]. simpl.
    destruct (current_section p) as [a|]; [|by left].
    destruct (heap p !! a) as [o|]; [|by left].
    unfold find_caption.
    destruct (List.find _ _) as [line|] eqn:E; [|by left].
    right. exists line. split; [|done]. by apply find_some in E as [_ E].
Qed.

Lemma foldl_tables lines p cc :
  is_Some (document p) -> buffer_flag_ok p ->
  Forall (fun x => is_table_line x = true) (table_buffer p) ->
  exists new,
    tables_of (fst (_finalize_parsing
                      (flush_content (snd (foldl step (p, cc) lines))
                         (fst (foldl step (p, cc) lines)))))
    = tables_of p ++ new
    /\ Forall2 (fun t b => table_of_block t b /\ caption_ok t) new
         (table_blocks (table_buffer p) lines).
Proof.
  revert p cc. induction lines as [|raw lines IH]; intros p cc [d Hd] Hflag Hall.
  - simpl. pose proof (flush_content_table_view cc p) as [= Hb Hf _ Ht].
    unfold _finalize_parsing. simpl. rewrite Hb, Hf, Hflag.
    destruct (table_buffer p) as [|l buf] eqn:E; simpl.
    + exists []. by rewrite app_nil_r.
    + destruct (_process_table_buffer_block (flush_content cc p) d l buf)
        as (t & Ht' & Hblock & Hcap & _); [by rewrite Hb| |done|].
      { by rewrite flush_content_document. }
      exists [t]. split.
      * rewrite Ht'. unfold tables_of. by rewrite Hd.
      * constructor; [done|constructor].
  - change (foldl step (p, cc) (raw :: lines))
      with (foldl step (step (p, cc) raw) lines).
    change (table_blocks (table_buffer p) (raw :: lines))
      with (if is_table_line (rstrip raw)
            then table_blocks (table_buffer p ++ [rstrip raw]) lines
            else if nonempty (table_buffer p) && is_blank (rstrip raw)
            then table_buffer p :: table_blocks [] lines
            else table_blocks (table_buffer p) lines).
    assert (Hsame : forall q cq,
              table_view q = table_view p -> is_Some (document q) ->
              exists new,
                tables_of (fst (_finalize_parsing
                                  (flush_content (snd (foldl step (q, cq) lines))
                                     (fst (foldl step (q, cq) lines)))))
                = tables_of p ++ new
                /\ Forall2 (fun t b => table_of_block t b /\ caption_ok t) new
                     (table_blocks (table_buffer p) lines)).
    { intros q cq [= Hb Hf _ Ht] Hdq.
      destruct (IH q cq Hdq) as (new & Hnew & Hrel).
      - unfold buffer_flag_ok. by rewrite Hb, Hf.
      - by rewrite Hb.
      - exists new. by rewrite Hnew, Ht, Hb in *. }
    assert (Hline : forall q cq,
              table_view q = table_view p -> is_Some (document q) ->
              is_table_line (rstrip raw) = true ->
              exists new,
                tables_of (fst (_finalize_parsing
                  (flush_content
                     (snd (foldl step
                             (set_table_state (table_buffer p ++ [rstrip raw]) true q, cq)
                             lines))
                     (fst (foldl step
                             (set_table_state (table_buffer p ++ [rstrip raw]) true q, cq)
                             lines)))))
                = tables_of p ++ new
                /\ Forall2 (fun t b => table_of_block t b /\ caption_ok t) new
                     (table_blocks (table_buffer p ++ [rstrip raw]) lines)).
    { intros q cq [= Hb Hf _ Ht] Hdq Hl.
      destruct (IH (set_table_state (table_buffer p ++ [rstrip raw]) true q) cq)
        as (new & Hnew & Hrel); [done| | |].
      - unfold buffer_flag_ok. simpl. by rewrite nonempty_snoc.
      - simpl. apply Forall_app. split; [done|by constructor].
      - exists new. split; [|done]. rewrite Hnew. f_equal. exact Ht. }
    destruct (step_cases p raw) as [[m Hm]|[Ht|[Hb|(Hm & Ht & Hb)]]].
    + rewrite (step_header _ _ _ _ Hm).
      rewrite header_not_table_line by (by eexists).
      assert (is_blank (rstrip raw) = false) as ->.
      { destruct (is_blank (rstrip raw)) eqn:E; [|done].
        apply is_blank_not_header in E. congruence. }
      rewrite andb_false_r. apply Hsame.
      * by rewrite _process_section_header_table_view, flush_content_table_view.
      * apply _process_section_header_document.
        rewrite flush_content_document. by eexists.
    + rewrite (step_table_line _ _ _ Ht), Ht.
      destruct (nonempty cc && negb (is_in_table p)).
      * apply Hline; [apply flush_content_table_view| |done].
        rewrite flush_content_document. by eexists.
      * apply Hline; [done|by eexists|done].
    + rewrite (step_blank_in_table _ _ _ Hb).
      pose proof Hb as [Hin Hblank]%andb_true_iff.
      rewrite (is_blank_not_table_line _ Hblank), <- Hflag, Hb.
      rewrite Hflag in Hin.
      destruct (table_buffer p) as [|l buf] eqn:E; [done|].
      destruct (_process_table_buffer_block p d l buf E Hd Hall)
        as (t & Ht' & Hblock & Hcap & Hb' & Hf').
      destruct (IH (_process_table_buffer [] p) cc) as (new & Hnew & Hrel).
      * destruct (grows_process_table_buffer [] p) as [H _]. apply H. by eexists.
      * unfold buffer_flag_ok. by rewrite Hb', Hf'.
      * by rewrite Hb'.
      * exists (t :: new). split.
        -- rewrite Hnew, Ht'. unfold tables_of. rewrite Hd. simpl.
           by rewrite <- app_assoc.
        -- rewrite Hb' in Hrel. by constructor.
    + rewrite (step_text _ _ _ Hm Ht Hb), Ht, <- Hflag, Hb. cbn zeta.
      destruct (re_match REFERENCE_PATTERN (rstrip raw)) as [r|].
      * apply Hsame.
        -- unfold table_view, tables_of. simpl. by rewrite Hd.
        -- simpl. rewrite Hd. by eexists.
      * apply Hsame; [done|by eexists].
Qed.

Lemma step_buffer_lines p cc raw :
  Forall (fun x => is_table_line x = true) (table_buffer p) ->
  Forall (fun x => is_table_line x = true) (table_buffer (fst (step (p, cc) raw))).
Proof.
  intros Hall.
  destruct (step_cases p raw) as [[m Hm]|[Ht|[Hb|(Hm & Ht & Hb)]]].
  - rewrite (step_header _ _ _ _ Hm). simpl.
    pose proof (_process_section_header_table_view (default [] (group 3 m))
                  (Z.of_nat (length (default [] (group 1 m)))) (group 2 m)
                  (flush_content cc p)) as [= -> _ _ _].
    by pose proof (flush_content_table_view cc p) as [= -> _ _ _].
  - rewrite (step_table_line _ _ _ Ht).
    destruct (nonempty cc && negb (is_in_table p)); simpl;
      (apply Forall_app; split; [done|by constructor]).
  - rewrite (step_blank_in_table _ _ _ Hb). simpl.
    unfold _process_table_buffer. by destruct (table_buffer p).
  - rewrite (step_text _ _ _ Hm Ht Hb). simpl.
    by destruct (re_match REFERENCE_PATTERN _).
Qed.

Lemma foldl_buffer_lines lines p cc :
  Forall (fun x => is_table_line x = true) (table_buffer p) ->
  Forall (fun x => is_table_line x = true)
    (table_buffer (fst (foldl step (p, cc) lines))).
Proof.
  revert p cc. induction lines as [|raw lines IH]; intros p cc Hall; [done|].
  simpl. pose proof (step_buffer_lines p cc raw Hall) as H.
  destruct (step (p, cc) raw) as [p1 cc1]. by apply IH.
Qed.

Lemma parse_file_buffer now stem lines title p :
  parser_ok p -> table_buffer (fst (parse_file now stem (Some lines) title p)) = [].
Proof.
  intros Hok. simpl. rewrite parse_lines_after.
  apply _finalize_parsing_buffer, flush_content_ok.
  apply (foldl_step_ok lines (begin_parse now stem title p) []).
  by apply set_document_ok.
Qed.

(** The buffer of a parser holds table lines only; it is empty unless the
    last call raised while a table was open. *)
Lemma reachable_buffer_lines p :
  reachable p -> Forall (fun x => is_table_line x = true) (table_buffer p).
Proof.
  induction 1 as [|now stem file title p Hr IH|now stem pre title p Hr IH].
  - constructor.
  - destruct file as [lines|]; [|done].
    rewrite parse_file_buffer by (by apply reachable_ok). constructor.
  - unfold parse_file_raising. by apply foldl_buffer_lines.
Qed.

Lemma parse_lines_tables now stem lines title p :
  reachable p ->
  exists new,
    tables_of (fst (parse_lines now stem lines title p)) = new
    /\ Forall2 (fun t b => table_of_block t b /\ caption_ok t) new
         (table_blocks (table_buffer p) lines).
Proof.
  intros Hr. rewrite parse_lines_after. unfold after_lines.
  destruct (foldl_tables lines (begin_parse now stem title p) [])
    as (new & Hnew & Hrel).
  - by eexists.
  - apply reachable_ok in Hr as (_ & _ & Hf). exact Hf.
  - exact (reachable_buffer_lines p Hr).
  - exists new. split; [by rewrite Hnew|done].
Qed.

(** X17.  The tables of the Document a parse returns are, in order, the
    groups of table lines met by the parser, a group ending at a blank line
    or at the end of the file and at nothing else: headings and text
    between table lines do not end it.  The first group begins with the
    lines the parser still held in its buffer: none on a new parser and
    after a call that returned, so that the groups are then those of the
    file alone, and those of the table left open when the call before
    raised while reading.  A group of two lines or more gives the cells of
    its first line as headers and those of its lines from the third on as
    rows, the second line being dropped unread; a group of one line gives
    a table without headers or rows. *)
Theorem tables_are_the_blocks p now stem lines title :
  reachable p ->
  (exists doc,
     parsed_by p now stem lines title = Some doc
     /\ Forall2 table_of_block (Document.tables doc)
          (table_blocks (table_buffer p) lines))
  /\ (exists doc,
        parsed now stem lines title = Some doc
        /\ Forall2 table_of_block (Document.tables doc) (table_blocks [] lines))
  /\ (forall now0 stem0 lines0 title0,
        exists doc,
          parsed_by (fst (parse_file now0 stem0 (Some lines0) title0 p))
            now stem lines title = Some doc
          /\ Forall2 table_of_block (Document.tables doc) (table_blocks [] lines)).
Proof.
  intros Hr.
  assert (Hgen : forall q, reachable q ->
            exists doc,
              parsed_by q now stem lines title = Some doc
              /\ Forall2 table_of_block (Document.tables doc)
                   (table_blocks (table_buffer q) lines)).
  { intros q Hq. pose proof (reachable_ok q Hq) as Hok.
    destruct (parsed_by_spec q now stem lines title Hok)
      as (d & doc & _ & Hd & _ & _ & Hp & _ & _ & Ht & _).
    exists doc. split; [done|]. rewrite Ht.
    destruct (parse_lines_tables now stem lines title q Hq) as (new & Hnew & Hrel).
    unfold tables_of in Hnew. rewrite Hd in Hnew. simpl in Hnew. subst new.
    eapply Forall2_impl; [exact Hrel|]. by intros t b [? _]. }
  split; [by apply Hgen|]. split.
  - rewrite parsed_parsed_by. apply (Hgen init). constructor.
  - intros now0 stem0 lines0 title0.
    destruct (Hgen (fst (parse_file now0 stem0 (Some lines0) title0 p)))
      as (doc & Hp & Hrel); [by constructor|].
    exists doc. split; [done|].
    by rewrite parse_file_buffer in Hrel by (by apply reachable_ok).
Qed.

Lemma tables_are_the_blocks_witness :
  (exists doc,
     parsed_by
       (parse_file_raising (py "now") (py "One") [py "|a|b|"; py "|-|-|"] None init)
       (py "now") (py "Two") [py "|1|2|"; py ""; py "|x|"] None = Some doc
     /\ Forall2 table_of_block (Document.tables doc)
          (table_blocks
             (table_buffer
                (parse_file_raising (py "now") (py "One") [py "|a|b|"; py "|-|-|"]
                   None init))
             [py "|1|2|"; py ""; py "|x|"]))
  /\ (exists doc,
        parsed (py "now") (py "Two") [py "|1|2|"; py ""; py "|x|"] None = Some doc
        /\ Forall2 table_of_block (Document.tables doc)
             (table_blocks [] [py "|1|2|"; py ""; py "|x|"]))
  /\ (forall now0 stem0 lines0 title0,
        exists doc,
          parsed_by
            (fst (parse_file now0 stem0 (Some lines0) title0
                    (parse_file_raising (py "now") (py "One")
                       [py "|a|b|"; py "|-|-|"] None init)))
            (py "now") (py "Two") [py "|1|2|"; py ""; py "|x|"] None = Some doc
          /\ Forall2 table_of_block (Document.tables doc)
               (table_blocks [] [py "|1|2|"; py ""; py "|x|"])).
Proof.
  exact (tables_are_the_blocks
           (parse_file_raising (py "now") (py "One") [py "|a|b|"; py "|-|-|"] None init)
           (py "now") (py "Two") [py "|1|2|"; py ""; py "|x|"] None
           (reachable_parse_file_raising (py "now") (py "One")
              [py "|a|b|"; py "|-|-|"] None init reachable_init)).
Defined.

(** X18.  The caption of every table of a parsed Document is either the
    default one, the word Table and the number of the table, or a whole
    line of the shape of a caption line, stripped, so with its own Table
    and number in front; the text alone is never taken out of the line. *)
Theorem captions_are_whole_lines p now stem lines title :
  reachable p ->
  exists doc,
    parsed_by p now stem lines title = Some doc
    /\ Forall caption_ok (Document.tables doc).
Proof.
  intros Hr. pose proof (reachable_ok p Hr) as Hok.
  destruct (parsed_by_spec p now stem lines title Hok)
    as (d & doc & _ & Hd & _ & _ & Hp & _ & _ & Ht & _).
  exists doc. split; [done|]. rewrite Ht.
  destruct (parse_lines_tables now stem lines title p Hr) as (new & Hnew & Hrel).
  unfold tables_of in Hnew. rewrite Hd in Hnew. simpl in Hnew. subst new.
  eapply Forall2_Forall_l; [exact Hrel|].
  apply Forall_forall. by intros b _ t [_ ?].
Qed.

Lemma captions_are_whole_lines_witness :
  exists doc,
    parsed_by init (py "now") (py "Doc")
      [py "## A"; py "Table 2.1: Costs"; py "|a|b|"; py "|-|-|"; py ""; py "|x|"]
      None = Some doc
    /\ Forall caption_ok (Document.tables doc).
Proof.
  exact (captions_are_whole_lines init (py "now") (py "Doc")
           [py "## A"; py "Table 2.1: Costs"; py "|a|b|"; py "|-|-|"; py ""; py "|x|"]
           None reachable_init).
Defined.

(** ** What the line patterns accept *)

Lemma power_app {A} (R : A -> A -> Prop) a b x y z :
  power R a x y -> power R b y z -> power R (a + b) x z.
Proof.
  revert x. induction a as [|a IH]; intros x; simpl.
  - by intros ->.
  - intros (x' & Hx & Hp) Hq. exists x'. split; [done|]. by apply IH.
Qed.

Lemma goes_by_rep_must R Q body after j :
  goes_by R body -> goes_by Q after ->
  goes_by (fun s s' => exists s1, power R j s s1 /\ Q s1 s') (rep_must body j after).
Proof.
  intros Hb Ha. induction j as [|j IH]; intros s c k res H.
  - rewrite rep_must_0 in H. destruct (Ha _ _ _ _ H) as (s' & c' & HQ & Hk).
    exists s', c'. split; [|done]. by exists s.
  - rewrite rep_must_S in H.
    destruct (Hb _ _ _ _ H) as (s1 & c1 & HR & H1).
    destruct (IH _ _ _ _ H1) as (s' & c' & (s2 & Hp & HQ) & Hk).
    exists s', c'. split; [|done]. exists s2. split; [|done]. by exists s1.
Qed.

Lemma goes_by_rep_may R body fuel budget :
  goes_by R body ->
  goes_by (fun s s' => exists n, power R n s s') (rep_may body fuel budget).
Proof.
  intros Hb. revert budget. induction fuel as [|fuel IH]; intros budget s c k res H.
  { exists s, c. split; [by exists 0|done]. }
  change (rep_may body (S fuel) budget s c k) with
    (if spent budget then k s c
     else or_else
            (body s c (fun s' c' =>
               if length s' <? length s
               then rep_may body fuel (pred <$> budget) s' c' k
               else k s' c'))
            (k s c)) in H.
  destruct (spent budget); [exists s, c; split; [by exists 0|done]|].
  apply or_else_Some in H as [H|[_ H]]; [|exists s, c; split; [by exists 0|done]].
  destruct (Hb _ _ _ _ H) as (s1 & c1 & HR & H1).
  destruct (length s1 <? length s).
  - destruct (IH _ _ _ _ _ H1) as (s' & c' & (n & Hp) & Hk).
    exists s', c'. split; [|done]. exists (S n), s1. done.
  - exists s1, c1. split; [|done]. exists 1, s1. done.
Qed.

(** Whatever the matcher answers, the pattern goes over the text in the
    usual sense of patterns. *)
Lemma exec_moves n0 r : goes_by (moves n0 r) (exec n0 r).
Proof.
  induction r as [|p| | |r1 IH1 r2 IH2|r1 IH1 r2 IH2|r IH lo hi|i r IH];
    intros s c k res H.
  - by exists s, c.
  - rewrite exec_Chr in H. destruct s as [|a s]; [done|].
    destruct (p a) eqn:Hp; [|done]. exists s, c. split; [by exists a|done].
  - rewrite exec_Bol in H. destruct (_ =? _) eqn:E; [|done].
    apply Nat.eqb_eq in E. by exists s, c.
  - rewrite exec_Eol in H. destruct s as [|a [|b s]]; [|..|done].
    + exists [], c. split; [|done]. split; [done|by left].
    + destruct (is_newline a) eqn:Ha; [|done]. exists [a], c.
      split; [|done]. split; [done|]. right. by exists a.
  - rewrite exec_Seq in H.
    destruct (IH1 _ _ _ _ H) as (s1 & c1 & Hm1 & H1).
    destruct (IH2 _ _ _ _ H1) as (s2 & c2 & Hm2 & H2).
    exists s2, c2. split; [by exists s1|done].
  - rewrite exec_Alt in H. apply or_else_Some in H as [H|[_ H]].
    + destruct (IH1 _ _ _ _ H) as (s1 & c1 & Hm1 & H1).
      exists s1, c1. split; [by left|done].
    + destruct (IH2 _ _ _ _ H) as (s1 & c1 & Hm1 & H1).
      exists s1, c1. split; [by right|done].
  - rewrite exec_Rep in H.
    eapply (goes_by_rep_must (moves n0 r) (fun s s' => exists n, power (moves n0 r) n s s'))
      in H; [|exact IH|].
    + destruct H as (s' & c' & (s1 & Hp & n & Hq) & Hk).
      exists s', c'. split; [|done]. exists (lo + n). split; [lia|].
      by eapply power_app.
    + intros s1 c1 k1 res1. by apply goes_by_rep_may.
  - rewrite exec_Grp in H.
    destruct (IH _ _ _ _ H) as (s1 & c1 & Hm1 & H1).
    by eexists s1, _.
Qed.

Lemma power_suffix (R : str -> str -> Prop) :
  (forall s s', R s s' -> exists w, s = w ++ s') ->
  forall n s s', power R n s s' -> exists w, s = w ++ s'.
Proof.
  intros HR n. induction n as [|n IH]; intros s s'; simpl.
  - intros ->. by exists [].
  - intros (s1 & H1 & Hp). destruct (HR _ _ H1) as [w1 ->].
    destruct (IH _ _ Hp) as [w2 ->]. exists (w1 ++ w2). by rewrite app_assoc.
Qed.

Lemma moves_suffix n0 r s s' : moves n0 r s s' -> exists w, s = w ++ s'.
Proof.
  revert s s'.
  induction r as [|p| | |r1 IH1 r2 IH2|r1 IH1 r2 IH2|r IH lo hi|i r IH];
    intros s s'; simpl.
  - intros ->. by exists [].
  - intros (a & -> & _). by exists [a].
  - intros [-> _]. by exists [].
  - intros [-> _]. by exists [].
  - intros (s1 & H1 & H2). destruct (IH1 _ _ H1) as [w1 ->].
    destruct (IH2 _ _ H2) as [w2 ->]. exists (w1 ++ w2). by rewrite app_assoc.
  - intros [H|H]; [by apply IH1|by apply IH2].
  - intros (n & _ & Hp). by eapply power_suffix.
  - apply IH.
Qed.

Lemma power_Chr n0 p n s s' :
  power (moves n0 (Chr p)) n s s' -> exists w, length w = n /\ s = w ++ s'.
Proof.
  revert s. induction n as [|n IH]; intros s; simpl.
  - intros ->. by exists [].
  - intros (s1 & (a & -> & _) & Hp). destruct (IH _ Hp) as (w & Hw & ->).
    exists (a :: w). simpl. by rewrite Hw.
Qed.

(** *** Table lines *)

Lemma forallb_snoc_newline (s : str) a :
  forallb any_char (s ++ [a]) = true -> is_newline a = false.
Proof.
  rewrite forallb_app. simpl. intros [_ H]%andb_true_iff.
  unfold any_char in H. by destruct (is_newline a).
Qed.

Lemma end_of_clean_line (l s' : str) n0 w :
  forallb any_char l = true -> l = w ++ s' -> moves n0 Eol s' s' -> s' = [].
Proof.
  intros Hl -> [_ [->|(a & -> & Ha)]]; [done|].
  apply forallb_snoc_newline in Hl. congruence.
Qed.

Lemma table_row_shape line :
  forallb any_char line = true ->
  matches TABLE_ROW_PATTERN line = true ->
  exists mid, mid <> [] /\ line = py "|" ++ mid ++ py "|".
Proof.
  intros Hl. unfold matches.
  destruct (re_match TABLE_ROW_PATTERN line) as [m|] eqn:Hm; [intros _|done].
  unfold TABLE_ROW_PATTERN in Hm. rewrite re_match_anchored in Hm.
  apply exec_moves in Hm as (s' & c' & Hmv & _).
  destruct Hmv as (s1 & (a & -> & Ha) & s2 & (n & Hn & Hp) & s3 & (b & -> & Hb)
                   & Hs' & He).
  subst s'. apply ch_eqb_eq in Ha as <-. apply ch_eqb_eq in Hb as <-.
  apply power_Chr in Hp as (w & Hw & ->).
  exists w. split; [destruct w; [simpl in Hw; lia|done]|].
  assert (s3 = []) as ->.
  { destruct He as [->|(e & -> & He)]; [done|].
    replace (ch "|" :: w ++ [ch "|"; e]) with ((ch "|" :: w ++ [ch "|"]) ++ [e])
      in Hl by (simpl; by rewrite <- app_assoc).
    apply forallb_snoc_newline in Hl. congruence. }
  done.
Qed.

Lemma table_separator_shape line :
  forallb any_char line = true ->
  matches TABLE_SEPARATOR_PATTERN line = true ->
  exists mid, mid <> [] /\ line = py "|" ++ mid ++ py "|".
Proof.
  intros Hl. unfold matches.
  destruct (re_match TABLE_SEPARATOR_PATTERN line) as [m|] eqn:Hm; [intros _|done].
  unfold TABLE_SEPARATOR_PATTERN in Hm. rewrite re_match_anchored in Hm.
  apply exec_moves in Hm as (s' & c' & Hmv & _).
  destruct Hmv as (s1 & (a & -> & Ha) & s2 & (n & Hn & Hp) & Hs' & He).
  subst s'. apply ch_eqb_eq in Ha as <-.
  assert (Hgroup : forall s t,
            moves (length (ch "|" :: s1))
              (Grp 1 (Seq (Star space_)
                 (Seq (Plus (Chr dash_or_colon))
                  (Seq (Chr dash_or_colon)
                   (Seq (Star space_) (Lit (ch "|"))))))) s t ->
            exists w, w <> [] /\ s = w ++ ch "|" :: t).
  { intros s t (t1 & H1 & t2 & H2 & t3 & (d & -> & _) & t4 & H4 & (b & -> & Hb)).
    apply ch_eqb_eq in Hb as <-.
    apply moves_suffix in H1 as [w1 ->]. apply moves_suffix in H2 as [w2 ->].
    apply moves_suffix in H4 as [w4 ->].
    exists (w1 ++ w2 ++ d :: w4). split; [by destruct w1, w2|].
    by rewrite <- !app_assoc. }
  assert (Hall : forall k s t,
            power (moves (length (ch "|" :: s1))
              (Grp 1 (Seq (Star space_)
                 (Seq (Plus (Chr dash_or_colon))
                  (Seq (Chr dash_or_colon)
                   (Seq (Star space_) (Lit (ch "|")))))))) (S k) s t ->
            exists w, w <> [] /\ s = w ++ ch "|" :: t).
  { induction k as [|k IH]; intros s t (t1 & H1 & Hrest).
    - simpl in Hrest. subst t1. by apply Hgroup.
    - apply Hgroup in H1 as (w1 & Hw1 & ->).
      apply IH in Hrest as (w2 & Hw2 & ->).
      exists (w1 ++ ch "|" :: w2). split; [by destruct w1|].
      by rewrite <- app_assoc. }
  destruct n as [|n]; [lia|].
  apply Hall in Hp as (w & Hw & ->). exists w. split; [done|].
  assert (s2 = []) as ->.
  { destruct He as [->|(e & -> & He)]; [done|].
    replace (ch "|" :: w ++ [ch "|"; e]) with ((ch "|" :: w ++ [ch "|"]) ++ [e])
      in Hl by (simpl; by rewrite <- app_assoc).
    apply forallb_snoc_newline in Hl. congruence. }
  done.
Qed.

Lemma table_row_complete mid :
  mid <> [] -> forallb any_char mid = true ->
  matches TABLE_ROW_PATTERN (py "|" ++ mid ++ py "|") = true.
Proof.
  intros Hmid Hall. unfold matches, TABLE_ROW_PATTERN.
  rewrite re_match_anchored, exec_Seq. unfold Lit at 1.
  change (py "|" ++ mid ++ py "|") with (ch "|" :: mid ++ [ch "|"]).
  rewrite exec_Chr.
  change (ch_eqb (ch "|") (ch "|")) with true. cbn iota.
  unfold Plus. rewrite exec_Seq, exec_Grp, exec_Rep, rep_must_S, exec_Chr.
  destruct mid as [|b mid]; [done|]. simpl in Hall.
  apply andb_true_iff in Hall as [Hb Hall].
  rewrite <- app_comm_cons, Hb, rep_must_0, rep_may_Chr by lia.
  match goal with
  | |- match ?x with Some _ => true | None => false end = true =>
      assert (Hs : is_Some x); [|by destruct Hs as [? ->]]
  end.
  apply greedy_all; [done|].
  rewrite exec_Seq. unfold Lit. rewrite exec_Chr.
  change (ch_eqb (ch "|") (ch "|")) with true. cbn iota.
  rewrite exec_Eol. by eexists.
Qed.

(** X19.  A line without a line break is a table line exactly when it begins
    with a bar, ends with a bar and has at least one character between the
    two; the pattern for separator lines accepts no line that the pattern
    for rows does not accept. *)
Theorem table_line_shape line :
  forallb any_char line = true ->
  is_table_line line = true
  <-> exists mid, mid <> [] /\ line = py "|" ++ mid ++ py "|".
Proof.
  intros Hl. unfold is_table_line. split.
  - intros [H|H]%orb_true_iff.
    + by apply table_row_shape.
    + by apply table_separator_shape.
  - intros (mid & Hmid & ->). rewrite table_row_complete; [done|done|].
    change (py "|" ++ mid ++ py "|") with ([ch "|"] ++ mid ++ [ch "|"]) in Hl.
    rewrite !forallb_app in Hl.
    by apply andb_true_iff in Hl as [_ [? _]%andb_true_iff].
Qed.

Lemma table_line_shape_witness :
  is_table_line (py "| a | b |") = true
  <-> exists mid, mid <> [] /\ py "| a | b |" = py "|" ++ mid ++ py "|".
Proof. apply (table_line_shape (py "| a | b |")). reflexivity. Defined.

(** *** Citations *)

Lemma run_le p budget s : run p budget s <= length s.
Proof.
  revert budget. induction s as [|a s IH]; intros budget; simpl; [done|].
  destruct (p a && negb (spent budget)); [|lia]. specialize (IH (pred <$> budget)). lia.
Qed.

Lemma run_next p s j x t :
  j <= run p None s -> drop j s = x :: t -> p x = true -> S j <= run p None s.
Proof.
  revert j. induction s as [|a s IH]; intros j Hj Hd Hx.
  - by rewrite drop_nil in Hd.
  - simpl in *. destruct (p a) eqn:Ha; simpl in *.
    + destruct j as [|j]; [lia|]. simpl in Hd.
      specialize (IH j). apply le_n_S, IH; [lia|done|done].
    + assert (j = 0) as -> by lia. simpl in Hd. injection Hd as -> _. congruence.
Qed.

Lemma drop_S_tail {A} (s : list A) j x t : drop j s = x :: t -> drop (S j) s = t.
Proof.
  revert j. induction s as [|a s IH]; intros [|j] H; simpl in *; try done.
  - by injection H.
  - by apply IH.
Qed.

Lemma exec_Lit_inv n0 a s c k res :
  exec n0 (Lit a) s c k = Some res -> exists s', s = a :: s' /\ k s' c = Some res.
Proof.
  unfold Lit. rewrite exec_Chr. destruct s as [|b s]; [done|].
  destruct (ch_eqb a b) eqn:E; [|done]. apply ch_eqb_eq in E as <-.
  intros H. by exists s.
Qed.

Lemma exec_Plus_Chr n0 p s c k res :
  exec n0 (Plus (Chr p)) s c k = Some res ->
  exists a s1 j,
    s = a :: s1 /\ p a = true /\ j <= run p None s1
    /\ k (drop j s1) c = Some res
    /\ forall j', j < j' <= run p None s1 -> k (drop j' s1) c = None.
Proof.
  unfold Plus. rewrite exec_Rep, rep_must_S, exec_Chr.
  destruct s as [|a s1]; [done|]. destruct (p a) eqn:Ha; [|done].
  rewrite rep_must_0, rep_may_Chr by lia. rewrite greedy_backoff.
  intros (j & Hj & Hk & Hnone)%backoff_Some.
  exists a, s1, j. done.
Qed.

Lemma exec_Grp_Plus_Chr n0 i p s c k res :
  exec n0 (Grp i (Plus (Chr p))) s c k = Some res ->
  exists a s1 j,
    s = a :: s1 /\ p a = true /\ j <= run p None s1
    /\ k (drop j s1) (set_cap i (a :: take j s1) c) = Some res.
Proof.
  rewrite exec_Grp. intros (a & s1 & j & -> & Ha & Hj & Hk & _)%exec_Plus_Chr.
  exists a, s1, j. split; [done|]. split; [done|]. split; [done|].
  pose proof (run_le p None s1).
  replace (length (a :: s1) - length (drop j s1)) with (S j) in Hk; [done|].
  rewrite length_drop. simpl. lia.
Qed.

(** X20.  A line that gives a citation is an opening bracket, the id, made of
    digits, a closing bracket, white space and the text, which runs to the
    end of the line; id and text are never empty.  When the line has no
    white space at its end, as every line the parser looks at, the text is
    all that follows the white space: it does not begin with white
    space. *)
Theorem citation_shape line r :
  citation line = Some r ->
  exists ws e,
    line = py "[" ++ Reference.id r ++ py "]" ++ ws ++ Reference.text r ++ e
    /\ Reference.id r <> [] /\ forallb is_digit (Reference.id r) = true
    /\ ws <> [] /\ forallb is_space ws = true
    /\ Reference.text r <> [] /\ forallb any_char (Reference.text r) = true
    /\ (e = [] \/ e = [newline])
    /\ (rstripped line ->
        e = [] /\ first_is is_space (Reference.text r) = false).
Proof.
  unfold citation.
  destruct (re_match REFERENCE_PATTERN line) as [m|] eqn:Hm; [|done].
  simpl. intros [= <-]. cbn [Reference.id Reference.text].
  unfold REFERENCE_PATTERN, digit_, space_ in Hm.
  rewrite re_match_anchored, exec_Seq in Hm.
  apply exec_Lit_inv in Hm as (s1 & Hline & Hm).
  rewrite exec_Seq in Hm.
  apply exec_Grp_Plus_Chr in Hm as (d & s2 & j1 & -> & Hd & Hj1 & Hm).
  rewrite exec_Seq in Hm. apply exec_Lit_inv in Hm as (s3 & Hs3 & Hm).
  rewrite exec_Seq in Hm.
  apply exec_Plus_Chr in Hm as (w & s4 & j2 & -> & Hw & Hj2 & Hm & Hmax).
  pose proof Hm as Hm'. rewrite exec_Seq in Hm'.
  apply exec_Grp_Plus_Chr in Hm' as (x & s5 & j3 & Hs5 & Hx & Hj3 & Hm').
  rewrite exec_Eol in Hm'.
  assert (Hend : m = (drop j3 s5,
                      set_cap 2 (x :: take j3 s5)
                        (set_cap 1 (d :: take j1 s2) no_caps))
                 /\ (drop j3 s5 = [] \/ drop j3 s5 = [newline])).
  { destruct (drop j3 s5) as [|b [|b' t]]; [|..|done].
    - injection Hm' as <-. by split; [|left].
    - destruct (is_newline b) eqn:Hb; [|done]. injection Hm' as <-.
      split; [done|]. right. apply ch_eqb_eq in Hb. by subst. }
  destruct Hend as [-> He].
  change (default [] (group 1 (drop j3 s5,
            set_cap 2 (x :: take j3 s5) (set_cap 1 (d :: take j1 s2) no_caps))))
    with (d :: take j1 s2).
  change (default [] (group 2 (drop j3 s5,
            set_cap 2 (x :: take j3 s5) (set_cap 1 (d :: take j1 s2) no_caps))))
    with (x :: take j3 s5).
  assert (Hwhole : line = py "[" ++ (d :: take j1 s2) ++ py "]"
                          ++ (w :: take j2 s4) ++ (x :: take j3 s5) ++ drop j3 s5).
  { rewrite Hline. change (py "[") with [ch "["]. change (py "]") with [ch "]"].
    simpl. do 2 f_equal.
    rewrite <- (take_drop j1 s2) at 1. f_equal. rewrite Hs3. simpl. do 2 f_equal.
    rewrite <- (take_drop j2 s4) at 1. f_equal. rewrite Hs5. simpl. f_equal.
    by rewrite take_drop. }
  exists (w :: take j2 s4), (drop j3 s5).
  split; [done|]. split; [done|]. split.
  { simpl. rewrite Hd. simpl. eapply forallb_take; [exact Hj1|apply run_take]. }
  split; [done|]. split.
  { simpl. rewrite Hw. simpl. eapply forallb_take; [exact Hj2|apply run_take]. }
  split; [done|]. split.
  { simpl. rewrite Hx. simpl. eapply forallb_take; [exact Hj3|apply run_take]. }
  split; [done|].
  intros Hr.
  assert (He' : drop j3 s5 = []).
  { destruct He as [He|He]; [done|]. rewrite He in Hwhole.
    specialize (Hr (py "[" ++ (d :: take j1 s2) ++ py "]"
                      ++ (w :: take j2 s4) ++ (x :: take j3 s5)) newline).
    rewrite Hwhole, <- !app_assoc in Hr. by specialize (Hr eq_refl). }
  split; [done|]. simpl.
  destruct (is_space x) eqn:Hspace; [|done]. exfalso.
  pose proof (run_next is_space s4 j2 x s5 Hj2 Hs5 Hspace) as Hnext.
  specialize (Hmax (S j2)).
  rewrite (drop_S_tail s4 j2 x s5) in Hmax by done.
  assert (Hone : one_line s5).
  { apply clean_one_line.
    - intros ->. rewrite take_nil, drop_nil in Hwhole.
      specialize (Hr (py "[" ++ (d :: take j1 s2) ++ py "]" ++ (w :: take j2 s4)) x).
      rewrite Hwhole, <- !app_assoc in Hr. specialize (Hr eq_refl). congruence.
    - rewrite <- (take_drop j3 s5), He', app_nil_r.
      eapply forallb_take; [exact Hj3|apply run_take]. }
  destruct (to_end_of_line_complete (length line) 2 s5
              (set_cap 1 (d :: take j1 s2) no_caps) Hone) as [res Hres].
  unfold to_end_of_line, answer in Hres. rewrite Hmax in Hres; [done|lia].
Qed.

Lemma citation_shape_witness :
  exists ws e,
    py "[12]  Smith 2020" = py "[" ++ py "12" ++ py "]" ++ ws ++ py "Smith 2020" ++ e
    /\ py "12" <> [] /\ forallb is_digit (py "12") = true
    /\ ws <> [] /\ forallb is_space ws = true
    /\ py "Smith 2020" <> [] /\ forallb any_char (py "Smith 2020") = true
    /\ (e = [] \/ e = [newline])
    /\ (rstripped (py "[12]  Smith 2020") ->
        e = [] /\ first_is is_space (py "Smith 2020") = false).
Proof.
  apply (citation_shape (py "[12]  Smith 2020")
           (Reference.mk (py "12") (py "Smith 2020"))).
  reflexivity.
Defined.

(** *** The cleaned name of a section *)

Lemma greedy_first {R} p x e (k : str -> option R) r :
  forallb p x = true -> first_is p e = false -> k e = Some r ->
  greedy p None (x ++ e) k = Some r.
Proof.
  intros Hx He Hk. induction x as [|a x IH]; simpl in *.
  - destruct e as [|b e]; simpl in *; [done|]. by rewrite He.
  - apply andb_true_iff in Hx as [-> Hx]. simpl. by rewrite IH.
Qed.

Lemma exec_Plus_first n0 p x e c k r :
  x <> [] -> forallb p x = true -> first_is p e = false -> k e c = Some r ->
  exec n0 (Plus (Chr p)) (x ++ e) c k = Some r.
Proof.
  intros Hx Hall He Hk. unfold Plus.
  rewrite exec_Rep, rep_must_S, exec_Chr.
  destruct x as [|a x]; [done|]. simpl in Hall.
  apply andb_true_iff in Hall as [Ha Hall].
  rewrite <- app_comm_cons, Ha, rep_must_0, rep_may_Chr by lia.
  by apply greedy_first.
Qed.

Lemma exec_Star_first n0 p x e c k r :
  forallb p x = true -> first_is p e = false -> k e c = Some r ->
  exec n0 (Star (Chr p)) (x ++ e) c k = Some r.
Proof.
  intros Hall He Hk. unfold Star.
  rewrite exec_Rep, rep_must_0, rep_may_Chr by lia.
  by apply greedy_first.
Qed.

Lemma first_is_dot_not_digit rest : first_is is_digit (py "." ++ rest) = false.
Proof. reflexivity. Qed.

Lemma exec_item n0 ds rest c k r :
  ds <> [] -> forallb is_digit ds = true -> k rest c = Some r ->
  exec n0 (Seq (Plus digit_) (Lit (ch "."))) (ds ++ py "." ++ rest) c k = Some r.
Proof.
  intros Hds Hall Hk. rewrite exec_Seq. unfold digit_.
  apply exec_Plus_first; [done|done|apply first_is_dot_not_digit|].
  unfold Lit. by rewrite exec_Chr.
Qed.

Lemma exec_item_fail n0 s c k :
  first_is is_digit s = false ->
  exec n0 (Seq (Plus digit_) (Lit (ch "."))) s c k = None.
Proof.
  intros H. unfold Plus, digit_. rewrite exec_Seq, exec_Rep, rep_must_S.
  by apply exec_Chr_fail.
Qed.

Lemma rep_may_items n0 items e c k r fuel :
  Forall (fun ds => ds <> [] /\ forallb is_digit ds = true) items ->
  first_is is_digit e = false -> k e c = Some r ->
  length (numbering items ++ e) < fuel ->
  rep_may (exec n0 (Seq (Plus digit_) (Lit (ch ".")))) fuel None
    (numbering items ++ e) c k = Some r.
Proof.
  intros Hitems He Hk. revert fuel.
  induction Hitems as [|ds items [Hds Hall] _ IH]; intros fuel Hfuel;
    (destruct fuel as [|fuel]; [lia|]).
  - change (numbering [] ++ e) with e.
    change (rep_may ?body (S fuel) None e c k) with
      (or_else
         (body e c (fun s' c' =>
            if length s' <? length e
            then rep_may body fuel None s' c' k
            else k s' c'))
         (k e c)).
    by rewrite exec_item_fail, Hk.
  - change (numbering (ds :: items)) with ((ds ++ py ".") ++ numbering items)
      in Hfuel |- *.
    rewrite <- !app_assoc in Hfuel |- *.
    change (rep_may ?body (S fuel) None ?s c k) with
      (or_else
         (body s c (fun s' c' =>
            if length s' <? length s
            then rep_may body fuel None s' c' k
            else k s' c'))
         (k s c)).
    rewrite (exec_item _ _ _ _ _ r); [done|done|done|].
    assert (Hlt : (length (numbering items ++ e)
                   <? length (ds ++ py "." ++ numbering items ++ e)) = true).
    { apply Nat.ltb_lt. rewrite (length_app ds), (length_app (py ".")).
      change (length (py ".")) with 1. lia. }
    rewrite Hlt. apply IH.
    rewrite (length_app ds), (length_app (py ".")) in Hfuel.
    change (length (py ".")) with 1 in Hfuel. lia.
Qed.

Lemma re_match_numbering ds items ws t :
  ds <> [] -> forallb is_digit ds = true ->
  Forall (fun ds => ds <> [] /\ forallb is_digit ds = true) items ->
  forallb is_space ws = true -> first_is is_space t = false ->
  first_is is_digit (ws ++ t) = false ->
  re_match NUMBER_PREFIX_PATTERN (numbering (ds :: items) ++ ws ++ t)
  = Some (t, no_caps).
Proof.
  intros Hds Hall Hitems Hws Ht Hnext. unfold NUMBER_PREFIX_PATTERN.
  rewrite re_match_anchored.
  change (numbering (ds :: items)) with ((ds ++ py ".") ++ numbering items).
  rewrite <- !app_assoc.
  change (exec ?n (Seq (Plus digit_) (Seq (Lit (ch ".")) ?r)) ?s ?c ?k)
    with (exec n (Seq (Plus digit_) (Lit (ch "."))) s c
            (fun s' c' => exec n r s' c' k)).
  apply exec_item; [done|done|].
  rewrite exec_Seq. unfold Star at 1. rewrite exec_Rep, rep_must_0.
  apply rep_may_items; [done|done| |lia].
  unfold space_. by apply exec_Star_first.
Qed.

Lemma drop_while_snoc_keep p (l : str) a :
  p a = false -> exists l', drop_while p (l ++ [a]) = l' ++ [a].
Proof.
  intros Ha. induction l as [|x l IH]; simpl.
  - rewrite Ha. by exists [].
  - destruct (p x); [done|]. by exists (x :: l).
Qed.

Lemma strip_by_first p s : first_is p (strip_by p s) = false.
Proof.
  unfold strip_by, rstrip_by, lstrip_by.
  destruct (drop_while p s) as [|a u] eqn:E; [done|].
  pose proof (drop_while_head _ _ _ _ E) as Ha. simpl.
  destruct (drop_while_snoc_keep p (rev u) a Ha) as [l' ->].
  rewrite rev_app_distr. simpl. done.
Qed.

(** X21.  [_clean_section_name] leaves a name that does not begin with a digit
    as it is, but for the white space at its ends; from a name that is a
    numbering, white space and a title it keeps the title, when the title
    does not follow the numbering at once with a digit; and what it
    returns never begins with white space. *)
Theorem clean_section_name_spec :
  (forall s, first_is is_digit s = false -> _clean_section_name s = strip s)
  /\ (forall items ws t,
        items <> [] ->
        Forall (fun ds => ds <> [] /\ forallb is_digit ds = true) items ->
        forallb is_space ws = true -> first_is is_space t = false ->
        first_is is_digit (ws ++ t) = false ->
        _clean_section_name (numbering items ++ ws ++ t) = strip t)
  /\ (forall s, first_is is_space (_clean_section_name s) = false).
Proof.
  split; [|split].
  - intros s Hs. unfold _clean_section_name, re_sub_anchored.
    assert (re_match NUMBER_PREFIX_PATTERN s = None) as ->; [|done].
    unfold NUMBER_PREFIX_PATTERN, Plus, digit_.
    rewrite re_match_anchored, exec_Seq, exec_Rep, rep_must_S.
    by apply exec_Chr_fail.
  - intros items ws t Hne Hitems Hws Ht Hnext.
    destruct items as [|ds items]; [done|].
    apply Forall_cons in Hitems as [[Hds Hall] Hitems].
    unfold _clean_section_name, re_sub_anchored.
    by rewrite re_match_numbering.
  - intros s. unfold _clean_section_name. apply strip_by_first.
Qed.

Lemma clean_section_name_spec_witness :
  _clean_section_name (py "Overview ") = strip (py "Overview ")
  /\ _clean_section_name (numbering [py "2"; py "10"] ++ py "  " ++ py "Scope ")
     = strip (py "Scope ").
Proof.
  split.
  - apply (proj1 clean_section_name_spec). reflexivity.
  - apply (proj1 (proj2 clean_section_name_spec) [py "2"; py "10"] (py "  ")
             (py "Scope ")); try reflexivity.
    + done.
    + repeat constructor; done.
Defined.

(** *** The cells of a table line *)

Lemma ch_eqb_ne a b : a <> b -> ch_eqb a b = false.
Proof.
  intros H. destruct (ch_eqb a b) eqn:E; [|done]. by apply ch_eqb_eq in E.
Qed.

Lemma ch_eqb_same a : ch_eqb a a = true.
Proof. unfold ch_eqb. apply Ascii.eqb_refl. Qed.

Lemma split_app c x rest :
  c ∉ x -> split c (x ++ c :: rest) = x :: split c rest.
Proof.
  induction x as [|a x IH]; intros Hx; simpl.
  - by rewrite ch_eqb_same.
  - apply not_elem_of_cons in Hx as [Hne Hx].
    rewrite ch_eqb_ne by done. by rewrite IH.
Qed.

Lemma split_no_sep c x : c ∉ x -> split c x = [x].
Proof.
  induction x as [|a x IH]; intros Hx; simpl; [done|].
  apply not_elem_of_cons in Hx as [Hne Hx].
  rewrite ch_eqb_ne by done. by rewrite IH.
Qed.

Lemma join_cons2 sep x y r : join sep (x :: y :: r) = x ++ sep ++ join sep (y :: r).
Proof. reflexivity. Qed.

Lemma join_one sep (x : str) : join sep [x] = x.
Proof. reflexivity. Qed.

Lemma split_join c cs :
  cs <> [] -> Forall (fun x => c ∉ x) cs -> split c (join [c] cs) = cs.
Proof.
  intros Hne Hall. induction Hall as [|x cs Hx Hall IH]; [done|].
  destruct cs as [|y r].
  - rewrite join_one. by apply split_no_sep.
  - rewrite join_cons2. change ([c] ++ ?s) with (c :: s).
    rewrite split_app by done. by rewrite IH.
Qed.

Lemma join_hd sep x r : exists post, join sep (x :: r) = x ++ post.
Proof.
  destruct r as [|y r].
  - exists []. by rewrite join_one, app_nil_r.
  - eexists. apply join_cons2.
Qed.

Lemma join_last sep cs x : last cs = Some x -> exists pre, join sep cs = pre ++ x.
Proof.
  induction cs as [|y cs IH]; [done|]. destruct cs as [|z r].
  - intros [= ->]. by exists [].
  - intros H. destruct (IH H) as [pre Hpre].
    exists (y ++ sep ++ pre). by rewrite join_cons2, Hpre, <- !app_assoc.
Qed.

Lemma drop_while_keep p (s : str) : first_is p s = false -> drop_while p s = s.
Proof. destruct s as [|a s]; simpl; [done|]. by intros ->. Qed.

Lemma drop_while_skip p a (s : str) : p a = true -> drop_while p (a :: s) = drop_while p s.
Proof. simpl. by intros ->. Qed.

Lemma strip_by_between p c (s : str) :
  p c = true -> s <> [] -> first_is p s = false -> first_is p (rev s) = false ->
  strip_by p (c :: s ++ [c]) = s.
Proof.
  intros Hc Hs Hfirst Hlast. unfold strip_by, rstrip_by, lstrip_by.
  rewrite drop_while_skip by done.
  rewrite (drop_while_keep p (s ++ [c])).
  - rewrite rev_app_distr. simpl. rewrite Hc.
    by rewrite drop_while_keep, rev_involutive.
  - destruct s as [|a s]; done.
Qed.

(** X22.  The cells of a table line are the texts between its bars, each
    stripped: for a line made of a bar, texts without bars joined by bars
    and a last bar, the cells are these texts, stripped, in order -- when
    the first text and the last are not empty; an empty text at either end
    merges its bar with the outer one and is lost. *)
Theorem cells_of_row cs :
  Forall (fun x => ch "|" ∉ x) cs ->
  hd [] cs <> [] -> default [] (last cs) <> [] ->
  cells (py "|" ++ join (py "|") cs ++ py "|") = strip <$> cs.
Proof.
  intros Hall Hhd Hlast. unfold cells. f_equal.
  assert (Hne : cs <> []) by (by destruct cs).
  change (py "|") with [ch "|"].
  change ([ch "|"] ++ join [ch "|"] cs ++ [ch "|"])
    with (ch "|" :: join [ch "|"] cs ++ [ch "|"]).
  unfold strip_char. rewrite strip_by_between.
  - by apply split_join.
  - apply ch_eqb_same.
  - destruct cs as [|x r]; [done|]. simpl in Hhd.
    destruct (join_hd [ch "|"] x r) as [post ->]. by destruct x.
  - destruct cs as [|x r]; [done|]. simpl in Hhd.
    destruct (join_hd [ch "|"] x r) as [post ->].
    destruct x as [|a x]; [done|]. change (ch_eqb (ch "|") a = false).
    apply Forall_cons in Hall as [Hx _].
    apply not_elem_of_cons in Hx as [Hx _]. by apply ch_eqb_ne.
  - destruct (last cs) as [x|] eqn:El; [|done]. simpl in Hlast.
    destruct (join_last [ch "|"] cs x El) as [pre ->].
    assert (Hx : ch "|" ∉ x).
    { rewrite Forall_forall in Hall. apply Hall.
      apply last_Some in El as [l' ->]. apply elem_of_app. right.
      by apply list_elem_of_singleton. }
    destruct (exists_last Hlast) as (l & z & ->).
    rewrite app_assoc, rev_app_distr. change (ch_eqb (ch "|") z = false).
    apply ch_eqb_ne. intros <-. apply Hx. apply elem_of_app. right.
    by apply list_elem_of_singleton.
Qed.

Lemma cells_of_row_witness :
  cells (py "|" ++ join (py "|") [py " Name "; py ""; py " Cost "] ++ py "|")
  = strip <$> [py " Name "; py ""; py " Cost "].
Proof.
  apply (cells_of_row [py " Name "; py ""; py " Cost "]).
  - repeat constructor; vm_compute; intros H;
      repeat (apply elem_of_cons in H as [H|H]; [discriminate H|]);
      by apply elem_of_nil in H.
  - done.
  - done.
Defined.

(** ** Worked inputs *)

(** A report with a title heading, one section with a line of text, a
    table followed by a blank line, and a citation. *)
Example parse_small_report :
  parsed (py "2024-05-01T09:00:00") (py "Report")
    [py "# Report"; py "## Executive Summary"; py "Some text.";
     py "| Name | Value |"; py "|---|---|"; py "| A | 1 |"; py "";
     py "[1] Example citation."] None
  = Some (Document.mk (py "Report")
            [Section.mk (py "Executive Summary") (py "Executive Summary")
               (py "Some text." ++ [newline] ++ py "[1] Example citation." ++ [newline])
               2 []]
            [Table.mk (py "T1") (py "Table 1") [py "Name"; py "Value"]
               [[py "A"; py "1"]]]
            [Reference.mk (py "1") (py "Example citation.")]
            [(py "created_at", VStr (py "2024-05-01T09:00:00"))]).
Proof. by vm_compute. Qed.

(** A level-3 heading with no open ancestor goes to the top level. *)
Example parse_orphan_heading :
  Document.sections <$> parsed (py "now") (py "Doc") [py "### 3.1. Deep"] None
  = Some [Section.mk (py "Deep") (py "3.1.  Deep") [] 3 []].
Proof. by vm_compute. Qed.

(** A table of a header row and a separator has no rows; a caption line
    just before it is found in the content of the section. *)
Example parse_table_without_rows :
  Document.tables <$>
    parsed (py "now") (py "Doc")
      [py "## Data"; py "Table 2: Products"; py "| P | Q |"; py "|---|---|"] None
  = Some [Table.mk (py "T1") (py "Table 2: Products") [py "P"; py "Q"] []].
Proof. by vm_compute. Qed.

(** Nested headings, and a heading that closes two levels at once. *)
Example parse_nested_headings :
  (fun doc => (fun s => (Section.name s, Section.name <$> Section.subsections s))
                <$> Document.sections doc) <$>
    parsed (py "now") (py "Doc")
      [py "# Title"; py "# 1. One"; py "## 1.1. A"; py "### 1.1.1. Aa";
       py "## 1.2. B"; py "# 2. Two"] None
  = Some [(py "One", [py "A"; py "B"]); (py "Two", [])].
Proof. by vm_compute. Qed.
